(** * haptools.data.genotypes: the genotype tensor, its validation pipeline,
      subsetting and record iteration

    A shallow embedding of [haptools/data/genotypes.py].  The object state of
    a [Genotypes] instance is a record, every method is a computation in a
    small state-and-exception monad that also collects the records sent to the
    logger, and numpy arrays are nested lists that carry their [dtype] and
    [shape] explicitly. *)

From Stdlib Require Import ZArith List Bool Lia Ascii String PrimFloat.
From stdpp Require Import base option list strings gmap.

Set Default Proof Using "Type".

(** ** numpy arrays *)

Module Np.

(** The two element types the genotype tensor goes through. *)
Inductive dtype := uint8 | bool_.

#[global] Instance dtype_eq_dec : EqDecision dtype.
Proof. solve_decision. Defined.

(** An array of up to three dimensions: [cells] is indexed
    [sample][variant][channel]; [shape] is what [ndarray.shape] returns, kept
    explicitly because a zero-length axis hides the lengths of the axes below
    it.  A [bool_] array stores [False] as 0 and [True] as 1. *)
Record ndarray := mk_ndarray {
  nd_dtype : dtype;
  shape : list nat;
  cells : list (list (list Z));
}.

(** [np.iinfo(np.uint8).max] *)
Definition uint8_max : Z := 255.

(** Conversion of an integer to [np.uint8]: wrap-around modulo [2^8]. *)
Definition to_uint8 (x : Z) : Z := (x mod 256)%Z.

(** [x.astype(np.bool_)] on one element. *)
Definition astype_bool (x : Z) : Z := if (x =? 0)%Z then 0%Z else 1%Z.

(** [~x]: bitwise complement on [uint8], logical negation on [bool_]. *)
Definition invert (dt : dtype) (x : Z) : Z :=
  match dt with
  | uint8 => Z.land (Z.lnot x) 255
  | bool_ => Z.lxor x 1
  end.

(** [x ^ y] and [x & y] agree on both element types once [True] is 1. *)
Definition bitxor (x y : Z) : Z := Z.lxor x y.
Definition bitand (x y : Z) : Z := Z.land x y.

(** [np.any] of a two-dimensional boolean array. *)
Definition any2 (m : list (list bool)) : bool := existsb (existsb (fun b => b)) m.

(** [np.nonzero] of a two-dimensional boolean array: the index pairs of the
    true entries in row-major order. *)
Fixpoint true_positions (j : nat) (row : list bool) : list nat :=
  match row with
  | [] => []
  | b :: row' =>
      if b then j :: true_positions (S j) row' else true_positions (S j) row'
  end.

Fixpoint nonzero_from (i : nat) (m : list (list bool)) : list (nat * nat) :=
  match m with
  | [] => []
  | row :: m' => map (pair i) (true_positions 0 row) ++ nonzero_from (S i) m'
  end.

Definition nonzero (m : list (list bool)) : list (nat * nat) := nonzero_from 0 m.

(** [np.delete(l, idx)] along one axis: the entries whose position is not
    listed in [idx] (repeated positions count once). *)
Fixpoint delete_from {A : Type} (i : nat) (idx : list nat) (l : list A) : list A :=
  match l with
  | [] => []
  | x :: l' =>
      if bool_decide (i ∈ idx) then delete_from (S i) idx l'
      else x :: delete_from (S i) idx l'
  end.

Definition delete {A : Type} (l : list A) (idx : list nat) : list A :=
  delete_from 0 idx l.

(** [np.delete(a, idx, axis=0)] and [np.delete(a, idx, axis=1)]. *)
Definition delete_axis0 (a : ndarray) (idx : list nat) : ndarray :=
  let c := delete (cells a) idx in
  mk_ndarray (nd_dtype a) (length c :: tail (shape a)) c.

Definition delete_axis1 (a : ndarray) (idx : list nat) : ndarray :=
  match shape a with
  | d0 :: d1 :: rest =>
      mk_ndarray (nd_dtype a)
        (d0 :: length (delete (seq 0 d1) idx) :: rest)
        (map (fun row => delete row idx) (cells a))
  | _ => a
  end.

(** [a.astype(np.bool_)] *)
Definition astype_bool_array (a : ndarray) : ndarray :=
  mk_ndarray bool_ (shape a) (map (map (map astype_bool)) (cells a)).

(** [a[:, :, :2]] *)
Definition first_two_channels (a : ndarray) : ndarray :=
  match shape a with
  | [d0; d1; d2] =>
      mk_ndarray (nd_dtype a) [d0; d1; Nat.min 2 d2] (map (map (take 2)) (cells a))
  | _ => a
  end.

(** Fancy indexing with a sequence of integers: [l[idx]] fails when a
    position is out of range. *)
Definition take_indices {A : Type} (l : list A) (idx : list nat) : option (list A) :=
  mapM (fun i => l !! i) idx.

(** [a[idx, :]] and [a[:, idx]] *)
Definition index_axis0 (a : ndarray) (idx : list nat) : option ndarray :=
  c ← take_indices (cells a) idx;
  Some (mk_ndarray (nd_dtype a) (length idx :: tail (shape a)) c).

Definition index_axis1 (a : ndarray) (idx : list nat) : option ndarray :=
  match shape a with
  | d0 :: d1 :: rest =>
      if forallb (fun i => i <? d1) idx then
        c ← mapM (fun row => take_indices row idx) (cells a);
        Some (mk_ndarray (nd_dtype a) (d0 :: length idx :: rest) c)
      else None
  | _ => None
  end.

(** Assignment through a boolean mask: the entries of [l] at the true
    positions of [mask] are replaced by their image under [f]. *)
Fixpoint map_masked {A : Type} (f : A → A) (mask : list bool) (l : list A) : list A :=
  match mask, l with
  | b :: mask', x :: l' => (if b then f x else x) :: map_masked f mask' l'
  | _, _ => l
  end.

(** [a.transpose((1, 0, 2))] of a list of [k] blocks, each of [n] rows. *)
Definition transpose (n : nat) (blocks : list (list (list Z))) : list (list (list Z)) :=
  map (fun s => map (fun block => nth s block []) blocks) (seq 0 n).

End Np.

Import Np.

(** ** Exceptions, log records, and the method monad *)

(** The text of a [ValueError], reduced to what it identifies. *)
Inductive message :=
| MissingGenotype (vid vchrom : string) (vpos : Z) (sample : string)
| MultiallelicVariant (vid vchrom : string) (vpos : Z) (sample : string)
| UnphasedVariant (vid vchrom : string) (vpos : Z) (sample : string)
| AxesDontMatch
| NoSuchField
| InvalidLiteral
| MissingHeader
| TooFewColumns
| NotInList
| NeedVariantsOrMax
| RangeStepZero
| CouldNotBroadcast
| InhomogeneousShape.

Inductive exn :=
| ValueError (m : message)
| IndexError
| KeyError
| TypeError
| AttributeError.

(** What the methods send to [self.log]. *)
Inductive diag :=
| WarnEverGrowingArray
| InfoCopying (n : nat)
| InfoRemovingPreallocated (n : nat)
| WarnFailedToLoad
| InfoTransposing (shp : list nat)
| InfoLoadingFrom (n : nat)
| WarnFewerSamples (diff kept : nat)
| WarnFewerVariants (diff kept : nat)
| InfoIgnoringMissing (n : nat)
| WarnAllSamplesDiscarded
| WarnAlreadyBiallelic
| InfoIgnoringMultiallelic (n : nat)
| WarnAllVariantsDiscarded
| WarnPhaseAlreadyRemoved
| WarnAlreadyMinor
| WarnSamplesOverridden
| WarnVariantsOverridden
| InfoReadingChunks (nsamples nvariants chunks : nat).

Inductive outcome (A : Type) :=
| Return (a : A)
| Raise (e : exn).
Arguments Return {A} a.
Arguments Raise {A} e.

(** A method body: from the state of the objects it can reach to its outcome,
    the state it leaves behind (also when it raises), and the log records it
    emitted, oldest first. *)
Definition M (S A : Type) : Type := S → outcome A * S * list diag.

#[global] Instance M_ret {S} : MRet (M S) := λ A a s, (Return a, s, []).

#[global] Instance M_bind {S} : MBind (M S) := λ A B k c s,
  match c s with
  | (Return a, s', l) => let '(r, s'', l') := k a s' in (r, s'', l ++ l')
  | (Raise e, s', l) => (Raise e, s', l)
  end.

Definition raise {S A} (e : exn) : M S A := λ s, (Raise e, s, []).
Definition emit {S} (d : diag) : M S unit := λ s, (Return tt, s, [d]).
Definition get {S} : M S S := λ s, (Return s, s, []).
Definition modify {S} (f : S → S) : M S unit := λ s, (Return tt, f s, []).

(** Unwrap a partial look-up, raising [e] when it has no value. *)
Definition or_raise {S A} (e : exn) (o : option A) : M S A :=
  match o with
  | Some a => mret a
  | None => raise e
  end.

(** ** The state of a [Genotypes] instance *)

(** One row of [self.variants].  [v_aaf] is the fourth column, whatever name
    the dtype currently gives it; [v_ref_alt] is present in the rows of
    [GenotypesRefAlt] and its subclasses. *)
Record variant_row := mk_row {
  v_id : string;
  v_chrom : string;
  v_pos : Z;
  v_aaf : float;
  v_ref_alt : option (string * string);
}.

(** The structured array [self.variants]: its [dtype.names] and its rows. *)
Record recarray := mk_recarray {
  names : list string;
  rows : list variant_row;
}.

Inductive class_ := Genotypes_ | GenotypesRefAlt_ | GenotypesPLINK_.

Record Genotypes := mk_Genotypes {
  cls : class_;
  samples : list string;
  variants : recarray;
  data : option ndarray;
  _prephased : bool;
  _samp_idx : option (gmap string nat);
  _var_idx : option (gmap string nat);
}.

Definition set_samples (x : list string) (g : Genotypes) : Genotypes :=
  mk_Genotypes (cls g) x (variants g) (data g) (_prephased g) (_samp_idx g) (_var_idx g).
Definition set_variants (x : recarray) (g : Genotypes) : Genotypes :=
  mk_Genotypes (cls g) (samples g) x (data g) (_prephased g) (_samp_idx g) (_var_idx g).
Definition set_data (x : ndarray) (g : Genotypes) : Genotypes :=
  mk_Genotypes (cls g) (samples g) (variants g) (Some x) (_prephased g) (_samp_idx g) (_var_idx g).
Definition set_samp_idx (x : option (gmap string nat)) (g : Genotypes) : Genotypes :=
  mk_Genotypes (cls g) (samples g) (variants g) (data g) (_prephased g) x (_var_idx g).
Definition set_var_idx (x : option (gmap string nat)) (g : Genotypes) : Genotypes :=
  mk_Genotypes (cls g) (samples g) (variants g) (data g) (_prephased g) (_samp_idx g) x.

(** [dtype.names] as the constructors declare them. *)
Definition init_names (c : class_) : list string :=
  match c with
  | Genotypes_ => ["id"; "chrom"; "pos"; "aaf"]
  | _ => ["id"; "chrom"; "pos"; "aaf"; "ref"; "alt"]
  end.

(** [__init__]: no samples, an empty variant table, no tensor yet (the base
    class [Data] leaves [self.data] unset), no index. *)
Definition __init__ (c : class_) : Genotypes :=
  mk_Genotypes c [] (mk_recarray (init_names c) []) None false None None.

(** [self.data] where the method goes on to index three axes; [e] is what
    the first use of an unset tensor raises. *)
Definition data3 (e : exn) : M Genotypes ndarray := λ g,
  match data g with
  | None => (Raise e, g, [])
  | Some a =>
      match shape a with
      | [_; _; _] => (Return a, g, [])
      | _ => (Raise IndexError, g, [])
      end
  end.

Definition dim (k : nat) (a : ndarray) : nat := nth k (shape a) 0.

(** ** The validation pipeline *)

(** [np.any(self.data[:, :, :2] == np.iinfo(np.uint8).max, axis=2)] *)
Definition missing_mask (a : ndarray) : list (list bool) :=
  map (map (fun cell => existsb (fun x => (x =? uint8_max)%Z) (take 2 cell))) (cells a).

(** The first three fields of a variant row, as the error messages print them. *)
Definition first_offender (mk : string → string → Z → string → message)
    (nz : list (nat * nat)) : M Genotypes unit :=
  g ← get;
  j ← or_raise IndexError (nz.*2 !! 0);
  v ← or_raise IndexError (rows (variants g) !! j);
  i ← or_raise IndexError (nz.*1 !! 0);
  s ← or_raise IndexError (samples g !! i);
  raise (ValueError (mk (v_id v) (v_chrom v) (v_pos v) s)).

Definition check_missing (discard_also : bool) : M Genotypes unit :=
  a ← data3 TypeError;
  let missing := missing_mask a in
  (if any2 missing then
     let nz := nonzero missing in
     let samp_idx := nz.*1 in
     if discard_also then
       emit (InfoIgnoringMissing (length samp_idx));;
       modify (set_data (delete_axis0 a samp_idx));;
       modify (λ g, set_samples (delete (samples g) samp_idx) g);;
       modify (set_samp_idx None)
     else first_offender MissingGenotype nz
   else mret tt);;
  a' ← data3 AttributeError;
  if discard_also && (dim 0 a' =? 0) then emit WarnAllSamplesDiscarded
  else mret tt.

(** [np.any(self.data[:, :, :2] > 1, axis=2)] *)
Definition multiallelic_mask (a : ndarray) : list (list bool) :=
  map (map (fun cell => existsb (fun x => (1 <? x)%Z) (take 2 cell))) (cells a).

Definition check_biallelic (discard_also : bool) : M Genotypes unit :=
  g ← get;
  a0 ← or_raise AttributeError (data g);
  if decide (nd_dtype a0 = bool_) then emit WarnAlreadyBiallelic
  else
    a ← data3 TypeError;
    let multiallelic := multiallelic_mask a in
    (if any2 multiallelic then
       let nz := nonzero multiallelic in
       let variant_idx := nz.*2 in
       if discard_also then
         emit (InfoIgnoringMultiallelic (length variant_idx));;
         modify (set_data (delete_axis1 a variant_idx));;
         modify (λ g, set_variants
           (mk_recarray (names (variants g)) (delete (rows (variants g)) variant_idx)) g);;
         modify (set_var_idx None)
       else first_offender MultiallelicVariant nz
     else mret tt);;
    a' ← data3 AttributeError;
    (if discard_also && (dim 1 a' =? 0) then emit WarnAllVariantsDiscarded
     else mret tt);;
    modify (set_data (astype_bool_array a')).

(** [(self.data[:, :, 0] ^ self.data[:, :, 1]) & (~self.data[:, :, 2])],
    followed by the truth value [np.any] and [np.nonzero] look at. *)
Definition unphased_cell (dt : dtype) (cell : list Z) : Z :=
  bitand (bitxor (nth 0 cell 0%Z) (nth 1 cell 0%Z)) (invert dt (nth 2 cell 0%Z)).

Definition unphased_mask (a : ndarray) : list (list bool) :=
  map (map (fun cell => negb (unphased_cell (nd_dtype a) cell =? 0)%Z)) (cells a).

Definition check_phase : M Genotypes unit :=
  g ← get;
  if _prephased g then emit WarnPhaseAlreadyRemoved
  else
    a ← data3 AttributeError;
    if dim 2 a <? 3 then emit WarnPhaseAlreadyRemoved
    else
      let unphased := unphased_mask a in
      (if any2 unphased then first_offender UnphasedVariant (nonzero unphased)
       else mret tt);;
      modify (set_data (first_two_channels a)).

(** [~self.data[:, need_conversion, :2]] written back into the first two
    channels of the masked columns. *)
Definition flip_cell (dt : dtype) (cell : list Z) : list Z :=
  map (invert dt) (take 2 cell) ++ drop 2 cell.

Definition flip_columns (need_conversion : list bool) (a : ndarray) : ndarray :=
  mk_ndarray (nd_dtype a) (shape a)
    (map (map_masked (flip_cell (nd_dtype a)) need_conversion) (cells a)).

Definition complement_aaf (v : variant_row) : variant_row :=
  mk_row (v_id v) (v_chrom v) (v_pos v) (1 - v_aaf v)%float (v_ref_alt v).

Definition exceeds_half (v : variant_row) : bool := (0.5 <? v_aaf v)%float.

Definition to_MAC : M Genotypes unit :=
  g ← get;
  name3 ← or_raise IndexError (names (variants g) !! 3);
  if String.eqb name3 "maf" then emit WarnAlreadyMinor
  else if negb (String.eqb name3 "aaf") then raise (ValueError NoSuchField)
  else
    let need_conversion := map exceeds_half (rows (variants g)) in
    a ← data3 TypeError;
    if negb (length need_conversion =? dim 1 a) then raise IndexError
    else
      modify (set_data (flip_columns need_conversion a));;
      modify (λ g, set_variants
        (mk_recarray (names (variants g))
           (map (λ v, if exceeds_half v then complement_aaf v else v) (rows (variants g)))) g);;
      modify (λ g, set_variants
        (mk_recarray
           (map (λ x, if String.eqb x "aaf" then "maf" else x) (names (variants g)))
           (rows (variants g))) g).

(** ** Indexing and subsetting *)

(** [dict(zip(keys, range(len(keys))))]: a key that occurs twice keeps the
    position of its last occurrence. *)
Definition index_of (keys : list string) : gmap string nat :=
  foldl (λ m p, <[p.1 := p.2]> m) ∅ (zip keys (seq 0 (length keys))).

Definition index (on_samples on_variants : bool) (g : Genotypes) : Genotypes :=
  let g1 :=
    match on_samples, _samp_idx g with
    | true, None => set_samp_idx (Some (index_of (samples g))) g
    | _, _ => g
    end in
  match on_variants, _var_idx g1 with
  | true, None => set_var_idx (Some (index_of (v_id <$> rows (variants g1)))) g1
  | _, _ => g1
  end.

(** The objects [subset] works on: [self], and [gts], which is [self] itself
    when [inplace] is set (no second object) and a fresh instance otherwise. *)
Definition heap : Type := Genotypes * option Genotypes.

Definition self_of (h : heap) : Genotypes := h.1.
Definition gts_of (h : heap) : Genotypes := default h.1 h.2.

Definition on_self (f : Genotypes → Genotypes) : M heap unit :=
  modify (λ h : heap, (f h.1, h.2)).

Definition on_gts (f : Genotypes → Genotypes) : M heap unit :=
  modify (λ h : heap,
    match h.2 with
    | None => (f h.1, None)
    | Some g => (h.1, Some (f g))
    end).

Definition subset_samples (samples_ : list string) (inplace : bool) : M heap unit :=
  h ← get;
  idx ← or_raise TypeError (_samp_idx (self_of h));
  let kept := List.filter (λ samp, bool_decide (is_Some (idx !! samp))) samples_ in
  on_gts (set_samples kept);;
  (if length kept <? length samples_ then
     emit (WarnFewerSamples (length samples_ - length kept) (length kept))
   else mret tt);;
  samp_idx ← or_raise KeyError (mapM (λ samp, idx !! samp) kept);
  (if inplace then on_self (set_samp_idx None) else mret tt);;
  h ← get;
  a ← or_raise TypeError (data (gts_of h));
  a' ← or_raise IndexError (index_axis0 a samp_idx);
  on_gts (set_data a').

Definition subset_variants (variants_ : list string) (inplace : bool) : M heap unit :=
  h ← get;
  idx ← or_raise TypeError (_var_idx (self_of h));
  let var_idx := omap (λ var, idx !! var) variants_ in
  (if length var_idx <? length variants_ then
     emit (WarnFewerVariants (length variants_ - length var_idx) (length var_idx))
   else mret tt);;
  let table := variants (self_of h) in
  rows' ← or_raise IndexError (take_indices (rows table) var_idx);
  on_gts (set_variants (mk_recarray (names table) rows'));;
  (if inplace then on_self (set_var_idx None) else mret tt);;
  h ← get;
  a ← or_raise TypeError (data (gts_of h));
  a' ← or_raise IndexError (index_axis1 a var_idx);
  on_gts (set_data a').

Definition subset_body (samples_ variants_ : option (list string)) (inplace : bool)
    : M heap unit :=
  h ← get;
  on_gts (set_samples (samples (self_of h)));;
  on_gts (set_variants (variants (self_of h)));;
  on_gts (λ g, mk_Genotypes (cls g) (samples g) (variants g) (data (self_of h))
                 (_prephased g) (_samp_idx g) (_var_idx g));;
  on_self (index (bool_decide (is_Some samples_)) (bool_decide (is_Some variants_)));;
  (match samples_ with
   | Some l => subset_samples l inplace
   | None => mret tt
   end);;
  (match variants_ with
   | Some l => subset_variants l inplace
   | None => mret tt
   end).

(** [subset]: the state of [self] afterwards, and the new instance when
    [inplace] is unset. *)
Definition subset (samples_ variants_ : option (list string)) (inplace : bool)
    : M Genotypes (option Genotypes) := λ self,
  let h0 : heap := (self, if inplace then None else Some (__init__ (cls self))) in
  match subset_body samples_ variants_ inplace h0 with
  | (Return _, h, l) => (Return h.2, h.1, l)
  | (Raise e, h, l) => (Raise e, h.1, l)
  end.

(** ** Reading a VCF *)

(** A record decoded by cyvcf2.  [genotypes] is [variant.genotypes]: one call
    per selected sample, for a diploid call the row [a0; a1; phased], a
    missing allele being -1; a file without samples has no call. *)
Record Variant := mk_Variant {
  ID : string;
  CHROM : string;
  POS : Z;
  aaf : float;
  REF : string;
  ALT : list string;
  genotypes : list (list Z);
}.

(** An opened [cyvcf2.VCF]: the samples it was opened for, and the records
    [vcf(region)] produces, in file order.  Region and sample selection are
    the decoder's work. *)
Record VCF := mk_VCF {
  vcf_samples : list string;
  vcf_call : option string → list Variant;
}.

(** The namedtuple [Record(data, variants)]. *)
Record Record_ := mk_Record {
  rec_data : list (list Z);
  rec_variants : variant_row;
}.

(** What a generator does when it is run until it stops by itself: every
    record it pulls from its source is skipped ([continue]), yielded, makes it
    [break], or makes it raise. *)
Inductive trace (A : Type) :=
| Exhausted
| Broke
| Skipped (rest : trace A)
| Yielded (a : A) (rest : trace A)
| Failed (e : exn).
Arguments Exhausted {A}.
Arguments Broke {A}.
Arguments Skipped {A} rest.
Arguments Yielded {A} a rest.
Arguments Failed {A} e.

Fixpoint emitted {A} (t : trace A) : list A :=
  match t with
  | Skipped rest => emitted rest
  | Yielded a rest => a :: emitted rest
  | _ => []
  end.

(** How many records the generator pulled from its source. *)
Fixpoint pulled {A} (t : trace A) : nat :=
  match t with
  | Exhausted => 0
  | Broke => 1
  | Skipped rest => S (pulled rest)
  | Yielded _ rest => S (pulled rest)
  | Failed _ => 1
  end.

Fixpoint failure {A} (t : trace A) : option exn :=
  match t with
  | Skipped rest => failure rest
  | Yielded _ rest => failure rest
  | Failed e => Some e
  | _ => None
  end.

(** A string stored in a fixed-width unicode field keeps its first [n]
    characters. *)
Definition fit (n : nat) (s : string) : string := String.substring 0 n s.

(** [_variant_arr] of [Genotypes], and its override in [GenotypesRefAlt]
    (where [record.ALT[0]] needs an alternate allele).  [GenotypesPLINK]
    overrides it once more, for the rows of a PVAR file ([PLINK._variant_arr]);
    the properties of the VCF methods are stated for the two other classes. *)
Definition _variant_arr (c : class_) (record : Variant) : outcome variant_row :=
  match c with
  | Genotypes_ =>
      Return (mk_row (fit 50 (ID record)) (fit 10 (CHROM record)) (POS record)
                (aaf record) None)
  | _ =>
      match ALT record with
      | alt0 :: _ =>
          Return (mk_row (fit 50 (ID record)) (fit 10 (CHROM record)) (POS record)
                    (aaf record) (Some (fit 100 (REF record), fit 100 alt0)))
      | [] => Raise IndexError
      end
  end.

(** [2 + (not self._prephased)] *)
Definition channels (prephased : bool) : nat := if prephased then 2 else 3.

(** The calls of a record converted to [np.uint8] and cut to their first
    [channels] entries: the value of [data[:, :channels]] when the calls make
    up a two-dimensional array. *)
Definition counts (prephased : bool) (variant : Variant) : list (list Z) :=
  map (λ g, take (channels prephased) (map to_uint8 g)) (genotypes variant).

(** [np.array(variant.genotypes, dtype=np.uint8)[:, :channels]].  Calls of one
    length make up a two-dimensional array; calls of different lengths cannot
    be stored in one array; and without a call (a file without samples) the
    array has one dimension only, which the slice with two indices refuses. *)
Definition genotype_data (prephased : bool) (variant : Variant)
    : outcome (list (list Z)) :=
  match genotypes variant with
  | [] => Raise IndexError
  | call :: calls =>
      if forallb (λ other, length other =? length call) calls
      then Return (counts prephased variant)
      else Raise (ValueError InhomogeneousShape)
  end.

(** The loop of [Genotypes._iterate] over the records still to come, with the
    current value of [num_seen]. *)
Fixpoint _iterate_from (c : class_) (prephased : bool) (variants_ : option (gset string))
    (num_seen : nat) (src : list Variant) : trace Record_ :=
  match src with
  | [] => Exhausted
  | variant :: src' =>
      let go_on :=
        match _variant_arr c variant with
        | Return variant_arr =>
            match genotype_data prephased variant with
            | Return data =>
                Yielded (mk_Record data variant_arr)
                  (_iterate_from c prephased variants_ (S num_seen) src')
            | Raise e => Failed e
            end
        | Raise e => Failed e
        end in
      match variants_ with
      | Some vs =>
          if bool_decide (ID variant ∉ vs) then
            if size vs <=? num_seen then Broke
            else Skipped (_iterate_from c prephased variants_ num_seen src')
          else go_on
      | None => go_on
      end
  end.

Definition _iterate (c : class_) (prephased : bool) (vcf : VCF) (region : option string)
    (variants_ : option (gset string)) : trace Record_ :=
  _iterate_from c prephased variants_ 0 (vcf_call vcf region).

(** The unbounded loop of [read]: every yielded record is appended. *)
Fixpoint append_all {A} (t : trace A) : outcome (list A) :=
  match t with
  | Exhausted | Broke => Return []
  | Skipped rest => append_all rest
  | Yielded a rest =>
      match append_all rest with
      | Return l => Return (a :: l)
      | Raise e => Raise e
      end
  | Failed e => Raise e
  end.

(** The bounded loop of [read_variants]: the consumer asks for the next record,
    leaves as soon as [num_seen >= max_variants], and stores the record
    otherwise. *)
Fixpoint fill {A} (max_variants num_seen : nat) (t : trace A) : outcome (list A) :=
  match t with
  | Exhausted | Broke => Return []
  | Skipped rest => fill max_variants num_seen rest
  | Yielded a rest =>
      if max_variants <=? num_seen then Return []
      else
        match fill max_variants (S num_seen) rest with
        | Return l => Return (a :: l)
        | Raise e => Raise e
        end
  | Failed e => Raise e
  end.

(** [self.data.transpose((1, 0, 2))] *)
Definition transpose_102 (a : ndarray) : option ndarray :=
  match shape a with
  | [k; n; c] => Some (mk_ndarray (nd_dtype a) [n; k; c] (transpose n (cells a)))
  | _ => None
  end.

(** The shape of a two-dimensional block. *)
Definition block_shape (block : list (list Z)) : list nat :=
  [length block; length (hd [] block)].

(** [np.array(data_arr, dtype=np.uint8)] of the blocks the unbounded loop
    collected: blocks of one shape are stacked into a three-dimensional array
    whose shape is read off them, blocks of different shapes cannot be
    stacked, and an empty list gives a one-dimensional array of length 0. *)
Definition stack (blocks : list (list (list Z))) : outcome ndarray :=
  match blocks with
  | [] => Return (mk_ndarray uint8 [0] [])
  | block :: blocks' =>
      if forallb (λ other, bool_decide (block_shape other = block_shape block)) blocks'
      then Return (mk_ndarray uint8 (length blocks :: block_shape block) blocks)
      else Raise (ValueError InhomogeneousShape)
  end.

(** Broadcasting along one axis: the entries fill the [n] places when there
    are [n] of them, a single entry is repeated, anything else does not fit. *)
Definition broadcast_to {A} (n : nat) (l : list A) : option (list A) :=
  if length l =? n then Some l
  else
    match l with
    | [x] => Some (replicate n x)
    | _ => None
    end.

(** [self.data[num_seen] = rec.data]: the block is broadcast to the
    preallocated slot of shape (samples, channels). *)
Definition store_block (nsamp nchan : nat) (rec : Record_) : outcome Record_ :=
  match mapM (broadcast_to nchan) (rec_data rec) ≫= broadcast_to nsamp with
  | Some block => Return (mk_Record block (rec_variants rec))
  | None => Raise (ValueError CouldNotBroadcast)
  end.

(** The bounded loop of [read]: as [fill], and each record is written into
    its preallocated slot before the next one is asked for. *)
Fixpoint fill_with {A B} (store : A → outcome B) (max_variants num_seen : nat)
    (t : trace A) : outcome (list B) :=
  match t with
  | Exhausted | Broke => Return []
  | Skipped rest => fill_with store max_variants num_seen rest
  | Yielded a rest =>
      if max_variants <=? num_seen then Return []
      else
        match store a with
        | Return b =>
            match fill_with store max_variants (S num_seen) rest with
            | Return l => Return (b :: l)
            | Raise e => Raise e
            end
        | Raise e => Raise e
        end
  | Failed e => Raise e
  end.

(** [Genotypes.read], as [Genotypes] and [GenotypesRefAlt] run it
    ([GenotypesPLINK] overrides it, see [PLINK.read]).  The call of the base
    class [Data.read] only logs and is left out.  The arrays are assembled
    variant-major, one block per stored record, and transposed at the end; an
    empty list of blocks gives a one-dimensional array in unbounded mode,
    which cannot be transposed.  When the bounded loop raises, the
    preallocated arrays hold unspecified values; the model then leaves the
    previous arrays in place. *)
Definition read (vcf : VCF) (region : option string) (variants_ : option (gset string))
    (max_variants : option nat) : M Genotypes unit :=
  modify (set_samples (vcf_samples vcf));;
  g ← get;
  let records := _iterate (cls g) (_prephased g) vcf region variants_ in
  let max_variants :=
    match variants_ with
    | Some vs => Some (size vs)
    | None => max_variants
    end in
  let nsamp := length (samples g) in
  let nchan := channels (_prephased g) in
  (match max_variants with
   | None =>
       emit WarnEverGrowingArray;;
       emit (InfoLoadingFrom nsamp);;
       recs ← (λ s, (append_all records, s, []));
       emit (InfoCopying (length recs));;
       modify (set_variants (mk_recarray (names (variants g)) (rec_variants <$> recs)));;
       a ← (λ s, (stack (rec_data <$> recs), s, []));
       modify (set_data a)
   | Some m =>
       emit (InfoLoadingFrom nsamp);;
       recs ← (λ s, (fill_with (store_block nsamp nchan) m 0 records, s, []));
       let num_seen := length recs in
       (if num_seen <? m then emit (InfoRemovingPreallocated (m - num_seen))
        else mret tt);;
       modify (set_variants (mk_recarray (names (variants g)) (rec_variants <$> recs)));;
       modify (set_data (mk_ndarray uint8 [num_seen; nsamp; nchan] (rec_data <$> recs)))
   end);;
  g ← get;
  a ← or_raise AttributeError (data g);
  (if bool_decide (0 ∈ shape a) then emit WarnFailedToLoad else mret tt);;
  emit (InfoTransposing (shape a));;
  a' ← or_raise (ValueError AxesDontMatch) (transpose_102 a);
  modify (set_data a').

(** [Genotypes.load]: the classmethod builds an instance, reads, and runs the
    checks; the call of [to_MAC] is commented out in the source. *)
Definition load (c : class_) (vcf : VCF) (region : option string)
    (variants_ : option (gset string)) : outcome Genotypes * list diag :=
  let body : M Genotypes unit :=
    read vcf region variants_ None;;
    check_missing false;;
    check_biallelic false;;
    check_phase in
  match body (__init__ c) with
  | (Return _, genotypes, l) => (Return genotypes, l)
  | (Raise e, _, l) => (Raise e, l)
  end.

(** ** Reading a PLINK trio *)

Module PLINK.

(** An opened [pgenlib.PgenReader] over the selected samples: the number of
    variants, and for the variant at a position of the PVAR file its alleles
    (two per sample, strand one first, a missing allele being -9) and its
    phase flags (one per sample). *)
Record PgenReader := mk_PgenReader {
  get_variant_ct : nat;
  read_alleles : nat → list Z;
  read_phasepresent : nat → list Z;
}.

(** A PSAM or PVAR file as the csv reader delivers it: the header row the
    search loop stops at, and the rows after it. *)
Record table := mk_table {
  header : list string;
  body : list (list string);
}.

(** Python's [int(s)] on the decimal numerals the files hold. *)
Fixpoint digits_value (acc : Z) (s : string) : option Z :=
  match s with
  | EmptyString => Some acc
  | String c s' =>
      let n := Ascii.nat_of_ascii c in
      if (48 <=? n) && (n <=? 57)
      then digits_value (10 * acc + Z.of_nat (n - 48))%Z s'
      else None
  end.

Definition int_of (s : string) : option Z :=
  match s with
  | EmptyString => None
  | _ => digits_value 0 s
  end.

(** [header[0][0] == "#"] followed by [header[0] = header[0][1:]]. *)
Definition strip_hash {S} (header_ : list string) : M S (list string) :=
  match header_ with
  | [] => raise IndexError
  | EmptyString :: _ => raise IndexError
  | String c h0 :: rest =>
      if Ascii.eqb c "#"%char then mret (h0 :: rest)
      else raise (ValueError MissingHeader)
  end.

(** [header.index(name)] *)
Definition column {S} (header_ : list string) (name : string) : M S nat :=
  or_raise (ValueError NotInList) (fst <$> list_find (λ x, x = name) header_).

(** [read_samples]: the positions of the kept samples within the PSAM file. *)
Definition read_samples (psam : table) (samples_ : option (list string))
    : M Genotypes (list nat) :=
  g ← get;
  (if negb (length (samples g) =? 0) then emit WarnSamplesOverridden else mret tt);;
  header_ ← strip_hash (header psam);
  col_idx ← column header_ "IID";
  names_ ← or_raise IndexError (mapM (λ samp : list string, samp !! col_idx) (body psam));
  let kept :=
    List.filter
      (λ p : nat * string,
         match samples_ with
         | None => true
         | Some l => bool_decide (p.2 ∈ l)
         end)
      (zip (seq 0 (length names_)) names_) in
  modify (set_samples kept.*2);;
  mret kept.*1.

(** A region string after [re.split] and the conversion of its positions. *)
Definition region_t : Type := string * list Z.

(** [_check_region], with its defaults [start = 0] and [end = inf]. *)
Definition _check_region (pos_ : string * Z) (chrom : string) (start : Z)
    (end_ : option Z) : bool :=
  bool_decide (pos_.1 = chrom) && (start <=? pos_.2)%Z
  && match end_ with
     | None => true
     | Some e => (pos_.2 <=? e)%Z
     end.

Definition check_region_args (pos_ : string * Z) (region : region_t) : option bool :=
  match region.2 with
  | [] => Some (_check_region pos_ region.1 0 None)
  | [s] => Some (_check_region pos_ region.1 s None)
  | [s; e] => Some (_check_region pos_ region.1 s (Some e))
  | _ => None
  end.

(** [_variant_arr] with its default column positions
    [CHROM, POS, ID, REF, ALT]: the frequency column is the constant 0.5. *)
Definition _variant_arr (record : list string) : outcome variant_row :=
  match record !! 2, record !! 0, record !! 1, record !! 3, record !! 4 with
  | Some id_, Some chrom_, Some pos_, Some ref_, Some alt_ =>
      match int_of pos_ with
      | Some p =>
          Return (mk_row (fit 50 id_) (fit 10 chrom_) p 0.5%float
                    (Some (fit 100 ref_, fit 100 alt_)))
      | None => Raise (ValueError InvalidLiteral)
      end
  | _, _, _, _, _ => Raise IndexError
  end.

(** The positions of the columns the loop of [_iterate_variants] reads. *)
Record cid_t := mk_cid { cid_chrom : nat; cid_pos : nat; cid_id : nat }.

(** Whether the region test makes the loop [continue]. *)
Definition outside_region (region : option region_t) (cid : cid_t) (rec : list string)
    : outcome bool :=
  match region with
  | None => Return false
  | Some r =>
      match rec !! cid_chrom cid, rec !! cid_pos cid with
      | Some c, Some p =>
          match int_of p with
          | Some n =>
              match check_region_args (c, n) r with
              | Some b => Return (negb b)
              | None => Raise TypeError
              end
          | None => Raise (ValueError InvalidLiteral)
          end
      | _, _ => Raise IndexError
      end
  end.

(** The loop of [_iterate_variants] from the row at position [ct] on.
    [num_seen] is the local counter of the source; no statement of the loop
    assigns to it. *)
Fixpoint _iterate_variants_from (region : option region_t)
    (variants_ : option (gset string)) (cid : cid_t) (num_seen : nat) (ct : nat)
    (pvariants : list (list string)) : trace (nat * variant_row) :=
  match pvariants with
  | [] => Exhausted
  | rec :: pvariants' =>
      let next_ := _iterate_variants_from region variants_ cid num_seen (S ct) pvariants' in
      let go_on :=
        match _variant_arr rec with
        | Return row => Yielded (ct, row) next_
        | Raise e => Failed e
        end in
      match outside_region region cid rec with
      | Raise e => Failed e
      | Return true => Skipped next_
      | Return false =>
          match variants_ with
          | None => go_on
          | Some vs =>
              match rec !! cid_id cid with
              | None => Failed IndexError
              | Some i =>
                  if bool_decide (i ∉ vs) then
                    if size vs <=? num_seen then Broke else Skipped next_
                  else go_on
              end
          end
      end
  end.

(** [_iterate_variants]: the header checks, then the loop with [num_seen = 0]. *)
Definition _iterate_variants (pvar : table) (region : option region_t)
    (variants_ : option (gset string)) : trace (nat * variant_row) :=
  let prologue : M unit cid_t :=
    (if length (header pvar) <? 5 then raise (ValueError TooFewColumns) else mret tt);;
    header_ ← strip_hash (header pvar);
    c ← column header_ "CHROM";
    p ← column header_ "POS";
    i ← column header_ "ID";
    mret (mk_cid c p i) in
  match prologue tt with
  | (Return cid, _, _) => _iterate_variants_from region variants_ cid 0 0 (body pvar)
  | (Raise e, _, _) => Failed e
  end.

(** [read_variants]: the positions of the stored variants within the PVAR
    file. *)
Definition read_variants (pvar : table) (region : option region_t)
    (variants_ : option (gset string)) (max_variants : option nat)
    : M Genotypes (list nat) :=
  g ← get;
  (if negb (length (rows (variants g)) =? 0) then emit WarnVariantsOverridden
   else mret tt);;
  let max_variants :=
    match variants_ with
    | Some vs => Some (size vs)
    | None => max_variants
    end in
  m ← or_raise (ValueError NeedVariantsOrMax) max_variants;
  stored ← (λ s, (fill m 0 (_iterate_variants pvar region variants_), s, []));
  let num_seen := length stored in
  (if num_seen <? m then emit (InfoRemovingPreallocated (m - num_seen)) else mret tt);;
  modify (set_variants (mk_recarray (names (variants g)) stored.*2));;
  mret stored.*1.

(** [data[:, ::2]] and [data[:, 1::2]] of one row. *)
Fixpoint evens (l : list Z) : list Z :=
  match l with
  | [] => []
  | x :: l' => x :: match l' with [] => [] | _ :: l'' => evens l'' end
  end.

Definition odds (l : list Z) : list Z := evens (tail l).

(** One variant of the tensor as [read] builds it from the decoder's buffers:
    -9 becomes -1, the strands are paired up and converted to [np.uint8], and
    the phase flags are appended unless the instance is pre-phased. *)
Definition decode_block (prephased : bool) (nsamp : nat) (alleles phasing : list Z)
    : list (list Z) :=
  let remapped := map (λ x, if (x =? -9)%Z then (-1)%Z else x) alleles in
  let pairs_ :=
    zip_with (λ a b, [to_uint8 a; to_uint8 b]) (evens remapped) (odds remapped) in
  if prephased then pairs_
  else zip_with (λ c p, c ++ [p]) pairs_ (take nsamp phasing).

(** [GenotypesPLINK.read].  The chunks are written into the tensor one after
    the other; a step of zero makes [range] raise, and a last chunk shorter
    than the buffer cannot be written into its slice. *)
Definition read (psam pvar : table) (pgen : PgenReader) (region : option region_t)
    (samples_ : option (list string)) (variants_ : option (gset string))
    (max_variants chunk_size : option nat) : M Genotypes unit :=
  sample_idxs ← read_samples psam samples_;
  let max_variants :=
    match variants_ with
    | Some vs => Some (size vs)
    | None => max_variants
    end in
  let max_variants :=
    match max_variants with
    | None => get_variant_ct pgen
    | Some m => Nat.min m (get_variant_ct pgen)
    end in
  indices ← read_variants pvar region variants_ (Some max_variants);
  let chunks :=
    match chunk_size with
    | None => length indices
    | Some c => if length indices <? c then length indices else c
    end in
  g ← get;
  let nsamp := length sample_idxs in
  emit (InfoReadingChunks (length (samples g)) (length indices) chunks);;
  (if chunks =? 0 then raise (ValueError RangeStepZero) else mret tt);;
  (if negb (length indices mod chunks =? 0) then raise (ValueError CouldNotBroadcast)
   else mret tt);;
  let blocks :=
    map (λ ct, decode_block (_prephased g) nsamp (read_alleles pgen ct)
                 (read_phasepresent pgen ct)) indices in
  let a := mk_ndarray uint8 [nsamp; length indices; channels (_prephased g)]
             (transpose nsamp blocks) in
  modify (set_data a);;
  (if bool_decide (0 ∈ shape a) then emit WarnFailedToLoad else mret tt).

(** [GenotypesPLINK.load]: the inherited classmethod, which reaches
    [GenotypesPLINK.read] with neither [max_variants] nor [chunk_size]. *)
Definition load (psam pvar : table) (pgen : PgenReader) (region : option region_t)
    (samples_ : option (list string)) (variants_ : option (gset string))
    : outcome Genotypes * list diag :=
  let body : M Genotypes unit :=
    read psam pvar pgen region samples_ variants_ None None;;
    check_missing false;;
    check_biallelic false;;
    check_phase in
  match body (__init__ GenotypesPLINK_) with
  | (Return _, genotypes, l) => (Return genotypes, l)
  | (Raise e, _, l) => (Raise e, l)
  end.

End PLINK.

(** ** Well-formed states and the vocabulary of the properties *)

(** The cell of sample [i] and variant [j]. *)
Definition cell_at (a : ndarray) (i j : nat) : option (list Z) :=
  cells a !! i ≫= (.!! j).

(** A numpy array always has as many entries along each axis as its shape
    says. *)
Definition regular (a : ndarray) : Prop :=
  ∃ d0 d1 d2,
    shape a = [d0; d1; d2] ∧ length (cells a) = d0 ∧
    Forall (λ row, length row = d1 ∧ Forall (λ cell : list Z, length cell = d2) row)
      (cells a).

(** The values an element type can hold. *)
Definition fits (dt : dtype) (x : Z) : Prop :=
  match dt with
  | uint8 => (0 ≤ x < 256)%Z
  | bool_ => x = 0%Z ∨ x = 1%Z
  end.

Definition in_range (a : ndarray) : Prop :=
  Forall (Forall (Forall (fits (nd_dtype a)))) (cells a).

(** Every element is 0 or 1, whatever the element type. *)
Definition binary (a : ndarray) : Prop :=
  Forall (Forall (Forall (λ x, x = 0%Z ∨ x = 1%Z))) (cells a).

(** An index is either absent or the one [index] would build now. *)
Definition caches_valid (g : Genotypes) : Prop :=
  (_samp_idx g = None ∨ _samp_idx g = Some (index_of (samples g))) ∧
  (_var_idx g = None ∨ _var_idx g = Some (index_of (v_id <$> rows (variants g)))).


(** The states the methods are meant to work on: a loaded tensor that is a
    proper array, aligned with the sample list and the variant table, and
    indexes that are not stale. *)
Definition wf (g : Genotypes) : Prop :=
  ∃ a, data g = Some a ∧ regular a ∧ in_range a ∧
       dim 0 a = length (samples g) ∧ dim 1 a = length (rows (variants g)) ∧
       caches_valid g.

(** The entry of a two-dimensional mask. *)
Definition entry (m : list (list bool)) (i j : nat) : option bool := m !! i ≫= (.!! j).

(** [P i j] holds and no pair before [(i, j)] in row-major order satisfies
    [P]: the pair [np.nonzero] lists first. *)
Definition first_pair (P : nat → nat → Prop) (i j : nat) : Prop :=
  P i j ∧ ∀ i' j', P i' j' → i < i' ∨ (i = i' ∧ j ≤ j').

(** Either of the first two channels holds the missing sentinel. *)
Definition missing_at (a : ndarray) (i j : nat) : Prop :=
  ∃ cell, cell_at a i j = Some cell ∧
          (cell !! 0 = Some uint8_max ∨ cell !! 1 = Some uint8_max).

Definition row_missing (row : list (list Z)) : bool :=
  existsb (λ cell, existsb (λ x, (x =? uint8_max)%Z) (take 2 cell)) row.

(** Heterozygous (the two allele channels differ) with a false phase flag. *)
Definition unphased_het_at (a : ndarray) (i j : nat) : Prop :=
  ∃ cell c0 c1, cell_at a i j = Some cell ∧ cell !! 0 = Some c0 ∧ cell !! 1 = Some c1 ∧
                c0 ≠ c1 ∧ cell !! 2 = Some 0%Z.

(** What flipping turns a cell into: the two allele channels are replaced by
    [flip] of their values, the other channels stay. *)
Definition flipped (flip : Z → Z) (cell cell' : list Z) : Prop :=
  length cell' = length cell ∧
  (∀ k x, k < 2 → cell !! k = Some x → cell' !! k = Some (flip x)) ∧
  (∀ k, 2 ≤ k → cell' !! k = cell !! k).

(** The relabelling of the frequency column. *)
Definition relabel (g : Genotypes) : Genotypes :=
  set_variants
    (mk_recarray (map (λ x, if String.eqb x "aaf" then "maf" else x) (names (variants g)))
       (rows (variants g))) g.

(** Whether a record passes the identifier filter. *)
Definition wanted (variants_ : option (gset string)) (i : string) : bool :=
  match variants_ with
  | None => true
  | Some vs => bool_decide (i ∈ vs)
  end.

(** The bound [read] works with. *)
Definition bound_of (variants_ : option (gset string)) (max_variants : option nat)
    : option nat :=
  match variants_ with
  | Some vs => Some (size vs)
  | None => max_variants
  end.

(** The methods and calls the consistency invariant is stated over. *)
Inductive call :=
| CheckMissing (discard_also : bool)
| CheckBiallelic (discard_also : bool)
| CheckPhase
| ToMAC
| Subset (samples_ variants_ : option (list string)) (inplace : bool).



(** The state [check_missing] leaves when it discards the rows [idx]. *)
Definition discard_samples (a : ndarray) (idx : list nat) (g : Genotypes) : Genotypes :=
  set_samp_idx None (set_samples (delete (samples g) idx) (set_data (delete_axis0 a idx) g)).

(** The state [check_biallelic] leaves when it discards the columns [idx],
    before the tensor is narrowed. *)
Definition discard_variants (a : ndarray) (idx : list nat) (g : Genotypes) : Genotypes :=
  set_var_idx None
    (set_variants (mk_recarray (names (variants g)) (delete (rows (variants g)) idx))
       (set_data (delete_axis1 a idx) g)).

(** The state [to_MAC] leaves when it converts. *)
Definition converted (a : ndarray) (g : Genotypes) : Genotypes :=
  relabel
    (set_variants
       (mk_recarray (names (variants g))
          (map (λ v, if exceeds_half v then complement_aaf v else v) (rows (variants g))))
       (set_data (flip_columns (map exceeds_half (rows (variants g))) a) g)).

(** ** Concrete instances

    Two samples, two variants; the second sample misses its first allele at
    the second variant. *)
Definition ex_rows : list variant_row :=
  [mk_row "rs1" "1" 100 0.75%float None; mk_row "rs2" "1" 200 0.25%float None].

Definition ex_instance (a : ndarray) : Genotypes :=
  mk_Genotypes Genotypes_ ["s1"; "s2"] (mk_recarray (init_names Genotypes_) ex_rows)
    (Some a) false None None.

Definition ex_raw : ndarray :=
  mk_ndarray uint8 [2; 2; 3]
    [[[1; 1; 1]; [0; 1; 1]]; [[1; 0; 1]; [255; 0; 1]]]%Z.

Definition ex_bool : ndarray :=
  mk_ndarray bool_ [2; 2; 3]
    [[[1; 1; 1]; [0; 1; 1]]; [[1; 0; 1]; [0; 0; 1]]]%Z.

(** One sample, one variant. *)
Definition ex_single (a : ndarray) : Genotypes :=
  mk_Genotypes Genotypes_ ["s1"]
    (mk_recarray (init_names Genotypes_) [mk_row "rs1" "1" 100 0.75%float None])
    (Some a) false None None.

(** A count tensor that still holds a second alternate allele, phased. *)
Definition ex_multi : ndarray := mk_ndarray uint8 [1; 1; 3] [[[2; 0; 1]]]%Z.

(** A count tensor of one homozygous-alternate call, already without its
    phase channel. *)
Definition ex_counts : ndarray := mk_ndarray uint8 [1; 1; 2] [[[1; 1]]]%Z.

(** What [~] does to a value that fits the element type. *)
Definition flip_value (dt : dtype) (x : Z) : Z :=
  match dt with
  | uint8 => (255 - x)%Z
  | bool_ => (1 - x)%Z
  end.




(** The record [_iterate] yields for a VCF record, when its metadata and its
    block can be built. *)
Definition decoded (c : class_) (prephased : bool) (variant : Variant) : option Record_ :=
  match _variant_arr c variant, genotype_data prephased variant with
  | Return row, Return block => Some (mk_Record block row)
  | _, _ => None
  end.

(** What cyvcf2 delivers for a file of diploid calls with at least one
    sample: every record has one call per sample, made of two alleles and the
    phase flag. *)
Definition diploid (vcf : VCF) (region : option string) : Prop :=
  vcf_samples vcf ≠ [] ∧
  Forall (λ v, length (genotypes v) = length (vcf_samples vcf) ∧
               Forall (λ call : list Z, length call = 3) (genotypes v))
    (vcf_call vcf region).

(** The sources [Genotypes.read] is written for, as run by class [c]: [c]
    inherits [read] and [_iterate] from [Genotypes] ([GenotypesPLINK] overrides
    them), the calls are diploid, and every record has the alternate allele
    [GenotypesRefAlt] asks for. *)
Definition readable (c : class_) (vcf : VCF) (region : option string) : Prop :=
  c ≠ GenotypesPLINK_ ∧ diploid vcf region ∧
  (c = GenotypesRefAlt_ → Forall (λ v, ALT v ≠ []) (vcf_call vcf region)).

(** A VCF of two samples and three fully phased biallelic records; the first
    record has an alternate-allele frequency of 0.75. *)
Definition ex_variants : list Variant :=
  [mk_Variant "rs1" "1" 100 0.75%float "A" ["T"] [[1; 1; 1]; [0; 1; 1]]%Z;
   mk_Variant "rs2" "1" 200 0.25%float "C" ["G"] [[0; 0; 1]; [1; 0; 1]]%Z;
   mk_Variant "rs3" "1" 300 0.25%float "G" ["A"] [[0; 0; 1]; [0; 1; 1]]%Z].

Definition ex_vcf : VCF := mk_VCF ["s1"; "s2"] (λ _, ex_variants).

(** A PLINK trio with the same samples and variant ids, and a PVAR file in
    which the id "rs1" comes back after "rs2". *)
Definition ex_psam : PLINK.table :=
  PLINK.mk_table ["#IID"; "SEX"] [["s1"; "1"]; ["s2"; "2"]].

Definition ex_pvar : PLINK.table :=
  PLINK.mk_table ["#CHROM"; "POS"; "ID"; "REF"; "ALT"]
    [["1"; "100"; "rs1"; "A"; "T"]; ["1"; "200"; "rs2"; "C"; "G"];
     ["1"; "300"; "rs3"; "G"; "A"]].

Definition ex_pvar_repeat : PLINK.table :=
  PLINK.mk_table ["#CHROM"; "POS"; "ID"; "REF"; "ALT"]
    [["1"; "100"; "rs1"; "A"; "T"]; ["1"; "200"; "rs2"; "C"; "G"];
     ["1"; "300"; "rs1"; "G"; "A"]].

Definition ex_pgen : PLINK.PgenReader :=
  PLINK.mk_PgenReader 3 (λ _, [1; 1; 0; 1]%Z) (λ _, [1; 1]%Z).

(** Whether a generator left its loop through [break]. *)
Fixpoint broke {A} (t : trace A) : bool :=
  match t with
  | Broke => true
  | Skipped rest => broke rest
  | Yielded _ rest => broke rest
  | _ => false
  end.

(** The instance [GenotypesPLINK.load] returns for the example trio. *)
Definition ex_plink_loaded : Genotypes :=
  mk_Genotypes GenotypesPLINK_ ["s1"; "s2"]
    (mk_recarray (init_names GenotypesPLINK_)
       [mk_row "rs1" "1" 100 0.5%float (Some ("A", "T"));
        mk_row "rs2" "1" 200 0.5%float (Some ("C", "G"));
        mk_row "rs3" "1" 300 0.5%float (Some ("G", "A"))])
    (Some (mk_ndarray bool_ [2; 3; 2]
             [[[1; 1]; [1; 1]; [1; 1]]; [[0; 1]; [0; 1]; [0; 1]]]%Z))
    false None None.

(** The instance [Genotypes.load] returns for the example VCF. *)
Definition ex_loaded : Genotypes :=
  mk_Genotypes Genotypes_ ["s1"; "s2"]
    (mk_recarray (init_names Genotypes_)
       [mk_row "rs1" "1" 100 0.75%float None; mk_row "rs2" "1" 200 0.25%float None;
        mk_row "rs3" "1" 300 0.25%float None])
    (Some (mk_ndarray bool_ [2; 3; 2]
             [[[1; 1]; [0; 0]; [0; 0]]; [[0; 1]; [1; 0]; [0; 1]]]%Z))
    false None None.

(** A record without an alternate allele, as cyvcf2 decodes a monomorphic
    site. *)
Definition ex_monomorphic : Variant :=
  mk_Variant "rs9" "1" 400 0%float "A" [] [[0; 0; 1]; [0; 0; 1]]%Z.

Definition ex_vcf_monomorphic : VCF :=
  mk_VCF ["s1"; "s2"] (λ _, ex_variants ++ [ex_monomorphic]).

(** A source in which the identifier "rs1" comes back after "rs2". *)
Definition ex_vcf_repeat : VCF :=
  mk_VCF ["s1"; "s2"]
    (λ _, [mk_Variant "rs1" "1" 100 0.75%float "A" ["T"] [[1; 1; 1]; [0; 1; 1]]%Z;
           mk_Variant "rs2" "1" 200 0.25%float "C" ["G"] [[0; 0; 1]; [1; 0; 1]]%Z;
           mk_Variant "rs1" "1" 300 0.25%float "G" ["A"] [[0; 0; 1]; [0; 1; 1]]%Z]).

(** A file without records. *)
Definition ex_vcf_empty : VCF := mk_VCF ["s1"; "s2"] (λ _, []).

(** A genotype [load] lets through: each of the two alleles is the reference
    (0) or the first alternate allele (1), and a heterozygous call carries a
    phase flag. *)
Definition valid_call (raw : list Z) : Prop :=
  Forall (λ x, x = 0 ∨ x = 1)%Z (take 2 raw) ∧
  (nth 0 raw 0 ≠ nth 1 raw 0 → nth 2 raw 0 ≠ 0)%Z.

(** A file whose second sample misses an allele at the first record, as
    cyvcf2 reports it. *)
Definition ex_vcf_missing : VCF :=
  mk_VCF ["s1"; "s2"]
    (λ _, [mk_Variant "rs1" "1" 100 0.75%float "A" ["T"] [[1; 1; 1]; [-1; 1; 1]]%Z;
           mk_Variant "rs2" "1" 200 0.25%float "C" ["G"] [[0; 0; 1]; [1; 0; 1]]%Z]).

(** A record whose block has the shape of the slot [read] preallocates. *)
Definition fits_slot (nsamp nchan : nat) (rec : Record_) : Prop :=
  length (rec_data rec) = nsamp ∧ Forall (λ row, length row = nchan) (rec_data rec).

(** A file without samples: cyvcf2 reports no call for its records. *)
Definition ex_vcf_sites : VCF :=
  mk_VCF []
    (λ _, [mk_Variant "rs1" "1" 100 0.75%float "A" ["T"] [];
           mk_Variant "rs2" "1" 200 0.25%float "C" ["G"] [];
           mk_Variant "rs3" "1" 300 0.25%float "G" ["A"] []]).

(** The states the validation stages are meant to work on: a loaded tensor
    that is a proper array, aligned with the sample list and the variant
    table.  Nothing is asked of the indexes. *)
Definition aligned (g : Genotypes) : Prop :=
  ∃ a, data g = Some a ∧ regular a ∧ in_range a ∧
       dim 0 a = length (samples g) ∧ dim 1 a = length (rows (variants g)).

(** The same instance without its indexes. *)
Definition forget_indexes (g : Genotypes) : Genotypes :=
  set_var_idx None (set_samp_idx None g).





(** A file whose only call carries the second alternate allele, phased; and
    a file whose only call is homozygous for the alternate allele of a variant
    of frequency 0.75. *)
Definition ex_vcf_multi : VCF :=
  mk_VCF ["s1"]
    (λ _, [mk_Variant "rs1" "1" 100 0.75%float "A" ["T"; "G"] [[2; 0; 1]]%Z]).

Definition ex_vcf_hom : VCF :=
  mk_VCF ["s1"] (λ _, [mk_Variant "rs1" "1" 100 0.75%float "A" ["T"] [[1; 1; 1]]%Z]).

Definition ex_hom : ndarray := mk_ndarray uint8 [1; 1; 3] [[[1; 1; 1]]]%Z.

(** One of the two alleles of sample [i] at variant [j] is above 1. *)
Definition multiallelic_at (a : ndarray) (i j : nat) : Prop :=
  ∃ cell, cell_at a i j = Some cell ∧ Exists (λ x, 1 < x)%Z (take 2 cell).

(** Some sample is multiallelic at variant [j]. *)
Definition multiallelic_column (a : ndarray) (j : nat) : bool :=
  existsb
    (λ row, from_option (λ cell, existsb (λ x, (1 <? x)%Z) (take 2 cell)) false (row !! j))
    (cells a).

(** The entries of [l] whose position passes [keep], in order. *)
Definition at_positions {A} (keep : nat → bool) (l : list A) : list A :=
  (List.filter (λ p : nat * A, keep p.1) (zip (seq 0 (length l)) l)).*2.

(** Two samples, three variants of counts: both samples carry a second
    alternate allele at the second variant. *)
Definition ex_two_multi : ndarray :=
  mk_ndarray uint8 [2; 3; 3]
    [[[0; 1; 1]; [2; 0; 1]; [0; 0; 1]]; [[1; 1; 1]; [0; 2; 1]; [1; 0; 1]]]%Z.

Definition ex_three : Genotypes :=
  mk_Genotypes Genotypes_ ["s1"; "s2"]
    (mk_recarray (init_names Genotypes_)
       [mk_row "rs1" "1" 100 0.75%float None; mk_row "rs2" "1" 200 0.25%float None;
        mk_row "rs3" "1" 300 0.25%float None])
    (Some ex_two_multi) false None None.

(** ** Boolean masks, [np.nonzero] and [np.delete] *)

Section masks.

Implicit Types (m : list (list bool)) (row : list bool).

Lemma true_positions_none row j0 :
  existsb (λ b, b) row = false → true_positions j0 row = [].
Proof.
  revert j0. induction row as [|b row IH]; intros j0; simpl; [done|].
  destruct b; simpl; [done|]. apply IH.
Qed.

Lemma true_positions_first row j0 :
  existsb (λ b, b) row = true →
  ∃ k rest, true_positions j0 row = (j0 + k) :: rest ∧ row !! k = Some true ∧
            ∀ k', k' < k → row !! k' ≠ Some true.
Proof.
  revert j0. induction row as [|b row IH]; intros j0; simpl; [done|].
  destruct b; simpl.
  - intros _. exists 0, (true_positions (S j0) row).
    split_and!; [f_equal; lia|done|lia].
  - intros H. destruct (IH (S j0) H) as (k & rest & -> & Hk & Hmin).
    exists (S k), rest. split_and!; [f_equal; lia|done|].
    intros [|k'] Hlt; simpl; [done|]. apply Hmin. lia.
Qed.

Lemma any2_false m i j : any2 m = false → entry m i j ≠ Some true.
Proof.
  unfold any2, entry. revert i. induction m as [|row m IH]; intros i; simpl.
  - by destruct i.
  - rewrite orb_false_iff. intros [Hrow Hm]. destruct i as [|i]; simpl.
    + clear -Hrow. revert j. induction row as [|b row IH]; intros j; [by destruct j|].
      simpl in Hrow. apply orb_false_iff in Hrow as [-> Hrow].
      destruct j; simpl; [done|]. by apply IH.
    + by apply IH.
Qed.

Lemma nonzero_from_none m i0 : any2 m = false → nonzero_from i0 m = [].
Proof.
  unfold any2. revert i0. induction m as [|row m IH]; intros i0; simpl; [done|].
  rewrite orb_false_iff. intros [Hrow Hm].
  by rewrite (true_positions_none _ _ Hrow), (IH _ Hm).
Qed.

Lemma nonzero_from_first m i0 :
  any2 m = true →
  ∃ i j rest, nonzero_from i0 m = (i0 + i, j) :: rest ∧
              first_pair (λ i j, entry m i j = Some true) i j.
Proof.
  unfold any2. revert i0. induction m as [|row m IH]; intros i0; simpl; [done|].
  destruct (existsb (λ b, b) row) eqn:Hrow; simpl.
  - intros _. destruct (true_positions_first row 0 Hrow) as (k & rest & -> & Hk & Hmin).
    exists 0, k. eexists. split.
    + simpl. f_equal. f_equal; lia.
    + split; [done|]. intros [|i'] j' H; [|lia]. right. split; [done|].
      unfold entry in H. simpl in H.
      destruct (decide (j' < k)) as [Hlt|]; [|lia]. by destruct (Hmin _ Hlt).
  - intros Hm. destruct (IH (S i0) Hm) as (i & j & rest & Heq & Hij & Hmin).
    rewrite (true_positions_none _ _ Hrow). simpl.
    exists (S i), j, rest. split; [rewrite Heq; do 2 f_equal; lia|].
    split; [done|]. intros [|i'] j' H.
    + exfalso. unfold entry in H. simpl in H.
      assert (any2 [row] = false) as Hn by (unfold any2; simpl; by rewrite Hrow).
      by apply (any2_false [row] 0 j').
    + destruct (Hmin i' j' H); lia.
Qed.

Lemma any2_true m i j : entry m i j = Some true → any2 m = true.
Proof.
  intros H. destruct (any2 m) eqn:Hm; [done|]. by apply any2_false with (i := i) (j := j) in Hm.
Qed.

Lemma first_pair_unique (P : nat → nat → Prop) i j i' j' :
  first_pair P i j → first_pair P i' j' → i = i' ∧ j = j'.
Proof.
  intros [H1 Hmin1] [H2 Hmin2].
  destruct (Hmin1 _ _ H2), (Hmin2 _ _ H1); lia.
Qed.

Lemma first_pair_iff (P Q : nat → nat → Prop) i j :
  (∀ i j, P i j ↔ Q i j) → first_pair P i j → first_pair Q i j.
Proof.
  intros HPQ [H Hmin]. split; [by apply HPQ|]. intros i' j' H'. apply Hmin. by apply HPQ.
Qed.

(** The entry of a mask computed cell by cell. *)
Lemma entry_map (f : list Z → bool) (cs : list (list (list Z))) i j :
  entry (map (map f) cs) i j = f <$> (cs !! i ≫= (.!! j)).
Proof.
  unfold entry. rewrite list_lookup_fmap.
  destruct (cs !! i) as [row|]; simpl; [|done]. by rewrite list_lookup_fmap.
Qed.

End masks.

Section delete.

Context {A : Type}.
Implicit Types (l : list A) (idx : list nat).

Lemma delete_from_length_eq {B} l (k : list B) i idx :
  length l = length k → length (delete_from i idx l) = length (delete_from i idx k).
Proof.
  revert k i. induction l as [|x l IH]; intros [|y k] i Hlen; simplify_eq/=; [done|].
  case_bool_decide; simpl; by rewrite (IH k).
Qed.

Lemma delete_length_seq l idx :
  length (delete l idx) = length (delete (seq 0 (length l)) idx).
Proof. apply delete_from_length_eq. by rewrite length_seq. Qed.

Lemma Forall_delete_from (P : A → Prop) l i idx :
  Forall P l → Forall P (delete_from i idx l).
Proof.
  intros H. revert i. induction H as [|x l Hx Hl IH]; intros i; simpl; [done|].
  case_bool_decide; [apply IH|constructor; [done|apply IH]].
Qed.

Lemma delete_from_zip {B} l (k : list B) i idx :
  delete_from i idx (zip l k) = zip (delete_from i idx l) (delete_from i idx k).
Proof.
  revert k i. induction l as [|x l IH]; intros [|y k] i; simpl; try done.
  - case_bool_decide; simpl; by destruct (delete_from (S i) idx l).
  - case_bool_decide; simpl; by rewrite IH.
Qed.

(** Deleting the listed positions is filtering, when being listed is a
    property of the entry. *)
Lemma delete_from_filter (gone : A → bool) l i idx :
  (∀ k x, l !! k = Some x → i + k ∈ idx ↔ gone x = true) →
  delete_from i idx l = List.filter (λ x, negb (gone x)) l.
Proof.
  revert i. induction l as [|x l IH]; intros i H; simpl; [done|].
  pose proof (H 0 x eq_refl) as H0. rewrite Nat.add_0_r in H0.
  rewrite IH; last first.
  { intros k y Hk. rewrite <- (H (S k) y Hk). by rewrite Nat.add_succ_r. }
  case_bool_decide as Hi.
  - apply H0 in Hi. by rewrite Hi.
  - destruct (gone x) eqn:Hx; [|done]. destruct Hi. by apply H0.
Qed.

End delete.

Lemma elem_of_true_positions (row : list bool) j0 j :
  j ∈ true_positions j0 row ↔ ∃ k, j = j0 + k ∧ row !! k = Some true.
Proof.
  revert j0. induction row as [|b row IH]; intros j0; simpl.
  - split; [by intros ?%elem_of_nil|by intros (k & _ & ?)].
  - assert (j ∈ true_positions (S j0) row ↔ ∃ k, j = j0 + S k ∧ row !! k = Some true) as IH'.
    { rewrite IH. split; intros (k & -> & ?); exists k; split; auto; lia. }
    destruct b.
    + rewrite elem_of_cons, IH'. split.
      * intros [->|(k & -> & ?)]; [exists 0; split; [lia|done]|by exists (S k)].
      * intros ([|k] & -> & Hk); [left; lia|right; by exists k].
    + rewrite IH'. split.
      * intros (k & -> & ?). by exists (S k).
      * intros ([|k] & -> & Hk); [done|by exists k].
Qed.

Lemma true_positions_nonempty (row : list bool) j0 :
  (∃ j, j ∈ true_positions j0 row) ↔ existsb (λ b, b) row = true.
Proof.
  split.
  - intros [j Hj]. destruct (existsb (λ b, b) row) eqn:H; [done|].
    rewrite (true_positions_none _ _ H) in Hj. by apply elem_of_nil in Hj.
  - intros H. destruct (true_positions_first row j0 H) as (k & rest & -> & _).
    eexists. apply list_elem_of_here.
Qed.

(** The rows [np.nonzero] reports are the rows with a true entry. *)
Lemma elem_of_nonzero_rows (m : list (list bool)) i0 i :
  i ∈ (nonzero_from i0 m).*1 ↔
  ∃ k row, i = i0 + k ∧ m !! k = Some row ∧ existsb (λ b, b) row = true.
Proof.
  revert i0. induction m as [|row m IH]; intros i0; simpl.
  - split; [by intros ?%elem_of_nil|by intros (k & ? & _ & ? & _)].
  - rewrite fmap_app, elem_of_app, IH. split.
    + intros [H|(k & r & -> & Hk & Hr)].
      * apply list_elem_of_fmap in H as ([i' j] & -> & H).
        apply list_elem_of_fmap in H as (j' & [= <- <-] & Hj).
        exists 0, row. split_and!; [simpl; lia|done|].
        apply (true_positions_nonempty row 0). by exists j.
      * exists (S k), r. split_and!; [lia|done..].
    + intros ([|k] & r & -> & Hk & Hr); simplify_eq/=.
      * left. apply (true_positions_nonempty r 0) in Hr as [j Hj].
        apply list_elem_of_fmap. exists (i0 + 0, j). split; [done|].
        apply list_elem_of_fmap. exists j. split; [f_equal; lia|done].
      * right. exists k, r. split_and!; [lia|done..].
Qed.

(** The columns [np.nonzero] reports are in range of the widest row. *)
Lemma elem_of_nonzero_cols (m : list (list bool)) i0 j :
  j ∈ (nonzero_from i0 m).*2 → ∃ i, entry m i j = Some true.
Proof.
  revert i0. induction m as [|row m IH]; intros i0; simpl.
  - by intros ?%elem_of_nil.
  - rewrite fmap_app, elem_of_app. intros [H|H].
    + apply list_elem_of_fmap in H as ([i' j'] & -> & H).
      apply list_elem_of_fmap in H as (j'' & [= <- <-] & Hj).
      apply elem_of_true_positions in Hj as (k & -> & Hk). by exists 0.
    + destruct (IH _ H) as [i Hi]. by exists (S i).
Qed.

(** ** Equations of the validation stages *)

Ltac munfold :=
  unfold mbind, M_bind, mret, M_ret, raise, emit, get, modify, or_raise, data3 in *.

Lemma first_offender_raises mk nz g :
  ∃ e, first_offender mk nz g = (Raise e, g, []).
Proof.
  unfold first_offender. munfold. simpl.
  destruct (nz.*2 !! 0) as [j|]; simpl; [|by eexists].
  destruct (rows (variants g) !! j) as [v|]; simpl; [|by eexists].
  destruct (nz.*1 !! 0) as [i|]; simpl; [|by eexists].
  destruct (samples g !! i) as [s|]; simpl; by eexists.
Qed.

Lemma first_offender_eq mk nz i j rest g v s :
  nz = (i, j) :: rest →
  rows (variants g) !! j = Some v →
  samples g !! i = Some s →
  first_offender mk nz g = (Raise (ValueError (mk (v_id v) (v_chrom v) (v_pos v) s)), g, []).
Proof.
  intros -> Hv Hs. unfold first_offender. munfold. simpl. by rewrite Hv, Hs.
Qed.

Lemma check_missing_eq g a d0 d1 d2 discard_also :
  data g = Some a → shape a = [d0; d1; d2] →
  check_missing discard_also g =
    if any2 (missing_mask a) then
      if discard_also then
        let idx := (nonzero (missing_mask a)).*1 in
        (Return tt, discard_samples a idx g,
         InfoIgnoringMissing (length idx) ::
         if length (delete (cells a) idx) =? 0 then [WarnAllSamplesDiscarded] else [])
      else first_offender MissingGenotype (nonzero (missing_mask a)) g
    else (Return tt, g, if discard_also && (d0 =? 0) then [WarnAllSamplesDiscarded] else []).
Proof.
  intros Hd Hs. unfold check_missing. munfold. rewrite Hd, Hs.
  destruct (any2 (missing_mask a)) eqn:Hany.
  - destruct discard_also; simpl.
    + rewrite Hs. simpl. unfold dim. simpl. by destruct (_ =? 0).
    + by destruct (first_offender_raises MissingGenotype (nonzero (missing_mask a)) g) as [e ->].
  - simpl. rewrite Hd, Hs. unfold dim. rewrite Hs. simpl.
    by destruct (discard_also && (d0 =? 0)).
Qed.

Lemma check_biallelic_eq g a d0 d1 d2 discard_also :
  data g = Some a → shape a = [d0; d1; d2] →
  check_biallelic discard_also g =
    if decide (nd_dtype a = bool_) then (Return tt, g, [WarnAlreadyBiallelic])
    else if any2 (multiallelic_mask a) then
      if discard_also then
        let idx := (nonzero (multiallelic_mask a)).*2 in
        let a' := delete_axis1 a idx in
        (Return tt, set_data (astype_bool_array a') (discard_variants a idx g),
         InfoIgnoringMultiallelic (length idx) ::
         if dim 1 a' =? 0 then [WarnAllVariantsDiscarded] else [])
      else first_offender MultiallelicVariant (nonzero (multiallelic_mask a)) g
    else (Return tt, set_data (astype_bool_array a) g,
          if discard_also && (d1 =? 0) then [WarnAllVariantsDiscarded] else []).
Proof.
  intros Hd Hs. unfold check_biallelic. munfold. simpl. rewrite Hd. simpl.
  destruct (decide (nd_dtype a = bool_)); [done|]. rewrite Hd, Hs.
  destruct (any2 (multiallelic_mask a)) eqn:Hany.
  - destruct discard_also; simpl.
    + unfold delete_axis1. rewrite Hs. simpl. unfold dim. simpl. by destruct (_ =? 0).
    + by destruct (first_offender_raises MultiallelicVariant
                     (nonzero (multiallelic_mask a)) g) as [e ->].
  - simpl. rewrite Hd, Hs. unfold dim. rewrite Hs. simpl.
    by destruct (discard_also && (d1 =? 0)).
Qed.

Lemma check_phase_eq g a d0 d1 d2 :
  data g = Some a → shape a = [d0; d1; d2] →
  check_phase g =
    if _prephased g || (d2 <? 3) then (Return tt, g, [WarnPhaseAlreadyRemoved])
    else if any2 (unphased_mask a) then
      first_offender UnphasedVariant (nonzero (unphased_mask a)) g
    else (Return tt, set_data (first_two_channels a) g, []).
Proof.
  intros Hd Hs. unfold check_phase. munfold. simpl.
  destruct (_prephased g); [done|]. rewrite Hd, Hs. unfold dim. rewrite Hs. simpl.
  destruct (d2 <? 3); [done|].
  destruct (any2 (unphased_mask a)); simpl; [|done].
  by destruct (first_offender_raises UnphasedVariant (nonzero (unphased_mask a)) g) as [e ->].
Qed.

Lemma to_MAC_eq g a d0 d1 d2 :
  data g = Some a → shape a = [d0; d1; d2] →
  names (variants g) !! 3 = Some "aaf" →
  d1 = length (rows (variants g)) →
  to_MAC g = (Return tt, converted a g, []).
Proof.
  intros Hd Hs Hn Hlen. unfold to_MAC. munfold. simpl. rewrite Hn. simpl.
  rewrite Hd, Hs. unfold dim. rewrite Hs. simpl. rewrite length_map, <- Hlen.
  by rewrite Nat.eqb_refl.
Qed.

Lemma to_MAC_maf g :
  names (variants g) !! 3 = Some "maf" →
  to_MAC g = (Return tt, g, [WarnAlreadyMinor]).
Proof. intros Hn. unfold to_MAC. munfold. simpl. by rewrite Hn. Qed.

(** ** Array operations keep arrays proper *)

Lemma regular_shape a :
  regular a → ∃ d0 d1 d2, shape a = [d0; d1; d2].
Proof. intros (d0 & d1 & d2 & ? & _). eauto. Qed.

Lemma regular_delete_axis0 a idx : regular a → regular (delete_axis0 a idx).
Proof.
  intros (d0 & d1 & d2 & Hs & Hl & Hc). unfold delete_axis0. rewrite Hs.
  exists (length (delete (cells a) idx)), d1, d2. simpl. split_and!; [done..|].
  by apply Forall_delete_from.
Qed.

Lemma in_range_delete_axis0 a idx : in_range a → in_range (delete_axis0 a idx).
Proof. unfold in_range, delete_axis0. simpl. apply Forall_delete_from. Qed.

Lemma regular_delete_axis1 a idx : regular a → regular (delete_axis1 a idx).
Proof.
  intros (d0 & d1 & d2 & Hs & Hl & Hc). unfold delete_axis1. rewrite Hs.
  exists d0, (length (delete (seq 0 d1) idx)), d2. simpl.
  split_and!; [done|by rewrite length_map|].
  apply Forall_fmap. eapply Forall_impl; [exact Hc|]. intros row [Hr Hrow]. simpl. split.
  - unfold delete. apply delete_from_length_eq. by rewrite length_seq.
  - by apply Forall_delete_from.
Qed.

Lemma in_range_delete_axis1 a idx : in_range a → in_range (delete_axis1 a idx).
Proof.
  unfold in_range, delete_axis1. intros H. destruct (shape a) as [|d0 [|d1 rest]]; try done.
  simpl. apply Forall_fmap. eapply Forall_impl; [exact H|]. intros row Hrow. simpl.
  by apply Forall_delete_from.
Qed.

Lemma regular_astype_bool a : regular a → regular (astype_bool_array a).
Proof.
  intros (d0 & d1 & d2 & Hs & Hl & Hc). exists d0, d1, d2. simpl.
  split_and!; [done|by rewrite length_map|].
  apply Forall_fmap. eapply Forall_impl; [exact Hc|]. intros row [Hr Hrow]. simpl.
  split; [by rewrite length_map|].
  apply Forall_fmap. eapply Forall_impl; [exact Hrow|]. intros cell Hcell. simpl.
  by rewrite length_map.
Qed.

Lemma astype_bool_binary x : astype_bool x = 0%Z ∨ astype_bool x = 1%Z.
Proof. unfold astype_bool. destruct (x =? 0)%Z; auto. Qed.

Lemma binary_astype_bool a : binary (astype_bool_array a).
Proof.
  unfold binary. simpl. apply Forall_fmap, Forall_true. intros row. simpl.
  apply Forall_fmap, Forall_true. intros cell. simpl.
  apply Forall_fmap, Forall_true. intros x. apply astype_bool_binary.
Qed.

Lemma in_range_astype_bool a : in_range (astype_bool_array a).
Proof. apply binary_astype_bool. Qed.

Lemma in_range_bool_binary a : nd_dtype a = bool_ → in_range a → binary a.
Proof. unfold in_range, binary. by intros ->. Qed.



Lemma length_map_masked {A} (f : A → A) mask (l : list A) :
  length (map_masked f mask l) = length l.
Proof.
  revert l. induction mask as [|b mask IH]; intros [|x l]; simpl; try done.
  by rewrite IH.
Qed.

Lemma Forall_map_masked {A} (P : A → Prop) (f : A → A) mask (l : list A) :
  (∀ x, P x → P (f x)) → Forall P l → Forall P (map_masked f mask l).
Proof.
  intros Hf H. revert mask. induction H as [|x l Hx Hl IH]; intros [|b mask]; simpl;
    try by constructor.
  constructor; [destruct b; auto|apply IH].
Qed.

Lemma lookup_map_masked {A} (f : A → A) (mask : list bool) (l : list A) (j : nat) (x : A) (b : bool) :
  l !! j = Some x → mask !! j = Some b →
  map_masked f mask l !! j = Some (if b then f x else x).
Proof.
  revert l j. induction mask as [|b' mask IH]; intros [|y l] [|j]; simpl; try done.
  - by intros [= ->] [= ->].
  - apply IH.
Qed.

Lemma map_masked_all_false {A} (f : A → A) (mask : list bool) (l : list A) :
  Forall (λ b, b = false) mask → map_masked f mask l = l.
Proof.
  intros H. revert l. induction H as [|b mask -> _ IH]; intros [|x l]; simpl; try done.
  by rewrite IH.
Qed.

Lemma length_flip_cell dt cell : length (flip_cell dt cell) = length cell.
Proof.
  unfold flip_cell. rewrite length_app, length_map, length_take, length_drop. lia.
Qed.

Lemma invert_fits dt x : fits dt x → fits dt (invert dt x).
Proof.
  destruct dt; simpl.
  - intros _. change 255%Z with (Z.ones 8). rewrite Z.land_ones by lia.
    apply Z.mod_pos_bound. lia.
  - intros [-> | ->]; auto.
Qed.

Lemma invert_uint8 x : (0 ≤ x < 256)%Z → invert uint8 x = (255 - x)%Z.
Proof.
  intros H. simpl.
  replace (Z.land (Z.lnot x) 255) with (Z.lnot x mod 2 ^ 8)%Z
    by (by rewrite <- Z.land_ones by lia).
  change (2 ^ 8)%Z with 256%Z. unfold Z.lnot.
  symmetry. apply (Z.mod_unique_pos _ _ (-1)%Z); lia.
Qed.

Lemma invert_bool x : x = 0%Z ∨ x = 1%Z → invert bool_ x = (1 - x)%Z.
Proof. by intros [-> | ->]. Qed.

Lemma regular_flip_columns mask a : regular a → regular (flip_columns mask a).
Proof.
  intros (d0 & d1 & d2 & Hs & Hl & Hc). exists d0, d1, d2. simpl.
  split_and!; [done|by rewrite length_map|].
  apply Forall_fmap. eapply Forall_impl; [exact Hc|]. intros row [Hr Hrow]. simpl.
  split; [by rewrite length_map_masked|].
  apply Forall_map_masked; [|done]. intros cell. by rewrite length_flip_cell.
Qed.

Lemma in_range_flip_columns mask a : in_range a → in_range (flip_columns mask a).
Proof.
  unfold in_range. simpl. intros H.
  apply Forall_fmap. eapply Forall_impl; [exact H|]. intros row Hrow. simpl.
  apply Forall_map_masked; [|done]. intros cell Hcell. unfold flip_cell.
  apply Forall_app. split.
  - apply Forall_fmap. eapply Forall_impl; [by apply Forall_take|].
    intros x. apply invert_fits.
  - by apply Forall_drop.
Qed.

(** ** Well-formed states *)

Lemma wf_inv g :
  wf g →
  ∃ a d0 d1 d2,
    data g = Some a ∧ shape a = [d0; d1; d2] ∧ length (cells a) = d0 ∧
    Forall (λ row, length row = d1 ∧ Forall (λ cell : list Z, length cell = d2) row)
      (cells a) ∧
    in_range a ∧ d0 = length (samples g) ∧ d1 = length (rows (variants g)) ∧
    caches_valid g.
Proof.
  intros (a & Hd & (d0 & d1 & d2 & Hs & Hl & Hc) & Hin & H0 & H1 & Hcv).
  unfold dim in *. rewrite Hs in *. simpl in *. exists a, d0, d1, d2. by split_and!.
Qed.


Lemma cell_at_Some a i j cell :
  cell_at a i j = Some cell ↔ ∃ row, cells a !! i = Some row ∧ row !! j = Some cell.
Proof.
  unfold cell_at. destruct (cells a !! i) as [row|]; simpl.
  - split; [by exists row|by intros (? & [= <-] & ?)].
  - split; [done|by intros (? & ? & _)].
Qed.

(** A cell that exists lies within the sample list and the variant table. *)
Lemma cell_at_in_range g a i j cell :
  wf g → data g = Some a → cell_at a i j = Some cell →
  ∃ v s, rows (variants g) !! j = Some v ∧ samples g !! i = Some s.
Proof.
  intros (a' & d0 & d1 & d2 & Hd & Hs & Hl & Hc & _ & H0 & H1 & _)%wf_inv Hd'.
  simplify_eq. intros (row & Hi & Hj)%cell_at_Some.
  destruct (Forall_lookup_1 _ _ _ _ Hc Hi) as [Hrow _].
  apply lookup_lt_Some in Hi, Hj.
  destruct (lookup_lt_is_Some_2 (rows (variants g)) j) as [v Hv]; [lia|].
  destruct (lookup_lt_is_Some_2 (samples g) i) as [s Hsamp]; [lia|].
  by exists v, s.
Qed.

Lemma wf_set_data g a a' :
  wf g → data g = Some a → regular a' → in_range a' →
  dim 0 a' = dim 0 a → dim 1 a' = dim 1 a → wf (set_data a' g).
Proof.
  intros (a0 & Hd & _ & _ & H0 & H1 & Hcv) Hd' Hr Hin E0 E1. simplify_eq.
  exists a'. simpl. split_and!; [done..|congruence|congruence|done].
Qed.

Lemma wf_discard_samples g a idx :
  wf g → data g = Some a → wf (discard_samples a idx g).
Proof.
  intros Hwf Hd'. pose proof Hwf as (a' & Hd & Hr & Hin & _).
  destruct (wf_inv _ Hwf) as (a0 & d0 & d1 & d2 & ? & Hs & Hl & _ & _ & H0 & H1 & Hcv).
  simplify_eq.
  exists (delete_axis0 a idx). simpl.
  split_and!; [done|by apply regular_delete_axis0|by apply in_range_delete_axis0|..].
  - unfold dim. simpl. apply delete_from_length_eq. congruence.
  - unfold dim, delete_axis0. simpl. rewrite Hs. simpl. done.
  - destruct Hcv as [_ Hv]. split; [by left|done].
Qed.

Lemma wf_discard_variants g a idx :
  wf g → data g = Some a →
  wf (set_data (astype_bool_array (delete_axis1 a idx)) (discard_variants a idx g)).
Proof.
  intros Hwf Hd'. pose proof Hwf as (a' & Hd & Hr & Hin & _).
  destruct (wf_inv _ Hwf) as (a0 & d0 & d1 & d2 & ? & Hs & Hl & _ & _ & H0 & H1 & Hcv).
  simplify_eq.
  exists (astype_bool_array (delete_axis1 a idx)). simpl.
  split_and!; [done|by apply regular_astype_bool, regular_delete_axis1
              |apply in_range_astype_bool|..].
  - unfold dim, delete_axis1. rewrite Hs. done.
  - unfold dim, delete_axis1. rewrite Hs. simpl. unfold delete.
    apply delete_from_length_eq. by rewrite length_seq.
  - destruct Hcv as [Hsi _]. split; [done|by left].
Qed.

Lemma wf_converted g a :
  wf g → data g = Some a → wf (converted a g).
Proof.
  intros Hwf Hd'. pose proof Hwf as (a' & Hd & Hr & Hin & H0 & H1 & Hsi & Hvi).
  simplify_eq.
  exists (flip_columns (map exceeds_half (rows (variants g))) a). simpl.
  split_and!; [done|by apply regular_flip_columns|by apply in_range_flip_columns|done|..].
  - by rewrite length_map.
  - split; [done|]. simpl.
    replace (v_id <$> map (λ v, if exceeds_half v then complement_aaf v else v)
               (rows (variants g))) with (v_id <$> rows (variants g)); [done|].
    rewrite <- list_fmap_compose. apply list_fmap_ext. intros _ v _. simpl.
    by destruct (exceeds_half v).
Qed.

(** ** The missingness check *)

Lemma missing_cell_iff (cell : list Z) :
  existsb (λ x, (x =? uint8_max)%Z) (take 2 cell) = true ↔
  cell !! 0 = Some uint8_max ∨ cell !! 1 = Some uint8_max.
Proof.
  destruct cell as [|x [|y rest]]; simpl.
  - split; [done|by intros [|]].
  - rewrite orb_false_r, Z.eqb_eq. split; [intros ->; by left|by intros [[= ->]|]].
  - rewrite orb_false_r, orb_true_iff, !Z.eqb_eq.
    split; (intros [H|H]; [left|right]); congruence.
Qed.

Lemma missing_at_entry a i j :
  missing_at a i j ↔ entry (missing_mask a) i j = Some true.
Proof.
  unfold missing_at, missing_mask. rewrite entry_map. fold (cell_at a i j).
  destruct (cell_at a i j) as [cell|]; simpl.
  - split.
    + intros (c & [= <-] & H). f_equal. by apply missing_cell_iff.
    + intros [= H]. exists cell. split; [done|]. by apply missing_cell_iff.
  - split; [by intros (c & ? & _)|done].
Qed.

Lemma existsb_map {A B} (f : A → B) (p : B → bool) (l : list A) :
  existsb p (map f l) = existsb (λ x, p (f x)) l.
Proof. induction l as [|x l IH]; simpl; [done|]. by rewrite IH. Qed.

Lemma nonzero_missing_rows a k row :
  cells a !! k = Some row →
  k ∈ (nonzero (missing_mask a)).*1 ↔ row_missing row = true.
Proof.
  intros Hrow. unfold nonzero. rewrite elem_of_nonzero_rows. unfold missing_mask. split.
  - intros (k' & r & Hk' & Hr & Hex). simpl in Hk'. subst k'.
    rewrite list_lookup_fmap, Hrow in Hr. simplify_eq/=. by rewrite existsb_map in Hex.
  - intros Hex. exists k, (map (λ cell, existsb (λ x, (x =? uint8_max)%Z) (take 2 cell)) row).
    split_and!; [done|by rewrite list_lookup_fmap, Hrow|by rewrite existsb_map].
Qed.

(** The rows the discard mode deletes are the rows with a missing value. *)
Lemma delete_missing_rows a :
  delete (cells a) (nonzero (missing_mask a)).*1 =
  List.filter (λ row, negb (row_missing row)) (cells a).
Proof.
  unfold delete. apply delete_from_filter. intros k row Hk. simpl.
  by apply nonzero_missing_rows.
Qed.

Lemma delete_missing_samples {A} a (l : list A) :
  length l = length (cells a) →
  delete l (nonzero (missing_mask a)).*1 =
  (List.filter (λ p, negb (row_missing p.2)) (zip l (cells a))).*1.
Proof.
  intros Hlen. unfold delete.
  rewrite <- (delete_from_filter (λ p : A * list (list Z), row_missing p.2) _ 0
                (nonzero (missing_mask a)).*1).
  - rewrite delete_from_zip, fst_zip; [done|].
    by rewrite (delete_from_length_eq l (cells a)).
  - intros k [x row] Hk. simpl. apply nonzero_missing_rows.
    apply (f_equal (fmap snd)) in Hk. rewrite <- list_lookup_fmap in Hk.
    rewrite snd_zip in Hk by lia. done.
Qed.

Lemma filter_all {A} (p : A → bool) (l : list A) :
  Forall (λ x, p x = true) l → List.filter p l = l.
Proof. induction 1 as [|x l Hx _ IH]; simpl; [done|]. by rewrite Hx, IH. Qed.

Lemma no_missing_rows a :
  any2 (missing_mask a) = false →
  Forall (λ row, negb (row_missing row) = true) (cells a).
Proof.
  unfold any2, missing_mask, row_missing. induction (cells a) as [|row cs IH]; simpl;
    [done|].
  rewrite orb_false_iff, existsb_map. intros [Hrow H]. constructor; [|by apply IH].
  cbv beta in *. by rewrite Hrow.
Qed.

(** C5: on a well-formed instance, [check_missing] without discarding raises
    a [ValueError] that names the id, chromosome and position of the variant
    and the name of the sample of the first (sample, variant) pair one of whose
    first two channels holds 255, and leaves the instance as it was; with
    discarding it never raises, keeps exactly the sample rows without a missing
    value (tensor rows and sample names alike), sets the sample index to [None]
    when it removed something, and logs a warning when no sample row is left. *)
Theorem check_missing_spec g a :
  wf g → data g = Some a →
  ((∃ i j, missing_at a i j) →
   ∃ i j v s,
     first_pair (missing_at a) i j ∧
     rows (variants g) !! j = Some v ∧ samples g !! i = Some s ∧
     check_missing false g =
       (Raise (ValueError (MissingGenotype (v_id v) (v_chrom v) (v_pos v) s)), g, [])) ∧
  (∃ g' a' l,
     check_missing true g = (Return tt, g', l) ∧
     data g' = Some a' ∧
     cells a' = List.filter (λ row, negb (row_missing row)) (cells a) ∧
     samples g' =
       (List.filter (λ p, negb (row_missing p.2)) (zip (samples g) (cells a))).*1 ∧
     variants g' = variants g ∧ _var_idx g' = _var_idx g ∧
     ((∃ i j, missing_at a i j) → _samp_idx g' = None) ∧
     ((∀ i j, ¬ missing_at a i j) → g' = g) ∧
     (samples g' = [] → last l = Some WarnAllSamplesDiscarded) ∧
     wf g').
Proof.
  intros Hwf Hd.
  destruct (wf_inv _ Hwf) as (a0 & d0 & d1 & d2 & Hd0 & Hs & Hl & Hc & _ & H0 & H1 & Hcv).
  rewrite Hd in Hd0. injection Hd0 as <-. split.
  - intros (i & j & Hij). apply missing_at_entry, any2_true in Hij as Hany.
    destruct (nonzero_from_first _ 0 Hany) as (i1 & j1 & rest & Hnz & Hfirst).
    apply (first_pair_iff _ (missing_at a)) in Hfirst;
      [|intros; symmetry; apply missing_at_entry].
    destruct Hfirst as [(cell & Hcell & Hm) Hmin].
    destruct (cell_at_in_range _ _ _ _ _ Hwf Hd Hcell) as (v & s & Hv & Hsamp).
    exists i1, j1, v, s. split_and!; [split; [by exists cell|done]|done..|].
    rewrite (check_missing_eq _ _ _ _ _ _ Hd Hs), Hany.
    by apply (first_offender_eq _ _ i1 j1 rest).
  - rewrite (check_missing_eq _ _ _ _ _ _ Hd Hs).
    assert (length (samples g) = length (cells a)) as Hlen by congruence.
    destruct (any2 (missing_mask a)) eqn:Hany.
    + eexists _, _, _. split; [reflexivity|]. simpl.
      split_and!; [done|apply delete_missing_rows|by apply delete_missing_samples
                  |done..| | |by apply wf_discard_samples].
      * intros Hno. exfalso.
        destruct (nonzero_from_first _ 0 Hany) as (i & j & _ & _ & [Hij _]).
        by apply (Hno i j), missing_at_entry.
      * intros Hnil.
        assert (length (delete (cells a) (nonzero (missing_mask a)).*1) = 0) as ->.
        { unfold delete in *. rewrite (delete_from_length_eq _ (samples g)) by done.
          by rewrite Hnil. }
        done.
    + eexists g, a, _. split; [reflexivity|].
      pose proof (no_missing_rows _ Hany) as Hall.
      split_and!; [done| | |done|done| |done| |done].
      * by rewrite filter_all.
      * rewrite filter_all.
        -- rewrite fst_zip; [done|lia].
        -- apply Forall_forall. intros [x row] Hin. simpl.
           apply (Forall_forall _ _) with (x := row) in Hall; [done|].
           apply list_elem_of_fmap_2 with (f := snd) in Hin.
           rewrite snd_zip in Hin by lia. done.
      * intros (i & j & Hij). apply missing_at_entry in Hij.
        by apply any2_false with (i := i) (j := j) in Hany.
      * intros Hnil. rewrite H0, Hnil. done.
Qed.

Ltac solve_forall :=
  repeat match goal with |- Forall _ _ => constructor end; unfold fits; lia.

Ltac solve_wf a :=
  exists a; split_and!;
  [reflexivity
  |eexists _, _, _; split_and!; [reflexivity|reflexivity|simpl; repeat constructor]
  |unfold in_range; simpl; solve_forall
  |reflexivity|reflexivity
  |split; by left].

Lemma ex_raw_wf : wf (ex_instance ex_raw).
Proof. solve_wf ex_raw. Qed.

Lemma ex_bool_wf : wf (ex_instance ex_bool).
Proof. solve_wf ex_bool. Qed.

Lemma check_missing_spec_witness :
  ((∃ i j, missing_at ex_raw i j) →
   ∃ i j v s,
     first_pair (missing_at ex_raw) i j ∧
     rows (variants (ex_instance ex_raw)) !! j = Some v ∧
     samples (ex_instance ex_raw) !! i = Some s ∧
     check_missing false (ex_instance ex_raw) =
       (Raise (ValueError (MissingGenotype (v_id v) (v_chrom v) (v_pos v) s)),
        ex_instance ex_raw, [])) ∧
  (∃ g' a' l,
     check_missing true (ex_instance ex_raw) = (Return tt, g', l) ∧
     data g' = Some a' ∧
     cells a' = List.filter (λ row, negb (row_missing row)) (cells ex_raw) ∧
     samples g' =
       (List.filter (λ p, negb (row_missing p.2))
          (zip (samples (ex_instance ex_raw)) (cells ex_raw))).*1 ∧
     variants g' = variants (ex_instance ex_raw) ∧
     _var_idx g' = _var_idx (ex_instance ex_raw) ∧
     ((∃ i j, missing_at ex_raw i j) → _samp_idx g' = None) ∧
     ((∀ i j, ¬ missing_at ex_raw i j) → g' = ex_instance ex_raw) ∧
     (samples g' = [] → last l = Some WarnAllSamplesDiscarded) ∧
     wf g').
Proof. apply (check_missing_spec (ex_instance ex_raw) ex_raw ex_raw_wf eq_refl). Defined.

Example check_missing_raises :
  check_missing false (ex_instance ex_raw) =
    (Raise (ValueError (MissingGenotype "rs2" "1" 200 "s2")), ex_instance ex_raw, []).
Proof. reflexivity. Qed.

Example check_missing_discards :
  ∃ g', check_missing true (ex_instance ex_raw) = (Return tt, g', [InfoIgnoringMissing 1]) ∧
        samples g' = ["s1"] ∧ _samp_idx g' = None.
Proof. eexists. split; [reflexivity|done]. Qed.

(** ** The biallelic check *)

Lemma check_biallelic_bool g a discard_also :
  data g = Some a → nd_dtype a = bool_ →
  check_biallelic discard_also g = (Return tt, g, [WarnAlreadyBiallelic]).
Proof.
  intros Hd Hb. unfold check_biallelic. munfold. simpl. rewrite Hd. simpl.
  by destruct (decide (nd_dtype a = bool_)).
Qed.

Lemma check_biallelic_unset g discard_also :
  data g = None → ∃ e, check_biallelic discard_also g = (Raise e, g, []).
Proof.
  intros Hd. unfold check_biallelic. munfold. simpl. rewrite Hd. by eexists.
Qed.

Lemma check_biallelic_not_3d g a discard_also :
  data g = Some a → nd_dtype a ≠ bool_ →
  (∀ d0 d1 d2, shape a ≠ [d0; d1; d2]) →
  ∃ e, check_biallelic discard_also g = (Raise e, g, []).
Proof.
  intros Hd Hb Hs. unfold check_biallelic. munfold. simpl. rewrite Hd. simpl.
  destruct (decide (nd_dtype a = bool_)); [done|]. rewrite Hd.
  destruct (shape a) as [|d0 [|d1 [|d2 [|]]]]; try by eexists.
  by destruct (Hs d0 d1 d2).
Qed.

Lemma shape_3d_dec (a : ndarray) :
  (∃ d0 d1 d2, shape a = [d0; d1; d2]) ∨ (∀ d0 d1 d2, shape a ≠ [d0; d1; d2]).
Proof.
  destruct (shape a) as [|d0 [|d1 [|d2 [|]]]]; try by right.
  left. by exists d0, d1, d2.
Qed.

(** C3: whenever [check_biallelic] returns, with or without discarding, the
    tensor it leaves has element type [bool_] and every one of its elements is
    0 or 1; a second call, in either mode, changes nothing in the state
    (tensor, variant table and sample list included) and only logs a warning.
    The hypothesis is numpy's own invariant that the elements of an array fit
    its element type. *)
Theorem check_biallelic_spec g discard_also g' l :
  (∀ a, data g = Some a → in_range a) →
  check_biallelic discard_also g = (Return tt, g', l) →
  ∃ a', data g' = Some a' ∧ nd_dtype a' = bool_ ∧ binary a' ∧
        ∀ again, check_biallelic again g' = (Return tt, g', [WarnAlreadyBiallelic]).
Proof.
  intros Hin Hrun. destruct (data g) as [a|] eqn:Hd; last first.
  { destruct (check_biallelic_unset g discard_also Hd) as [e He]. congruence. }
  specialize (Hin a eq_refl).
  destruct (decide (nd_dtype a = bool_)) as [Hb|Hb].
  { rewrite (check_biallelic_bool _ _ _ Hd Hb) in Hrun. simplify_eq.
    exists a. split_and!; [done..|by apply in_range_bool_binary|].
    intros again. by apply (check_biallelic_bool _ a). }
  destruct (shape_3d_dec a) as [(d0 & d1 & d2 & Hs)|Hs]; last first.
  { destruct (check_biallelic_not_3d g a discard_also Hd Hb Hs) as [e He]. congruence. }
  rewrite (check_biallelic_eq _ _ _ _ _ _ Hd Hs) in Hrun.
  destruct (decide (nd_dtype a = bool_)); [done|].
  destruct (any2 (multiallelic_mask a)).
  - destruct discard_also.
    + simpl in Hrun. simplify_eq. eexists. split_and!; [reflexivity|done|apply binary_astype_bool|].
      intros again. by eapply check_biallelic_bool.
    + destruct (first_offender_raises MultiallelicVariant
                  (nonzero (multiallelic_mask a)) g) as [e He]. congruence.
  - simplify_eq. eexists. split_and!; [reflexivity|done|apply binary_astype_bool|].
    intros again. by eapply check_biallelic_bool.
Qed.

Lemma ex_raw_in_range a : data (ex_instance ex_raw) = Some a → in_range a.
Proof. intros [= <-]. unfold in_range. simpl. solve_forall. Qed.

Lemma check_biallelic_spec_witness :
  ∃ a', data (check_biallelic true (ex_instance ex_raw)).1.2 = Some a' ∧
        nd_dtype a' = bool_ ∧ binary a' ∧
        ∀ again, check_biallelic again (check_biallelic true (ex_instance ex_raw)).1.2 =
                   (Return tt, (check_biallelic true (ex_instance ex_raw)).1.2,
                    [WarnAlreadyBiallelic]).
Proof.
  apply (check_biallelic_spec (ex_instance ex_raw) true
           (check_biallelic true (ex_instance ex_raw)).1.2
           (check_biallelic true (ex_instance ex_raw)).2 ex_raw_in_range eq_refl).
Defined.

Example check_biallelic_discards :
  ∃ g' a', check_biallelic true (ex_instance ex_raw) =
             (Return tt, g', [InfoIgnoringMultiallelic 1]) ∧
           data g' = Some a' ∧ cells a' = [[[1; 1; 1]]; [[1; 0; 1]]]%Z ∧
           v_id <$> rows (variants g') = ["rs1"] ∧ _var_idx g' = None.
Proof. eexists _, _. split; [reflexivity|done]. Qed.

(** ** The phase check *)

Lemma unphased_cell_binary dt c0 c1 c2 rest :
  (c0 = 0 ∨ c0 = 1)%Z → (c1 = 0 ∨ c1 = 1)%Z → (c2 = 0 ∨ c2 = 1)%Z →
  negb (unphased_cell dt (c0 :: c1 :: c2 :: rest) =? 0)%Z = true ↔ c0 ≠ c1 ∧ c2 = 0%Z.
Proof.
  intros [-> | ->] [-> | ->] [-> | ->]; destruct dt; cbn; split; try done;
    try (intros [? ?]; done).
Qed.

Lemma binary_cell a i j cell :
  binary a → cell_at a i j = Some cell → Forall (λ x, x = 0 ∨ x = 1)%Z cell.
Proof.
  intros Hb (row & Hi & Hj)%cell_at_Some.
  pose proof (Forall_lookup_1 _ _ _ _ Hb Hi) as Hrow.
  by apply (Forall_lookup_1 _ _ _ _ Hrow Hj).
Qed.

Lemma regular_cell a d0 d1 d2 i j cell :
  regular a → shape a = [d0; d1; d2] → cell_at a i j = Some cell → length cell = d2.
Proof.
  intros (e0 & e1 & e2 & Hs & _ & Hc) Hs' (row & Hi & Hj)%cell_at_Some.
  rewrite Hs in Hs'. simplify_eq.
  destruct (Forall_lookup_1 _ _ _ _ Hc Hi) as [_ Hrow].
  by apply (Forall_lookup_1 _ _ _ _ Hrow Hj).
Qed.

Lemma unphased_het_entry a d0 d1 i j :
  regular a → shape a = [d0; d1; 3] → binary a →
  unphased_het_at a i j ↔ entry (unphased_mask a) i j = Some true.
Proof.
  intros Hr Hs Hb. unfold unphased_het_at, unphased_mask. rewrite entry_map.
  fold (cell_at a i j). destruct (cell_at a i j) as [cell|] eqn:Hcell; simpl; last first.
  { split; [by intros (? & ? & ? & ? & _)|done]. }
  pose proof (regular_cell _ _ _ _ _ _ _ Hr Hs Hcell) as Hlen.
  pose proof (binary_cell _ _ _ _ Hb Hcell) as Hbin.
  destruct cell as [|c0 [|c1 [|c2 [|]]]]; simplify_eq/=.
  apply Forall_cons in Hbin as [H0 Hbin]. apply Forall_cons in Hbin as [H1 Hbin].
  apply Forall_cons in Hbin as [H2 _].
  pose proof (unphased_cell_binary (nd_dtype a) c0 c1 c2 [] H0 H1 H2) as Hiff. split.
  - intros (c & x & y & [= <-] & [= <-] & [= <-] & Hne & [= ->]). f_equal. by apply Hiff.
  - intros [= H]. apply Hiff in H as [Hne ->]. by exists [c0; c1; 0%Z], c0, c1.
Qed.

Lemma cell_at_first_two_channels a d0 d1 d2 i j :
  shape a = [d0; d1; d2] →
  cell_at (first_two_channels a) i j = take 2 <$> cell_at a i j.
Proof.
  intros Hs. unfold cell_at, first_two_channels. rewrite Hs. simpl.
  rewrite list_lookup_fmap. destruct (cells a !! i) as [row|]; simpl; [|done].
  by rewrite list_lookup_fmap.
Qed.

(** On a well-formed instance a pre-phased flag or a tensor of fewer than 3
    channels makes [check_phase] return with the state untouched; on an
    instance that is not pre-phased, with 3 channels and only 0/1 values (as
    every boolean tensor has), it raises exactly when some genotype is
    heterozygous with a false phase flag, the error names the first such
    (sample, variant) pair in row-major order and the state is untouched;
    otherwise the tensor keeps its first two channels unchanged and has 2
    channels. *)
Theorem check_phase_spec g a :
  wf g → data g = Some a →
  (_prephased g = true ∨ dim 2 a < 3 →
   check_phase g = (Return tt, g, [WarnPhaseAlreadyRemoved])) ∧
  (_prephased g = false → dim 2 a = 3 → binary a →
   ((∃ i j, unphased_het_at a i j) →
    ∃ i j v s,
      first_pair (unphased_het_at a) i j ∧
      rows (variants g) !! j = Some v ∧ samples g !! i = Some s ∧
      check_phase g =
        (Raise (ValueError (UnphasedVariant (v_id v) (v_chrom v) (v_pos v) s)), g, [])) ∧
   ((∀ i j, ¬ unphased_het_at a i j) →
    ∃ a', check_phase g = (Return tt, set_data a' g, []) ∧
          shape a' = [dim 0 a; dim 1 a; 2] ∧ nd_dtype a' = nd_dtype a ∧
          ∀ i j, cell_at a' i j = take 2 <$> cell_at a i j) ∧
   ((∃ e, (check_phase g).1.1 = Raise e) ↔ ∃ i j, unphased_het_at a i j)).
Proof.
  intros Hwf Hd. pose proof Hwf as (a' & Hd' & Hr & _).
  rewrite Hd in Hd'. injection Hd' as <-.
  destruct (regular_shape _ Hr) as (d0 & d1 & d2 & Hs).
  pose proof (check_phase_eq _ _ _ _ _ Hd Hs) as Heq.
  unfold dim. rewrite Hs. simpl. split.
  - intros [Hp|Hlt].
    + by rewrite Heq, Hp.
    + apply Nat.ltb_lt in Hlt. rewrite Heq, Hlt. by rewrite orb_true_r.
  - intros Hp -> Hb. rewrite Hp in Heq. simpl in Heq.
    pose proof (unphased_het_entry a d0 d1) as Hentry.
    assert ((∃ i j, unphased_het_at a i j) →
            ∃ i j v s,
              first_pair (unphased_het_at a) i j ∧
              rows (variants g) !! j = Some v ∧ samples g !! i = Some s ∧
              check_phase g =
                (Raise (ValueError (UnphasedVariant (v_id v) (v_chrom v) (v_pos v) s)),
                 g, [])) as Hraise.
    { intros (i & j & Hij). apply Hentry, any2_true in Hij as Hany; [|done..].
      destruct (nonzero_from_first _ 0 Hany) as (i1 & j1 & rest & Hnz & Hfirst).
      apply (first_pair_iff _ (unphased_het_at a)) in Hfirst;
        [|intros; symmetry; by apply Hentry].
      pose proof Hfirst as [(cell & c0 & c1 & Hcell & _) _].
      destruct (cell_at_in_range _ _ _ _ _ Hwf Hd Hcell) as (v & s & Hv & Hsamp).
      exists i1, j1, v, s. split_and!; [done..|].
      rewrite Heq, Hany. by apply (first_offender_eq _ _ i1 j1 rest). }
    assert ((∀ i j, ¬ unphased_het_at a i j) →
            check_phase g = (Return tt, set_data (first_two_channels a) g, [])) as Hret.
    { intros Hno. rewrite Heq. destruct (any2 (unphased_mask a)) eqn:Hany; [|done].
      destruct (nonzero_from_first _ 0 Hany) as (i & j & _ & _ & [Hij _]).
      by destruct (Hno i j); apply Hentry. }
    split_and!; [done| |].
    + intros Hno. exists (first_two_channels a). split_and!; [by apply Hret|..].
      * unfold first_two_channels. by rewrite Hs.
      * unfold first_two_channels. by rewrite Hs.
      * intros i j. by apply (cell_at_first_two_channels _ d0 d1 3).
    + split.
      * intros [e He]. destruct (any2 (unphased_mask a)) eqn:Hany.
        -- destruct (nonzero_from_first _ 0 Hany) as (i & j & _ & _ & [Hij _]).
           exists i, j. by apply Hentry.
        -- rewrite Heq in He. done.
      * intros Hex. destruct (Hraise Hex) as (i & j & v & s & _ & _ & _ & ->). by eexists.
Qed.

Lemma ex_bool_binary : binary ex_bool.
Proof. unfold binary. simpl. solve_forall. Qed.

Lemma check_phase_spec_witness :
  (_prephased (ex_instance ex_bool) = true ∨ dim 2 ex_bool < 3 →
   check_phase (ex_instance ex_bool) =
     (Return tt, ex_instance ex_bool, [WarnPhaseAlreadyRemoved])) ∧
  (_prephased (ex_instance ex_bool) = false → dim 2 ex_bool = 3 → binary ex_bool →
   ((∃ i j, unphased_het_at ex_bool i j) →
    ∃ i j v s,
      first_pair (unphased_het_at ex_bool) i j ∧
      rows (variants (ex_instance ex_bool)) !! j = Some v ∧
      samples (ex_instance ex_bool) !! i = Some s ∧
      check_phase (ex_instance ex_bool) =
        (Raise (ValueError (UnphasedVariant (v_id v) (v_chrom v) (v_pos v) s)),
         ex_instance ex_bool, [])) ∧
   ((∀ i j, ¬ unphased_het_at ex_bool i j) →
    ∃ a', check_phase (ex_instance ex_bool) =
            (Return tt, set_data a' (ex_instance ex_bool), []) ∧
          shape a' = [dim 0 ex_bool; dim 1 ex_bool; 2] ∧
          nd_dtype a' = nd_dtype ex_bool ∧
          ∀ i j, cell_at a' i j = take 2 <$> cell_at ex_bool i j) ∧
   ((∃ e, (check_phase (ex_instance ex_bool)).1.1 = Raise e) ↔
    ∃ i j, unphased_het_at ex_bool i j)).
Proof. apply (check_phase_spec (ex_instance ex_bool) ex_bool ex_bool_wf eq_refl). Defined.

Example check_phase_drops_channel :
  check_phase (ex_instance ex_bool) =
    (Return tt,
     ex_instance (mk_ndarray bool_ [2; 2; 2] [[[1; 1]; [0; 1]]; [[1; 0]; [0; 0]]]%Z), []).
Proof. reflexivity. Qed.

Lemma ex_multi_wf : wf (ex_single ex_multi).
Proof. solve_wf ex_multi. Qed.

(** ** The minor-allele-count conversion *)

Lemma invert_flip_value dt x : fits dt x → invert dt x = flip_value dt x.
Proof. destruct dt; [apply invert_uint8|apply invert_bool]. Qed.

Lemma flip_cell_flipped dt cell :
  Forall (fits dt) cell → flipped (flip_value dt) cell (flip_cell dt cell).
Proof.
  intros Hfit. split_and!.
  - apply length_flip_cell.
  - intros k x Hk Hx. unfold flip_cell.
    rewrite lookup_app_l by (rewrite length_map, length_take; apply lookup_lt_Some in Hx; lia).
    rewrite list_lookup_fmap, lookup_take_lt by done. rewrite Hx. simpl. f_equal.
    apply invert_flip_value. by apply (Forall_lookup_1 _ _ _ _ Hfit Hx).
  - intros k Hk. unfold flip_cell.
    destruct (decide (k < length cell)) as [Hlt|Hge].
    + rewrite lookup_app_r by (rewrite length_map, length_take; lia).
      rewrite length_map, length_take, lookup_drop. f_equal. lia.
    + rewrite !lookup_ge_None_2; [done|lia|].
      rewrite length_app, length_map, length_take, length_drop. lia.
Qed.

Lemma cell_at_flip_columns (mask : list bool) a i j cell (b : bool) :
  cell_at a i j = Some cell → mask !! j = Some b →
  cell_at (flip_columns mask a) i j =
    Some (if b then flip_cell (nd_dtype a) cell else cell).
Proof.
  intros (row & Hi & Hj)%cell_at_Some Hb. unfold cell_at, flip_columns. simpl.
  rewrite list_lookup_fmap, Hi. simpl. by apply lookup_map_masked.
Qed.

(** On a well-formed instance whose frequency column is named "aaf",
    [to_MAC] returns without a log record; for exactly the variants
    whose stored frequency exceeds one half it replaces the frequency [f] by
    [1 - f] and the value [x] of both allele channels, for every sample, by
    [1 - x] when the tensor is boolean (presence and absence swapped) and by
    [255 - x] when it still holds 8-bit counts; the other channels, the other
    variants and all other fields stay as they are, and the column is renamed
    to "maf".  On an instance whose column is already named "maf" it changes
    nothing and logs a warning. *)
Theorem to_MAC_spec g a :
  wf g → data g = Some a →
  (names (variants g) !! 3 = Some "maf" →
   to_MAC g = (Return tt, g, [WarnAlreadyMinor])) ∧
  (names (variants g) !! 3 = Some "aaf" →
   ∃ g' a',
     to_MAC g = (Return tt, g', []) ∧ data g' = Some a' ∧
     names (variants g') !! 3 = Some "maf" ∧
     shape a' = shape a ∧ nd_dtype a' = nd_dtype a ∧
     samples g' = samples g ∧ _prephased g' = _prephased g ∧
     _samp_idx g' = _samp_idx g ∧ _var_idx g' = _var_idx g ∧
     (∀ j v, rows (variants g) !! j = Some v →
        rows (variants g') !! j = Some (if exceeds_half v then complement_aaf v else v)) ∧
     (∀ i j cell v, cell_at a i j = Some cell → rows (variants g) !! j = Some v →
        ∃ cell', cell_at a' i j = Some cell' ∧
                 if exceeds_half v then flipped (flip_value (nd_dtype a)) cell cell'
                 else cell' = cell) ∧
     wf g').
Proof.
  intros Hwf Hd. split; [apply to_MAC_maf|]. intros Hn.
  destruct (wf_inv _ Hwf) as (a0 & d0 & d1 & d2 & Hd0 & Hs & Hl & Hc & Hin & H0 & H1 & Hcv).
  rewrite Hd in Hd0. injection Hd0 as <-.
  exists (converted a g), (flip_columns (map exceeds_half (rows (variants g))) a).
  split_and!; try done.
  - by apply (to_MAC_eq _ _ d0 d1 d2).
  - simpl. by rewrite list_lookup_fmap, Hn.
  - intros j v Hv. simpl. by rewrite list_lookup_fmap, Hv.
  - intros i j cell v Hcell Hv. eexists. split.
    + apply cell_at_flip_columns; [done|]. by rewrite list_lookup_fmap, Hv.
    + simpl. destruct (exceeds_half v); [|done]. apply flip_cell_flipped.
      apply cell_at_Some in Hcell as (row & Hi & Hj).
      pose proof (Forall_lookup_1 _ _ _ _ Hin Hi) as Hrow.
      by apply (Forall_lookup_1 _ _ _ _ Hrow Hj).
  - by apply wf_converted.
Qed.

Lemma to_MAC_spec_witness :
  (names (variants (ex_instance ex_bool)) !! 3 = Some "maf" →
   to_MAC (ex_instance ex_bool) = (Return tt, ex_instance ex_bool, [WarnAlreadyMinor])) ∧
  (names (variants (ex_instance ex_bool)) !! 3 = Some "aaf" →
   ∃ g' a',
     to_MAC (ex_instance ex_bool) = (Return tt, g', []) ∧ data g' = Some a' ∧
     names (variants g') !! 3 = Some "maf" ∧
     shape a' = shape ex_bool ∧ nd_dtype a' = nd_dtype ex_bool ∧
     samples g' = samples (ex_instance ex_bool) ∧
     _prephased g' = _prephased (ex_instance ex_bool) ∧
     _samp_idx g' = _samp_idx (ex_instance ex_bool) ∧
     _var_idx g' = _var_idx (ex_instance ex_bool) ∧
     (∀ j v, rows (variants (ex_instance ex_bool)) !! j = Some v →
        rows (variants g') !! j = Some (if exceeds_half v then complement_aaf v else v)) ∧
     (∀ i j cell v,
        cell_at ex_bool i j = Some cell →
        rows (variants (ex_instance ex_bool)) !! j = Some v →
        ∃ cell', cell_at a' i j = Some cell' ∧
                 if exceeds_half v then flipped (flip_value (nd_dtype ex_bool)) cell cell'
                 else cell' = cell) ∧
     wf g').
Proof. apply (to_MAC_spec (ex_instance ex_bool) ex_bool ex_bool_wf eq_refl). Defined.

(** The first variant (frequency 0.75) is converted, the second (0.25) is not. *)
Example to_MAC_on_booleans :
  ∃ g', to_MAC (ex_instance ex_bool) = (Return tt, g', []) ∧
        names (variants g') = ["id"; "chrom"; "pos"; "maf"] ∧
        v_aaf <$> rows (variants g') = [0.25%float; 0.25%float] ∧
        cells <$> data g' = Some [[[0; 0; 1]; [0; 1; 1]]; [[0; 1; 1]; [0; 0; 1]]]%Z.
Proof. eexists. split; [reflexivity|done]. Qed.

Lemma ex_counts_wf : wf (ex_single ex_counts).
Proof. solve_wf ex_counts. Qed.

(** ** Indexes *)









(** ** Equations of [subset] *)

Lemma on_gts_copy f self gts :
  on_gts f (self, Some gts) = (Return tt, (self, Some (f gts)), []).
Proof. done. Qed.

Lemma on_gts_inplace f self :
  on_gts f (self, None) = (Return tt, (f self, None), []).
Proof. done. Qed.





(** ** Selecting rows and columns *)











(** ** The two stages of [subset] on the heap *)

Lemma ndarray_eta a : mk_ndarray (nd_dtype a) (shape a) (cells a) = a.
Proof. by destruct a. Qed.


Lemma recarray_eta t : mk_recarray (names t) (rows t) = t.
Proof. by destruct t. Qed.



(** ** [subset] as a whole *)








(** Two of three requested samples are present; the order is the requested
    one. *)
Example subset_mixed :
  ∃ out g',
    subset (Some ["s2"; "s9"; "s1"]) (Some ["rs2"]) false (ex_instance ex_bool) =
      (Return (Some out), g', [WarnFewerSamples 1 2]) ∧
    samples out = ["s2"; "s1"] ∧ v_id <$> rows (variants out) = ["rs2"] ∧
    data out = Some (mk_ndarray bool_ [2; 1; 3] [[[0; 0; 1]]; [[0; 1; 1]]]%Z).
Proof. eexists _, _. split; [vm_compute; reflexivity|done]. Qed.

(** ** Consistency of the tensor with the sample list and the variant table *)


Lemma wf_aligned g : wf g → aligned g.
Proof. intros (a & Hd & Hr & Hin & H0 & H1 & _). by exists a. Qed.


Lemma aligned_forget g : aligned g → wf (forget_indexes g).
Proof.
  intros (a & Hd & Hr & Hin & H0 & H1). exists a. simpl.
  split_and!; [done..|]. split; by left.
Qed.

Lemma aligned_ext g1 g2 :
  samples g1 = samples g2 → variants g1 = variants g2 → data g1 = data g2 →
  aligned g1 → aligned g2.
Proof.
  intros Hs Hv Hd (a & Hd1 & Hr & Hin & H0 & H1). exists a.
  split_and!; [congruence|done|done|congruence|congruence].
Qed.










(** ** Loading *)

Lemma bind_Return_inv {S A B} (c : M S A) (k : A → M S B) s b s2 l :
  (c ≫= k) s = (Return b, s2, l) →
  ∃ a s1 l1 l2, c s = (Return a, s1, l1) ∧ k a s1 = (Return b, s2, l2) ∧ l = l1 ++ l2.
Proof.
  unfold mbind, M_bind. destruct (c s) as [[[a|e] s1] l1] eqn:Hc; [|done].
  destruct (k a s1) as [[r s2'] l2] eqn:Hk. intros [= -> -> <-].
  exists a, s1, l1, l2. by rewrite Hk.
Qed.

Lemma first_offender_Return mk nz g r g' l :
  first_offender mk nz g = (r, g', l) → g' = g.
Proof. destruct (first_offender_raises mk nz g) as [e ->]. by intros [= _ <- _]. Qed.

Lemma check_missing_strict g g' l :
  check_missing false g = (Return tt, g', l) → g' = g.
Proof.
  destruct (data g) as [a|] eqn:Hd; last first.
  { unfold check_missing. munfold. by rewrite Hd. }
  destruct (shape_3d_dec a) as [(d0 & d1 & d2 & Hs)|Hs]; last first.
  { unfold check_missing. munfold. rewrite Hd.
    destruct (shape a) as [|d0 [|d1 [|d2 [|]]]]; try done. by destruct (Hs d0 d1 d2). }
  rewrite (check_missing_eq _ _ _ _ _ _ Hd Hs).
  destruct (any2 (missing_mask a)).
  - by intros ->%first_offender_Return.
  - by intros [= <- _].
Qed.

Lemma check_biallelic_strict g g' l :
  check_biallelic false g = (Return tt, g', l) →
  ∃ a, data g = Some a ∧ (g' = g ∨ g' = set_data (astype_bool_array a) g).
Proof.
  destruct (data g) as [a|] eqn:Hd; last first.
  { destruct (check_biallelic_unset g false Hd) as [e ->]. done. }
  intros Hrun. exists a. split; [done|].
  destruct (decide (nd_dtype a = bool_)) as [Hb|Hb].
  { rewrite (check_biallelic_bool _ _ _ Hd Hb) in Hrun. left. by injection Hrun. }
  destruct (shape_3d_dec a) as [(d0 & d1 & d2 & Hs)|Hs]; last first.
  { destruct (check_biallelic_not_3d g a false Hd Hb Hs) as [e He]. congruence. }
  rewrite (check_biallelic_eq _ _ _ _ _ _ Hd Hs) in Hrun.
  destruct (decide (nd_dtype a = bool_)); [done|].
  destruct (any2 (multiallelic_mask a)).
  - apply first_offender_Return in Hrun as ->. by left.
  - right. by injection Hrun.
Qed.

Lemma check_phase_Return g g' l :
  check_phase g = (Return tt, g', l) →
  g' = g ∨ ∃ a, data g = Some a ∧ g' = set_data (first_two_channels a) g.
Proof.
  destruct (_prephased g) eqn:Hp.
  { unfold check_phase. munfold. simpl. rewrite Hp. intros [= <- _]. by left. }
  destruct (data g) as [a|] eqn:Hd; last first.
  { unfold check_phase. munfold. simpl. by rewrite Hp, Hd. }
  destruct (shape_3d_dec a) as [(d0 & d1 & d2 & Hs)|Hs]; last first.
  { unfold check_phase. munfold. simpl. rewrite Hp, Hd.
    destruct (shape a) as [|d0 [|d1 [|d2 [|]]]]; try done. by destruct (Hs d0 d1 d2). }
  rewrite (check_phase_eq _ _ _ _ _ Hd Hs), Hp. simpl.
  destruct (d2 <? 3); [intros [= <- _]; by left|].
  destruct (any2 (unphased_mask a)).
  - intros ->%first_offender_Return. by left.
  - intros [= <- _]. right. by exists a.
Qed.

(** The three checks of [load], run one after the other without discarding,
    leave the sample list, the variant table, the flags and the indexes as
    they were. *)
Lemma checks_keep_table g g' l :
  (check_missing false;; check_biallelic false;; check_phase) g = (Return tt, g', l) →
  samples g' = samples g ∧ variants g' = variants g ∧ cls g' = cls g.
Proof.
  intros (u1 & g1 & l1 & l1' & H1 & Hrest & _)%bind_Return_inv.
  apply bind_Return_inv in Hrest as (u2 & g2 & l2 & l2' & H2 & H3 & _).
  destruct u1, u2.
  apply check_missing_strict in H1 as ->.
  apply check_biallelic_strict in H2 as (a & Hd & [->| ->]);
    apply check_phase_Return in H3 as [->|(a' & Hd' & ->)]; done.
Qed.

(** ** Blocks and slots *)

Lemma broadcast_to_same {A} (n : nat) (l : list A) :
  length l = n → broadcast_to n l = Some l.
Proof. intros <-. unfold broadcast_to. by rewrite Nat.eqb_refl. Qed.

Lemma store_block_fits nsamp nchan rec :
  fits_slot nsamp nchan rec → store_block nsamp nchan rec = Return rec.
Proof.
  intros [Hn Hrows]. unfold store_block.
  assert (mapM (broadcast_to nchan) (rec_data rec) = Some (rec_data rec)) as ->.
  { apply mapM_Some_2. apply Forall_Forall2_diag.
    eapply Forall_impl; [exact Hrows|]. intros row. apply broadcast_to_same. }
  simpl. rewrite (broadcast_to_same _ _ Hn). by destruct rec.
Qed.

Lemma fill_with_fits {A} (store : A → outcome A) m k (t : trace A) :
  Forall (λ a, store a = Return a) (emitted t) → fill_with store m k t = fill m k t.
Proof.
  revert k. induction t as [| |rest IH|a rest IH|e]; intros k; simpl; try done.
  - apply IH.
  - intros [Ha Hrest]%Forall_cons. rewrite Ha. by rewrite IH.
Qed.

Lemma stack_fits nsamp nchan (blocks : list (list (list Z))) :
  nsamp ≠ 0 → blocks ≠ [] →
  Forall (λ block, length block = nsamp ∧ Forall (λ row, length row = nchan) block) blocks →
  stack blocks = Return (mk_ndarray uint8 [length blocks; nsamp; nchan] blocks).
Proof.
  intros Hn Hne Hall.
  assert (Forall (λ block, block_shape block = [nsamp; nchan]) blocks) as Hshape.
  { eapply Forall_impl; [exact Hall|]. intros block [Hlen Hrows]. unfold block_shape.
    destruct block as [|row block]; simpl in *; [lia|].
    apply Forall_cons in Hrows as [-> _]. by rewrite Hlen. }
  destruct blocks as [|block blocks]; [done|]. unfold stack.
  apply Forall_cons in Hshape as [Hb Hbs]. rewrite Hb.
  rewrite (proj2 (forallb_forall _ _)); [done|].
  intros other Hin%list_elem_of_In. apply bool_decide_eq_true.
  by apply (proj1 (Forall_forall _ _) Hbs).
Qed.

Lemma length_counts prephased variant :
  length (counts prephased variant) = length (genotypes variant).
Proof. unfold counts. by rewrite length_map. Qed.

Lemma counts_width prephased variant :
  Forall (λ call : list Z, length call = 3) (genotypes variant) →
  Forall (λ row, length row = channels prephased) (counts prephased variant).
Proof.
  intros Hall. unfold counts. apply Forall_fmap. eapply Forall_impl; [exact Hall|].
  intros call Hcall. simpl. rewrite length_take, length_map, Hcall.
  unfold channels. destruct prephased; lia.
Qed.

(** The calls of a diploid record make up a block. *)
Lemma genotype_data_diploid prephased variant :
  genotypes variant ≠ [] →
  Forall (λ call : list Z, length call = 3) (genotypes variant) →
  genotype_data prephased variant = Return (counts prephased variant).
Proof.
  intros Hne Hall. unfold genotype_data.
  destruct (genotypes variant) as [|call calls]; [done|].
  apply Forall_cons in Hall as [Hcall Hcalls].
  rewrite (proj2 (forallb_forall _ _)); [done|].
  intros other Hin%list_elem_of_In. apply Nat.eqb_eq. rewrite Hcall.
  by apply (proj1 (Forall_forall _ _) Hcalls).
Qed.

Lemma genotype_data_Return prephased variant block :
  genotype_data prephased variant = Return block → block = counts prephased variant.
Proof.
  unfold genotype_data. destruct (genotypes variant) as [|call calls]; [done|].
  destruct (forallb _ _); [|done]. by intros [= <-].
Qed.

Lemma diploid_record vcf region prephased variant :
  diploid vcf region → variant ∈ vcf_call vcf region →
  genotype_data prephased variant = Return (counts prephased variant) ∧
  length (counts prephased variant) = length (vcf_samples vcf) ∧
  Forall (λ row, length row = channels prephased) (counts prephased variant).
Proof.
  intros [Hne Hall] Hin.
  destruct (proj1 (Forall_forall _ _) Hall _ Hin) as [Hlen Hcalls].
  split_and!.
  - apply genotype_data_diploid; [|done]. intros Hnil. rewrite Hnil in Hlen.
    by destruct (vcf_samples vcf).
  - by rewrite length_counts.
  - by apply counts_width.
Qed.

(** The record a readable source gives for one of its variants. *)
Lemma decoded_readable c vcf region prephased variant :
  readable c vcf region → variant ∈ vcf_call vcf region →
  ∃ row, _variant_arr c variant = Return row ∧
         decoded c prephased variant = Some (mk_Record (counts prephased variant) row).
Proof.
  intros (Hc & Hdip & Halt) Hin.
  destruct (diploid_record _ _ prephased _ Hdip Hin) as (Hdata & _).
  unfold decoded. rewrite Hdata.
  unfold _variant_arr. destruct c; [by eexists| |done].
  pose proof (proj1 (Forall_forall _ _) (Halt eq_refl) _ Hin) as Hv. simpl in Hv.
  destruct (ALT variant); [done|by eexists].
Qed.

Lemma decoded_Some c prephased variant rec :
  decoded c prephased variant = Some rec →
  _variant_arr c variant = Return (rec_variants rec) ∧
  genotype_data prephased variant = Return (rec_data rec) ∧
  rec_data rec = counts prephased variant.
Proof.
  unfold decoded. destruct (_variant_arr c variant) as [row|]; [|done].
  destruct (genotype_data prephased variant) as [block|] eqn:Hblock; [|done].
  intros [= <-]. simpl. split_and!; [done..|]. by apply genotype_data_Return.
Qed.

Lemma mapM_decoded_readable c vcf region prephased (src : list Variant) :
  readable c vcf region → src ⊆ vcf_call vcf region →
  ∃ recs, mapM (decoded c prephased) src = Some recs.
Proof.
  intros Hr Hsub. induction src as [|v src IH]; [by exists []|].
  destruct IH as [recs Hrecs]; [set_solver|].
  destruct (decoded_readable c vcf region prephased v Hr) as (row & _ & Hdec); [set_solver|].
  eexists. change (mapM ?f (?x :: ?l)) with (y ← f x; k ← mapM f l; mret (y :: k)).
  rewrite Hdec. simpl. by rewrite Hrecs.
Qed.

(** Every record the generator yields from a diploid source has the shape of
    the slot. *)
Lemma _iterate_from_fits c prephased variants_ k (src : list Variant) nsamp :
  nsamp ≠ 0 →
  Forall (λ v, length (genotypes v) = nsamp ∧
               Forall (λ call : list Z, length call = 3) (genotypes v)) src →
  Forall (fits_slot nsamp (channels prephased))
    (emitted (_iterate_from c prephased variants_ k src)).
Proof.
  intros Hn Hall. revert k. induction Hall as [|v src [Hlen Hcalls] _ IH]; intros k;
    cbn [_iterate_from]; [constructor|].
  assert (Forall (fits_slot nsamp (channels prephased))
            (emitted
               match _variant_arr c v with
               | Return variant_arr =>
                   match genotype_data prephased v with
                   | Return data =>
                       Yielded (mk_Record data variant_arr)
                         (_iterate_from c prephased variants_ (S k) src)
                   | Raise e => Failed e
                   end
               | Raise e => Failed e
               end)) as Hgo.
  { destruct (_variant_arr c v) as [row|e]; [|constructor].
    destruct (genotype_data prephased v) as [block|e] eqn:Hblock; [|constructor].
    apply genotype_data_Return in Hblock as ->. simpl. constructor; [|apply IH].
    split; simpl; [by rewrite length_counts|by apply counts_width]. }
  destruct variants_ as [vs|]; [|done].
  destruct (bool_decide (ID v ∉ vs)); [|done].
  destruct (size vs <=? k); simpl; [constructor|apply IH].
Qed.

Lemma _iterate_fits c prephased vcf region variants_ :
  diploid vcf region →
  Forall (fits_slot (length (vcf_samples vcf)) (channels prephased))
    (emitted (_iterate c prephased vcf region variants_)).
Proof.
  intros [Hne Hall]. apply _iterate_from_fits; [by destruct (vcf_samples vcf)|done].
Qed.

(** ** The two modes of [read] when the blocks have the shape of the slot *)

Lemma fill_Forall {A} (P : A → Prop) m k (t : trace A) l :
  fill m k t = Return l → Forall P (emitted t) → Forall P l.
Proof.
  revert k l. induction t as [| |rest IH|a rest IH|e]; intros k l; simpl.
  - intros [= <-] _. constructor.
  - intros [= <-] _. constructor.
  - apply IH.
  - destruct (m <=? k); [intros [= <-] _; constructor|].
    destruct (fill m (S k) rest) as [l'|e] eqn:Hl; [|done].
    intros [= <-] [Ha Hrest]%Forall_cons. constructor; [done|by eapply IH].
  - done.
Qed.

Lemma append_all_eq {A} (t : trace A) :
  append_all t =
    match failure t with
    | Some e => Raise e
    | None => Return (emitted t)
    end.
Proof.
  induction t as [| |rest IH|a rest IH|e]; simpl; try done.
  rewrite IH. by destruct (failure rest).
Qed.

Lemma read_bounded_fits vcf region variants_ max_variants g m :
  Forall (fits_slot (length (vcf_samples vcf)) (channels (_prephased g)))
    (emitted (_iterate (cls g) (_prephased g) vcf region variants_)) →
  bound_of variants_ max_variants = Some m →
  read vcf region variants_ max_variants g =
    let n := length (vcf_samples vcf) in
    match fill m 0 (_iterate (cls g) (_prephased g) vcf region variants_) with
    | Raise e => (Raise e, set_samples (vcf_samples vcf) g, [InfoLoadingFrom n])
    | Return recs =>
        (Return tt,
         set_data
           (mk_ndarray uint8 [n; length recs; channels (_prephased g)]
              (transpose n (rec_data <$> recs)))
           (set_variants (mk_recarray (names (variants g)) (rec_variants <$> recs))
              (set_samples (vcf_samples vcf) g)),
         [InfoLoadingFrom n] ++
         (if length recs <? m then [InfoRemovingPreallocated (m - length recs)] else []) ++
         (if bool_decide (0 ∈ [length recs; n; channels (_prephased g)])
          then [WarnFailedToLoad] else []) ++
         [InfoTransposing [length recs; n; channels (_prephased g)]])
    end.
Proof.
  intros Hfit Hb. unfold read. munfold. simpl. unfold bound_of in Hb. rewrite Hb. simpl.
  rewrite fill_with_fits; last first.
  { eapply Forall_impl; [exact Hfit|]. intros rec. apply store_block_fits. }
  destruct (fill m 0 _) as [recs|e]; simpl; [|done].
  destruct (length recs <? m); simpl; by destruct (bool_decide (0 ∈ _)).
Qed.

Lemma read_unbounded_fits vcf region g :
  Forall (fits_slot (length (vcf_samples vcf)) (channels (_prephased g)))
    (emitted (_iterate (cls g) (_prephased g) vcf region None)) →
  vcf_samples vcf ≠ [] →
  read vcf region None None g =
    let n := length (vcf_samples vcf) in
    let t := _iterate (cls g) (_prephased g) vcf region None in
    match failure t with
    | Some e =>
        (Raise e, set_samples (vcf_samples vcf) g, [WarnEverGrowingArray; InfoLoadingFrom n])
    | None =>
        let recs := emitted t in
        let table := mk_recarray (names (variants g)) (rec_variants <$> recs) in
        match recs with
        | [] =>
            (Raise (ValueError AxesDontMatch),
             set_data (mk_ndarray uint8 [0] [])
               (set_variants table (set_samples (vcf_samples vcf) g)),
             [WarnEverGrowingArray; InfoLoadingFrom n; InfoCopying 0; WarnFailedToLoad;
              InfoTransposing [0]])
        | _ =>
            (Return tt,
             set_data
               (mk_ndarray uint8 [n; length recs; channels (_prephased g)]
                  (transpose n (rec_data <$> recs)))
               (set_variants table (set_samples (vcf_samples vcf) g)),
             [WarnEverGrowingArray; InfoLoadingFrom n; InfoCopying (length recs)] ++
             (if bool_decide (0 ∈ [length recs; n; channels (_prephased g)])
              then [WarnFailedToLoad] else []) ++
             [InfoTransposing [length recs; n; channels (_prephased g)]])
        end
    end.
Proof.
  intros Hfit Hne.
  unfold read. munfold. cbn [cls _prephased samples variants set_samples].
  rewrite append_all_eq.
  destruct (failure _) as [e|]; [done|].
  destruct (emitted _) as [|rec recs] eqn:Hrecs; [done|].
  assert (stack (rec_data <$> rec :: recs) =
          Return (mk_ndarray uint8
                    [length (rec :: recs); length (vcf_samples vcf);
                     channels (_prephased g)] (rec_data <$> rec :: recs))) as Hstack.
  { rewrite (stack_fits (length (vcf_samples vcf)) (channels (_prephased g))).
    - by rewrite length_fmap.
    - by destruct (vcf_samples vcf).
    - done.
    - apply Forall_fmap. eapply Forall_impl; [exact Hfit|]. by intros r [? ?]. }
  rewrite Hstack. simpl. by destruct (bool_decide (0 ∈ _)).
Qed.

(** The unbounded mode on a source that yields no record. *)
Lemma read_unbounded_nothing vcf region g :
  vcf_call vcf region = [] →
  read vcf region None None g =
    (Raise (ValueError AxesDontMatch),
     set_data (mk_ndarray uint8 [0] [])
       (set_variants (mk_recarray (names (variants g)) [])
          (set_samples (vcf_samples vcf) g)),
     [WarnEverGrowingArray; InfoLoadingFrom (length (vcf_samples vcf)); InfoCopying 0;
      WarnFailedToLoad; InfoTransposing [0]]).
Proof.
  intros Hsrc. unfold read. munfold. cbn [cls _prephased samples variants set_samples].
  unfold _iterate. by rewrite Hsrc.
Qed.

Lemma read_bounded_eq vcf region variants_ max_variants g m :
  diploid vcf region →
  bound_of variants_ max_variants = Some m →
  read vcf region variants_ max_variants g =
    let n := length (vcf_samples vcf) in
    match fill m 0 (_iterate (cls g) (_prephased g) vcf region variants_) with
    | Raise e => (Raise e, set_samples (vcf_samples vcf) g, [InfoLoadingFrom n])
    | Return recs =>
        (Return tt,
         set_data
           (mk_ndarray uint8 [n; length recs; channels (_prephased g)]
              (transpose n (rec_data <$> recs)))
           (set_variants (mk_recarray (names (variants g)) (rec_variants <$> recs))
              (set_samples (vcf_samples vcf) g)),
         [InfoLoadingFrom n] ++
         (if length recs <? m then [InfoRemovingPreallocated (m - length recs)] else []) ++
         (if bool_decide (0 ∈ [length recs; n; channels (_prephased g)])
          then [WarnFailedToLoad] else []) ++
         [InfoTransposing [length recs; n; channels (_prephased g)]])
    end.
Proof. intros Hdip. apply read_bounded_fits. by apply _iterate_fits. Qed.

Lemma read_unbounded_eq vcf region g :
  diploid vcf region →
  read vcf region None None g =
    let n := length (vcf_samples vcf) in
    let t := _iterate (cls g) (_prephased g) vcf region None in
    match failure t with
    | Some e =>
        (Raise e, set_samples (vcf_samples vcf) g, [WarnEverGrowingArray; InfoLoadingFrom n])
    | None =>
        let recs := emitted t in
        let table := mk_recarray (names (variants g)) (rec_variants <$> recs) in
        match recs with
        | [] =>
            (Raise (ValueError AxesDontMatch),
             set_data (mk_ndarray uint8 [0] [])
               (set_variants table (set_samples (vcf_samples vcf) g)),
             [WarnEverGrowingArray; InfoLoadingFrom n; InfoCopying 0; WarnFailedToLoad;
              InfoTransposing [0]])
        | _ =>
            (Return tt,
             set_data
               (mk_ndarray uint8 [n; length recs; channels (_prephased g)]
                  (transpose n (rec_data <$> recs)))
               (set_variants table (set_samples (vcf_samples vcf) g)),
             [WarnEverGrowingArray; InfoLoadingFrom n; InfoCopying (length recs)] ++
             (if bool_decide (0 ∈ [length recs; n; channels (_prephased g)])
              then [WarnFailedToLoad] else []) ++
             [InfoTransposing [length recs; n; channels (_prephased g)]])
        end
    end.
Proof.
  intros Hdip. apply read_unbounded_fits; [by apply _iterate_fits|by destruct Hdip].
Qed.

(** ** Bounded reading *)

Lemma go_on_Some c prephased v rec (rest : trace Record_) :
  decoded c prephased v = Some rec →
  match _variant_arr c v with
  | Return variant_arr =>
      match genotype_data prephased v with
      | Return data => Yielded (mk_Record data variant_arr) rest
      | Raise e => Failed e
      end
  | Raise e => Failed e
  end = Yielded rec rest.
Proof.
  unfold decoded. destruct (_variant_arr c v); [|done].
  destruct (genotype_data prephased v); [|done]. by intros [= <-].
Qed.

Lemma go_on_None c prephased v (rest : trace Record_) :
  decoded c prephased v = None →
  ∃ e, match _variant_arr c v with
       | Return variant_arr =>
           match genotype_data prephased v with
           | Return data => Yielded (mk_Record data variant_arr) rest
           | Raise e => Failed e
           end
       | Raise e => Failed e
       end = Failed e.
Proof.
  unfold decoded. destruct (_variant_arr c v); [|by eexists].
  destruct (genotype_data prephased v); [done|by eexists].
Qed.

(** The bounded loop stores the first records that pass the identifier
    filter: the early exit of the generator comes only after the bound. *)
Lemma fill_iterate c prephased variants_ (m : nat) src :
  match variants_ with
  | Some vs => m ≤ size vs
  | None => True
  end →
  ∀ k recs,
    mapM (decoded c prephased) (List.filter (λ v, wanted variants_ (ID v)) src) = Some recs →
    fill m k (_iterate_from c prephased variants_ k src) = Return (take (m - k) recs).
Proof.
  intros Hm. induction src as [|v src IH]; intros k recs Hrecs.
  - simpl in *. injection Hrecs as <-. by rewrite take_nil.
  - cbn [List.filter] in Hrecs. cbn [_iterate_from].
    assert (wanted variants_ (ID v) = true →
            fill m k
              match _variant_arr c v with
              | Return variant_arr =>
                  match genotype_data prephased v with
                  | Return data =>
                      Yielded (mk_Record data variant_arr)
                        (_iterate_from c prephased variants_ (S k) src)
                  | Raise e => Failed e
                  end
              | Raise e => Failed e
              end = Return (take (m - k) recs)) as Hyield.
    { intros Hw. rewrite Hw in Hrecs.
      change (mapM ?f (?x :: ?l)) with (y ← f x; k ← mapM f l; mret (y :: k)) in Hrecs.
      destruct (decoded c prephased v) as [rec|] eqn:Hrec; [|done]. simpl in Hrecs.
      destruct (mapM _ _) as [recs'|] eqn:Hrecs'; [|done]. injection Hrecs as <-.
      rewrite (go_on_Some _ _ _ _ _ Hrec). simpl.
      destruct (m <=? k) eqn:Hle.
      - apply Nat.leb_le in Hle. by replace (m - k) with 0 by lia.
      - apply Nat.leb_gt in Hle. rewrite (IH (S k) recs' eq_refl).
        by replace (m - k) with (S (m - S k)) by lia. }
    destruct variants_ as [vs|]; [|by apply Hyield].
    destruct (decide (ID v ∈ vs)) as [Hin|Hin].
    + rewrite bool_decide_eq_false_2 by (intros Hn; by apply Hn).
      apply Hyield. by apply bool_decide_eq_true_2.
    + rewrite bool_decide_eq_true_2 by done.
      assert (wanted (Some vs) (ID v) = false) as Hw by (by apply bool_decide_eq_false_2).
      rewrite Hw in Hrecs.
      destruct (size vs <=? k) eqn:Hle.
      * apply Nat.leb_le in Hle. simpl. by replace (m - k) with 0 by lia.
      * simpl. by apply IH.
Qed.

Lemma read_bounded_gen vcf region variants_ max_variants g m recs :
  diploid vcf region →
  bound_of variants_ max_variants = Some m →
  mapM (decoded (cls g) (_prephased g))
    (List.filter (λ v, wanted variants_ (ID v)) (vcf_call vcf region)) = Some recs →
  ∃ g' l,
    read vcf region variants_ max_variants g = (Return tt, g', l) ∧
    samples g' = vcf_samples vcf ∧
    variants g' = mk_recarray (names (variants g)) (rec_variants <$> take m recs) ∧
    data g' =
      Some (mk_ndarray uint8
              [length (vcf_samples vcf); length (take m recs); channels (_prephased g)]
              (transpose (length (vcf_samples vcf)) (rec_data <$> take m recs))) ∧
    cls g' = cls g ∧ _prephased g' = _prephased g ∧
    _samp_idx g' = _samp_idx g ∧ _var_idx g' = _var_idx g.
Proof.
  intros Hdip Hb Hrecs.
  assert (fill m 0 (_iterate (cls g) (_prephased g) vcf region variants_) =
          Return (take m recs)) as Hfill.
  { unfold _iterate. rewrite (fill_iterate _ _ _ m _) with (recs := recs); [|..|done].
    - by rewrite Nat.sub_0_r.
    - unfold bound_of in Hb. destruct variants_; [|done]. by injection Hb as <-. }
  rewrite (read_bounded_eq _ _ _ _ _ m Hdip Hb). cbv zeta. rewrite Hfill.
  by eexists _, _.
Qed.

Lemma lookup_transpose (n : nat) (blocks : list (list (list Z))) (i j : nat) block :
  i < n → blocks !! j = Some block →
  transpose n blocks !! i ≫= (.!! j) = Some (nth i block []).
Proof.
  intros Hi Hj. unfold transpose. rewrite list_lookup_fmap, lookup_seq_lt by done.
  simpl. by rewrite list_lookup_fmap, Hj.
Qed.

Lemma mapM_decoded_Forall2 c prephased (src : list Variant) recs :
  mapM (decoded c prephased) src = Some recs →
  Forall2 (λ variant rec,
             _variant_arr c variant = Return (rec_variants rec) ∧
             rec_data rec = counts prephased variant) src recs.
Proof.
  intros H%mapM_Some_1. eapply Forall2_impl; [exact H|].
  intros v rec (? & _ & ?)%decoded_Some. by split.
Qed.

(** C8, amended: on a readable source (a class that inherits [read], a file
    with at least one sample, diploid calls, and an alternate allele in every
    record when the class is [GenotypesRefAlt]), [Genotypes.read] in bounded
    mode (the bound is the size of the identifier set when one is given,
    [max_variants] otherwise) returns and stores exactly the first
    [min(bound, number of matching records)] records that pass the identifier
    filter, in source order: the variant table holds their metadata, and
    column [j] of the tensor holds, for every sample, the call of the [j]-th
    of them; nothing else of the source is stored. *)
Theorem read_bounded vcf region variants_ max_variants g m :
  readable (cls g) vcf region →
  bound_of variants_ max_variants = Some m →
  ∃ g' a' l,
    read vcf region variants_ max_variants g = (Return tt, g', l) ∧
    samples g' = vcf_samples vcf ∧
    Forall2 (λ variant row, _variant_arr (cls g) variant = Return row)
      (take m (List.filter (λ v, wanted variants_ (ID v)) (vcf_call vcf region)))
      (rows (variants g')) ∧
    length (rows (variants g')) =
      Nat.min m (length (List.filter (λ v, wanted variants_ (ID v)) (vcf_call vcf region))) ∧
    data g' = Some a' ∧
    shape a' =
      [length (vcf_samples vcf);
       Nat.min m (length (List.filter (λ v, wanted variants_ (ID v)) (vcf_call vcf region)));
       channels (_prephased g)] ∧
    (∀ i j variant,
       i < length (vcf_samples vcf) →
       take m (List.filter (λ v, wanted variants_ (ID v)) (vcf_call vcf region)) !! j
         = Some variant →
       cell_at a' i j = Some (nth i (counts (_prephased g) variant) [])).
Proof.
  intros Hread Hb.
  set (matching := List.filter (λ v, wanted variants_ (ID v)) (vcf_call vcf region)).
  destruct (mapM_decoded_readable (cls g) vcf region (_prephased g) matching Hread)
    as [recs Hrecs].
  { intros v Hv. unfold matching in Hv. apply list_elem_of_In, filter_In in Hv as [Hv _].
    by apply list_elem_of_In. }
  destruct Hread as (_ & Hdip & _).
  destruct (read_bounded_gen vcf region variants_ max_variants g m recs Hdip Hb Hrecs)
    as (g' & l & Hrun & Hs & Hv & Hd & _).
  apply mapM_decoded_Forall2 in Hrecs.
  pose proof (Forall2_length _ _ _ Hrecs) as Hlen.
  pose proof (Forall2_take _ _ _ m Hrecs) as Htake.
  eexists g', _, l. split_and!; [done|done| | |exact Hd| |].
  - rewrite Hv. simpl. apply Forall2_fmap_r.
    eapply Forall2_impl; [exact Htake|]. by intros v rec [? _].
  - rewrite Hv. simpl. by rewrite length_fmap, length_take, Hlen.
  - simpl. by rewrite length_take, Hlen.
  - intros i j variant Hi Hj. unfold cell_at. simpl.
    destruct (Forall2_lookup_l _ _ _ _ _ Htake Hj) as (rec & Hrec & _ & <-).
    apply lookup_transpose; [done|]. by rewrite list_lookup_fmap, Hrec.
Qed.

Lemma ex_vcf_diploid : diploid ex_vcf None.
Proof. split; [done|]. repeat constructor. Qed.

Lemma ex_vcf_readable c : c ≠ GenotypesPLINK_ → readable c ex_vcf None.
Proof.
  intros Hc. split_and!; [done|apply ex_vcf_diploid|]. intros _. by repeat constructor.
Qed.

Lemma read_bounded_witness :
  ∃ g' a' l,
    read ex_vcf None None (Some 2) (__init__ GenotypesRefAlt_) = (Return tt, g', l) ∧
    samples g' = vcf_samples ex_vcf ∧
    Forall2 (λ variant row,
               _variant_arr (cls (__init__ GenotypesRefAlt_)) variant = Return row)
      (take 2 (List.filter (λ v, wanted None (ID v)) (vcf_call ex_vcf None)))
      (rows (variants g')) ∧
    length (rows (variants g')) =
      Nat.min 2 (length (List.filter (λ v, wanted None (ID v)) (vcf_call ex_vcf None))) ∧
    data g' = Some a' ∧
    shape a' =
      [length (vcf_samples ex_vcf);
       Nat.min 2 (length (List.filter (λ v, wanted None (ID v)) (vcf_call ex_vcf None)));
       channels (_prephased (__init__ GenotypesRefAlt_))] ∧
    (∀ i j variant,
       i < length (vcf_samples ex_vcf) →
       take 2 (List.filter (λ v, wanted None (ID v)) (vcf_call ex_vcf None)) !! j
         = Some variant →
       cell_at a' i j =
         Some (nth i (counts (_prephased (__init__ GenotypesRefAlt_)) variant) [])).
Proof.
  apply (read_bounded ex_vcf None None (Some 2) (__init__ GenotypesRefAlt_) 2).
  - apply ex_vcf_readable. discriminate.
  - reflexivity.
Defined.

(** C8 as stated fails on a file without samples: the records have no call,
    their array has one dimension, and the slice [data[:, :3]] raises
    [IndexError] at the first matching record, so that bounded [read] stores
    none of the two records the bound asks for. *)
Lemma read_bounded_counterexample :
  bound_of None (Some 2) = Some 2 ∧
  Nat.min 2 (length (List.filter (λ v, wanted None (ID v)) (vcf_call ex_vcf_sites None))) = 2 ∧
  (read ex_vcf_sites None None (Some 2) (__init__ Genotypes_)).1.1 = Raise IndexError.
Proof. done. Qed.

(** A bound below the number of records keeps the first two records. *)
Example read_bound_smaller :
  ∃ g', read ex_vcf None None (Some 2) (__init__ Genotypes_) =
          (Return tt, g', [InfoLoadingFrom 2; InfoTransposing [2; 2; 3]]) ∧
        v_id <$> rows (variants g') = ["rs1"; "rs2"] ∧
        data g' =
          Some (mk_ndarray uint8 [2; 2; 3]
                  [[[1; 1; 1]; [0; 0; 1]]; [[0; 1; 1]; [1; 0; 1]]]%Z).
Proof. eexists. split; [reflexivity|done]. Qed.

(** A bound above the number of records is cut down to the three records
    there are. *)
Example read_bound_larger :
  ∃ g', read ex_vcf None None (Some 5) (__init__ Genotypes_) =
          (Return tt, g',
           [InfoLoadingFrom 2; InfoRemovingPreallocated 2; InfoTransposing [3; 2; 3]]) ∧
        v_id <$> rows (variants g') = ["rs1"; "rs2"; "rs3"] ∧
        shape <$> data g' = Some [2; 3; 3].
Proof. eexists. split; [reflexivity|done]. Qed.

(** ** Record iteration under an identifier set *)

(** Neither generator emits a record whose identifier is outside the set. *)
Lemma _iterate_emits_wanted c prephased vs k src :
  Forall (λ rec, ∃ variant, variant ∈ src ∧ ID variant ∈ vs ∧
                            decoded c prephased variant = Some rec)
    (emitted (_iterate_from c prephased (Some vs) k src)).
Proof.
  revert k. induction src as [|v src IH]; intros k; cbn [_iterate_from]; [constructor|].
  assert (∀ k', Forall (λ rec, ∃ variant, variant ∈ v :: src ∧ ID variant ∈ vs ∧
                                decoded c prephased variant = Some rec)
                  (emitted (_iterate_from c prephased (Some vs) k' src))) as IH'.
  { intros k'. eapply Forall_impl; [apply IH|]. intros rec (x & ? & ? & ?).
    exists x. split_and!; [by right|done..]. }
  destruct (decide (ID v ∈ vs)) as [Hin|Hin].
  - rewrite bool_decide_eq_false_2 by (intros Hn; by apply Hn).
    destruct (decoded c prephased v) as [rec|] eqn:Hdec.
    + rewrite (go_on_Some _ _ _ _ _ Hdec). simpl. constructor; [|apply IH'].
      exists v. split_and!; [by left|done..].
    + destruct (go_on_None _ _ _ (_iterate_from c prephased (Some vs) (S k) src) Hdec)
        as [e ->]. constructor.
  - rewrite bool_decide_eq_true_2 by done.
    destruct (size vs <=? k); simpl; [constructor|apply IH'].
Qed.


Lemma _iterate_variants_emits_wanted region vs cid ns ct pvs :
  Forall (λ p : nat * variant_row,
            ∃ k rec i, p.1 = ct + k ∧ pvs !! k = Some rec ∧
                       rec !! PLINK.cid_id cid = Some i ∧ i ∈ vs ∧
                       PLINK._variant_arr rec = Return p.2)
    (emitted (PLINK._iterate_variants_from region (Some vs) cid ns ct pvs)).
Proof.
  revert ct. induction pvs as [|rec pvs IH]; intros ct;
    cbn [PLINK._iterate_variants_from]; [constructor|].
  assert (Forall (λ p : nat * variant_row,
                    ∃ k r i, p.1 = ct + k ∧ (rec :: pvs) !! k = Some r ∧
                             r !! PLINK.cid_id cid = Some i ∧ i ∈ vs ∧
                             PLINK._variant_arr r = Return p.2)
            (emitted (PLINK._iterate_variants_from region (Some vs) cid ns (S ct) pvs)))
    as Hrest.
  { eapply Forall_impl; [apply IH|]. intros p (k & r & i & Hp & Hr & Hi & Hin & Hrow).
    exists (S k), r, i. split_and!; [lia|done..]. }
  destruct (PLINK.outside_region region cid rec) as [[|]|e]; simpl; [done| |constructor].
  destruct (rec !! PLINK.cid_id cid) as [i|] eqn:Hi; simpl; [|constructor].
  destruct (decide (i ∈ vs)) as [Hin|Hin].
  - rewrite bool_decide_eq_false_2 by (intros Hn; by apply Hn).
    destruct (PLINK._variant_arr rec) as [row|e] eqn:Hrow; simpl; [|constructor].
    constructor; [|done]. exists 0, rec, i. split_and!; [simpl; lia|done..].
  - rewrite bool_decide_eq_true_2 by done.
    destruct (size vs <=? ns); simpl; [constructor|done].
Qed.

(** The loop of [_iterate_variants] never takes its early exit when the set
    is not empty: its counter stays at zero. *)
Lemma _iterate_variants_never_breaks region vs cid ct pvs :
  size vs ≠ 0 →
  broke (PLINK._iterate_variants_from region (Some vs) cid 0 ct pvs) = false.
Proof.
  intros Hne. revert ct. induction pvs as [|rec pvs IH]; intros ct;
    cbn [PLINK._iterate_variants_from]; [done|].
  destruct (PLINK.outside_region region cid rec) as [[|]|e]; simpl; [by apply IH| |done].
  destruct (rec !! PLINK.cid_id cid) as [i|]; simpl; [|done].
  assert ((size vs <=? 0) = false) as -> by (apply Nat.leb_gt; lia).
  destruct (bool_decide (i ∉ vs)); simpl; [by apply IH|].
  destruct (PLINK._variant_arr rec); simpl; [by apply IH|done].
Qed.

(** [Genotypes._iterate] does take it: once as many records as the set has
    elements were emitted, the next record outside the set ends the loop. *)
Lemma _iterate_breaks c prephased vs k variant src :
  size vs ≤ k → ID variant ∉ vs →
  _iterate_from c prephased (Some vs) k (variant :: src) = Broke.
Proof.
  intros Hle Hout. cbn [_iterate_from]. rewrite bool_decide_eq_true_2 by done.
  by apply Nat.leb_le in Hle as ->.
Qed.

(** C7 fails on the PVAR path: with the one-element set {rs1},
    [GenotypesPLINK._iterate_variants] reads all three records of a file whose
    first record is the only match, and on a file in which the id comes back
    it emits a second record after the first; [Genotypes._iterate] stops at
    the second record of the same source.  The counter [num_seen] of
    [_iterate_variants] is never incremented. *)
Theorem iterate_variants_no_early_exit :
  PLINK._iterate_variants ex_pvar None (Some {[ "rs1" ]}) =
    Yielded (0, mk_row "rs1" "1" 100 0.5%float (Some ("A", "T")))
      (Skipped (Skipped Exhausted)) ∧
  pulled (PLINK._iterate_variants ex_pvar None (Some {[ "rs1" ]})) = 3 ∧
  (emitted (PLINK._iterate_variants ex_pvar_repeat None (Some {[ "rs1" ]}))).*1 = [0; 2] ∧
  size ({[ "rs1" ]} : gset string) = 1 ∧
  pulled (_iterate Genotypes_ false ex_vcf None (Some {[ "rs1" ]})) = 2 ∧
  broke (_iterate Genotypes_ false ex_vcf None (Some {[ "rs1" ]})) = true.
Proof. vm_compute. done. Qed.

Lemma read_keeps_names vcf region variants_ max_variants g g' l :
  read vcf region variants_ max_variants g = (Return tt, g', l) →
  names (variants g') = names (variants g) ∧ cls g' = cls g.
Proof.
  unfold read. munfold. simpl.
  destruct (match variants_ with Some vs => Some (size vs) | None => max_variants end)
    as [m|]; simpl.
  - destruct (fill_with _ m 0 _) as [recs|e]; simpl; [|done].
    destruct (length recs <? m); simpl; destruct (bool_decide (0 ∈ _)); simpl;
      by intros [= <- _].
  - destruct (append_all _) as [recs|e]; simpl; [|done].
    destruct (stack _) as [a|e]; simpl; [|done].
    destruct (bool_decide (0 ∈ _)); simpl;
      destruct (transpose_102 a) as [a'|]; simpl; by intros [= <- _].
Qed.

Lemma load_Return_inv c vcf region variants_ g l :
  load c vcf region variants_ = (Return g, l) →
  ∃ g1 l1 l2,
    read vcf region variants_ None (__init__ c) = (Return tt, g1, l1) ∧
    (check_missing false;; check_biallelic false;; check_phase) g1 = (Return tt, g, l2).
Proof.
  unfold load.
  destruct ((read vcf region variants_ None;; check_missing false;;
             check_biallelic false;; check_phase) (__init__ c)) as [[[[]|e] g'] l'] eqn:Hrun;
    [|done].
  intros [= -> ->].
  apply bind_Return_inv in Hrun as ([] & g1 & l1 & l2 & H1 & H2 & _).
  by exists g1, l1, l2.
Qed.

(** [load] never renames the frequency column: each of its four steps keeps
    [dtype.names]. *)
Lemma load_keeps_names c vcf region variants_ g l :
  load c vcf region variants_ = (Return g, l) → names (variants g) = init_names c.
Proof.
  intros (g1 & l1 & l2 & Hread & Hchecks)%load_Return_inv.
  apply read_keeps_names in Hread as [Hn _].
  apply checks_keep_table in Hchecks as (_ & -> & _). by rewrite Hn.
Qed.

(** C1 fails: [load] stops after the phase check (the call of [to_MAC] is
    commented out, although the docstring of [load] announces the MAC
    matrix).  On the example VCF it returns an instance whose frequency column
    is still named "aaf" and whose first variant keeps the frequency 0.75; and
    whatever the input, an instance [load] returns never has a column named
    "maf". *)
Theorem load_leaves_alternate_frequencies :
  (∃ g l,
     load Genotypes_ ex_vcf None None = (Return g, l) ∧
     names (variants g) = ["id"; "chrom"; "pos"; "aaf"] ∧
     v_aaf <$> rows (variants g) = [0.75%float; 0.25%float; 0.25%float] ∧
     exceeds_half <$> rows (variants g) = [true; false; false] ∧
     (nd_dtype <$> data g) = Some bool_ ∧ (shape <$> data g) = Some [2; 3; 2]) ∧
  (∀ c vcf region variants_ g l,
     load c vcf region variants_ = (Return g, l) →
     names (variants g) !! 3 = Some "aaf").
Proof.
  split.
  - eexists _, _. split; [vm_compute; reflexivity|done].
  - intros c vcf region variants_ g l Hload.
    rewrite (load_keeps_names _ _ _ _ _ _ Hload). by destruct c.
Qed.

(** ** Instances loaded from a PLINK trio *)

Lemma PLINK_variant_arr_half rec row :
  PLINK._variant_arr rec = Return row → v_aaf row = 0.5%float.
Proof.
  unfold PLINK._variant_arr.
  destruct (rec !! 2), (rec !! 0), (rec !! 1) as [p|], (rec !! 3), (rec !! 4); try done.
  destruct (PLINK.int_of p); [|done]. by intros [= <-].
Qed.

Lemma iterate_variants_from_half region variants_ cid ns ct pvs :
  Forall (λ p : nat * variant_row, v_aaf p.2 = 0.5%float)
    (emitted (PLINK._iterate_variants_from region variants_ cid ns ct pvs)).
Proof.
  revert ct. induction pvs as [|rec pvs IH]; intros ct;
    cbn [PLINK._iterate_variants_from]; [constructor|].
  assert (Forall (λ p : nat * variant_row, v_aaf p.2 = 0.5%float)
            (emitted
               match PLINK._variant_arr rec with
               | Return row =>
                   Yielded (ct, row)
                     (PLINK._iterate_variants_from region variants_ cid ns (S ct) pvs)
               | Raise e => Failed e
               end)) as Hgo.
  { destruct (PLINK._variant_arr rec) as [row|e] eqn:Hrow; simpl; [|constructor].
    constructor; [by apply (PLINK_variant_arr_half rec)|apply IH]. }
  destruct (PLINK.outside_region region cid rec) as [[|]|e]; simpl; [apply IH| |constructor].
  destruct variants_ as [vs|]; [|done].
  destruct (rec !! PLINK.cid_id cid) as [i|]; simpl; [|constructor].
  destruct (bool_decide (i ∉ vs)); [|done].
  destruct (size vs <=? ns); simpl; [constructor|apply IH].
Qed.

Lemma iterate_variants_half pvar region variants_ :
  Forall (λ p : nat * variant_row, v_aaf p.2 = 0.5%float)
    (emitted (PLINK._iterate_variants pvar region variants_)).
Proof.
  unfold PLINK._iterate_variants.
  match goal with
  | |- context [match ?c with _ => _ end] => destruct c as [[[cid|e] ?] ?]
  end; simpl; [apply iterate_variants_from_half|constructor].
Qed.

Lemma read_samples_keeps psam samples_ g idxs g' l :
  PLINK.read_samples psam samples_ g = (Return idxs, g', l) →
  variants g' = variants g ∧ _prephased g' = _prephased g ∧ cls g' = cls g.
Proof.
  unfold PLINK.read_samples, PLINK.strip_hash, PLINK.column. munfold. simpl.
  intros H. repeat (case_match; munfold; simplify_eq/=); done.
Qed.

Lemma read_variants_half pvar region variants_ max_variants g idxs g' l :
  PLINK.read_variants pvar region variants_ max_variants g = (Return idxs, g', l) →
  Forall (λ v, v_aaf v = 0.5%float) (rows (variants g')) ∧
  names (variants g') = names (variants g) ∧
  length idxs = length (rows (variants g')) ∧
  _prephased g' = _prephased g.
Proof.
  unfold PLINK.read_variants. munfold. simpl.
  destruct (negb (length (rows (variants g)) =? 0)); simpl;
    (destruct (match variants_ with Some vs => Some (size vs) | None => max_variants end)
       as [m|]; simpl; try done;
     destruct (fill m 0 _) as [stored|e] eqn:Hfill; simpl; try done;
     pose proof (fill_Forall _ _ _ _ _ Hfill (iterate_variants_half pvar region variants_))
       as Hhalf;
     destruct (length stored <? m); simpl; intros [= <- <- _]; simpl;
     (split_and!; [by apply Forall_fmap|done|by rewrite !length_fmap|done])).
Qed.

Lemma PLINK_read_inv psam pvar pgen region samples_ variants_ mx chunk g g' l :
  PLINK.read psam pvar pgen region samples_ variants_ mx chunk g = (Return tt, g', l) →
  Forall (λ v, v_aaf v = 0.5%float) (rows (variants g')) ∧
  names (variants g') = names (variants g) ∧
  ∃ a d0 d2, data g' = Some a ∧ shape a = [d0; length (rows (variants g')); d2].
Proof.
  unfold PLINK.read.
  intros (idxs & g1 & l1 & l1' & Hsamp & Hrest & _)%bind_Return_inv.
  apply read_samples_keeps in Hsamp as (Hv1 & _ & _).
  apply bind_Return_inv in Hrest as (indices & g2 & l2 & l2' & Hvar & Hrest & _).
  apply read_variants_half in Hvar as (Hhalf & Hnames & Hlen & _).
  revert Hrest. munfold. simpl.
  destruct (_ =? 0); simpl; [done|].
  destruct (negb _); simpl; [done|].
  destruct (bool_decide (0 ∈ _)); simpl; intros [= <- _]; simpl;
    (split_and!; [done|by rewrite Hnames, Hv1|]);
    eexists _, _, _; (split; [reflexivity|]); simpl; by rewrite Hlen.
Qed.

Lemma exceeds_half_half v : v_aaf v = 0.5%float → exceeds_half v = false.
Proof. unfold exceeds_half. by intros ->. Qed.

(** Without a frequency above one half [to_MAC] converts nothing. *)
Lemma converted_all_half g a :
  data g = Some a →
  Forall (λ v, v_aaf v = 0.5%float) (rows (variants g)) →
  converted a g = relabel g.
Proof.
  intros Hd Hhalf. unfold converted, relabel.
  assert (map (λ v, if exceeds_half v then complement_aaf v else v) (rows (variants g)) =
          rows (variants g)) as Hrows.
  { induction Hhalf as [|v vs Hv _ IH]; simpl; [done|].
    by rewrite (exceeds_half_half v Hv), IH. }
  assert (flip_columns (map exceeds_half (rows (variants g))) a = a) as Hflip.
  { unfold flip_columns.
    assert (Forall (λ b, b = false) (map exceeds_half (rows (variants g)))) as Hmask.
    { apply Forall_fmap. eapply Forall_impl; [exact Hhalf|]. apply exceeds_half_half. }
    assert (map (map_masked (flip_cell (nd_dtype a))
                   (map exceeds_half (rows (variants g)))) (cells a) = cells a) as ->.
    { induction (cells a) as [|row cs IH]; simpl; [done|].
      by rewrite IH, map_masked_all_false. }
    apply ndarray_eta. }
  rewrite Hflip, Hrows. simpl. destruct g. simpl in *. by rewrite Hd, recarray_eta.
Qed.

Lemma PLINK_load_inv psam pvar pgen region samples_ variants_ g l :
  PLINK.load psam pvar pgen region samples_ variants_ = (Return g, l) →
  ∃ g1 l1 l2,
    PLINK.read psam pvar pgen region samples_ variants_ None None
      (__init__ GenotypesPLINK_) = (Return tt, g1, l1) ∧
    (check_missing false;; check_biallelic false;; check_phase) g1 = (Return tt, g, l2).
Proof.
  unfold PLINK.load.
  destruct ((PLINK.read psam pvar pgen region samples_ variants_ None None;;
             check_missing false;; check_biallelic false;; check_phase)
              (__init__ GenotypesPLINK_)) as [[[[]|e] g'] l'] eqn:Hrun; [|done].
  intros [= -> ->].
  apply bind_Return_inv in Hrun as ([] & g1 & l1 & l2 & H1 & H2 & _).
  by exists g1, l1, l2.
Qed.

(** The three checks keep a three-dimensional tensor aligned with the
    variant table. *)
Lemma checks_keep_shape g g' l a d0 d1 d2 :
  data g = Some a → shape a = [d0; d1; d2] →
  (check_missing false;; check_biallelic false;; check_phase) g = (Return tt, g', l) →
  ∃ a' d2', data g' = Some a' ∧ shape a' = [d0; d1; d2'].
Proof.
  intros Hd Hs (u1 & g1 & l1 & l1' & H1 & Hrest & _)%bind_Return_inv.
  apply bind_Return_inv in Hrest as (u2 & g2 & l2 & l2' & H2 & H3 & _).
  destruct u1, u2.
  apply check_missing_strict in H1 as ->.
  apply check_biallelic_strict in H2 as (a1 & Hd1 & Hg2).
  rewrite Hd in Hd1. injection Hd1 as <-.
  assert (∃ a2, data g2 = Some a2 ∧ shape a2 = [d0; d1; d2]) as (a2 & Hd2 & Hs2).
  { destruct Hg2 as [-> | ->]; [by exists a|]. by exists (astype_bool_array a). }
  apply check_phase_Return in H3 as [->|(a3 & Hd3 & ->)].
  - by exists a2, d2.
  - rewrite Hd2 in Hd3. injection Hd3 as <-.
    exists (first_two_channels a2), (Nat.min 2 d2). split; [done|].
    unfold first_two_channels. by rewrite Hs2.
Qed.

(** C10: the PVAR reader gives every row of the variant table the frequency
    0.5, whatever the genotypes are; so on every instance [load] returns for a
    PLINK trio all stored frequencies are 0.5, and [to_MAC] returns it with
    the tensor, the rows of the table and every other field unchanged, the
    frequency column renamed from "aaf" to "maf", and nothing logged. *)
Theorem plink_to_MAC_only_relabels psam pvar pgen region samples_ variants_ g l :
  PLINK.load psam pvar pgen region samples_ variants_ = (Return g, l) →
  (∀ rec row, PLINK._variant_arr rec = Return row → v_aaf row = 0.5%float) ∧
  Forall (λ v, v_aaf v = 0.5%float) (rows (variants g)) ∧
  names (variants g) !! 3 = Some "aaf" ∧
  ∃ g',
    to_MAC g = (Return tt, g', []) ∧
    names (variants g') !! 3 = Some "maf" ∧
    rows (variants g') = rows (variants g) ∧
    data g' = data g ∧ samples g' = samples g ∧ _prephased g' = _prephased g ∧
    _samp_idx g' = _samp_idx g ∧ _var_idx g' = _var_idx g ∧ cls g' = cls g.
Proof.
  intros (g1 & l1 & l2 & Hread & Hchecks)%PLINK_load_inv.
  apply PLINK_read_inv in Hread as (Hhalf & Hnames & a & d0 & d2 & Hd & Hs).
  destruct (checks_keep_shape _ _ _ _ _ _ _ Hd Hs Hchecks) as (a' & d2' & Hd' & Hs').
  apply checks_keep_table in Hchecks as (_ & Hv & _).
  assert (names (variants g) !! 3 = Some "aaf") as Hn by (by rewrite Hv, Hnames).
  split_and!; [apply PLINK_variant_arr_half|by rewrite Hv|done|].
  exists (relabel g). split.
  - rewrite (to_MAC_eq _ _ _ _ _ Hd' Hs' Hn) by (by rewrite Hv).
    rewrite converted_all_half; [done|done|by rewrite Hv].
  - simpl. rewrite list_lookup_fmap, Hn. done.
Qed.

Lemma plink_to_MAC_only_relabels_witness :
  PLINK.load ex_psam ex_pvar ex_pgen None None None =
    (Return ex_plink_loaded, [InfoReadingChunks 2 3 3]) ∧
  (∀ rec row, PLINK._variant_arr rec = Return row → v_aaf row = 0.5%float) ∧
  Forall (λ v, v_aaf v = 0.5%float) (rows (variants ex_plink_loaded)) ∧
  names (variants ex_plink_loaded) !! 3 = Some "aaf" ∧
  ∃ g',
    to_MAC ex_plink_loaded = (Return tt, g', []) ∧
    names (variants g') !! 3 = Some "maf" ∧
    rows (variants g') = rows (variants ex_plink_loaded) ∧
    data g' = data ex_plink_loaded ∧ samples g' = samples ex_plink_loaded ∧
    _prephased g' = _prephased ex_plink_loaded ∧
    _samp_idx g' = _samp_idx ex_plink_loaded ∧ _var_idx g' = _var_idx ex_plink_loaded ∧
    cls g' = cls ex_plink_loaded.
Proof.
  split; [vm_compute; reflexivity|].
  apply (plink_to_MAC_only_relabels ex_psam ex_pvar ex_pgen None None None
           ex_plink_loaded [InfoReadingChunks 2 3 3]).
  vm_compute; reflexivity.
Defined.

(** ** The bitwise complement on tensors of counts *)

(** C2 fails, by a slip in the code: [check_phase] computes
    [(c0 ^ c1) & ~phase] on whatever the tensor holds, and on 8-bit counts [~]
    is the bitwise complement, so that [~1] is 254 and not 0.  [read] of a
    file whose only call is 2|0 (heterozygous for the second alternate allele,
    phase flag true) returns a tensor of counts with 3 channels on an instance
    that is not pre-phased; no call of it is heterozygous with a false phase
    flag; and [check_phase] raises the error about an unphased genotype all
    the same, since [2 & 254] is 2. *)
Theorem check_phase_raises_on_phased_counts :
  read ex_vcf_multi None None None (__init__ Genotypes_) =
    (Return tt, ex_single ex_multi,
     [WarnEverGrowingArray; InfoLoadingFrom 1; InfoCopying 1; InfoTransposing [1; 1; 3]]) ∧
  _prephased (ex_single ex_multi) = false ∧ dim 2 ex_multi = 3 ∧
  cell_at ex_multi 0 0 = Some [2; 0; 1]%Z ∧
  (¬ ∃ i j, unphased_het_at ex_multi i j) ∧
  check_phase (ex_single ex_multi) =
    (Raise (ValueError (UnphasedVariant "rs1" "1" 100 "s1")), ex_single ex_multi, []) ∧
  invert uint8 1 = 254%Z ∧ unphased_cell uint8 [2; 0; 1]%Z = 2%Z.
Proof.
  split_and!; [vm_compute; reflexivity|done..| |done|done|done].
  intros (i & j & cell & c0 & c1 & Hcell & _ & _ & _ & H2).
  apply cell_at_Some in Hcell as (row & Hi & Hj).
  destruct i as [|i]; [|by destruct i]. simpl in Hi. injection Hi as <-.
  destruct j as [|j]; [|by destruct j]. simpl in Hj. injection Hj as <-.
  done.
Qed.

(** C4 fails, by the same slip: [to_MAC] writes [~data] into the two allele
    channels of the variants it converts, and on 8-bit counts [~1] is 254.
    [read] of a file whose only call is 1|1 at a variant of frequency 0.75
    returns a tensor of counts under a column named "aaf"; [to_MAC] on it
    relabels the column, replaces the frequency by 0.25, and stores 254 for
    the two present alleles, where the minor-allele count is 0; the same
    happens after [check_phase] has removed the phase channel. *)
Theorem to_MAC_complements_counts :
  read ex_vcf_hom None None None (__init__ Genotypes_) =
    (Return tt, ex_single ex_hom,
     [WarnEverGrowingArray; InfoLoadingFrom 1; InfoCopying 1; InfoTransposing [1; 1; 3]]) ∧
  names (variants (ex_single ex_hom)) !! 3 = Some "aaf" ∧
  exceeds_half <$> rows (variants (ex_single ex_hom)) = [true] ∧
  cell_at ex_hom 0 0 = Some [1; 1; 1]%Z ∧
  (∃ g' a',
     to_MAC (ex_single ex_hom) = (Return tt, g', []) ∧ data g' = Some a' ∧
     nd_dtype a' = uint8 ∧ names (variants g') !! 3 = Some "maf" ∧
     v_aaf <$> rows (variants g') = [0.25%float] ∧
     cell_at a' 0 0 = Some [254; 254; 1]%Z) ∧
  check_phase (ex_single ex_hom) = (Return tt, ex_single ex_counts, []) ∧
  (∃ g' a',
     to_MAC (ex_single ex_counts) = (Return tt, g', []) ∧ data g' = Some a' ∧
     cell_at a' 0 0 = Some [254; 254]%Z) ∧
  invert uint8 1 = 254%Z.
Proof.
  split_and!; [vm_compute; reflexivity|done..| |done| |done].
  - eexists _, _. split_and!; [reflexivity|reflexivity|done..].
  - eexists _, _. split_and!; [reflexivity|reflexivity|done].
Qed.

(** ** What the loops of [read] take from a generator *)

Lemma fill_Return {A} m k (t : trace A) l :
  fill m k t = Return l → l = take (m - k) (emitted t).
Proof.
  revert k l. induction t as [| |rest IH|a rest IH|e]; intros k l; simpl.
  - intros [= <-]. by rewrite take_nil.
  - intros [= <-]. by rewrite take_nil.
  - apply IH.
  - destruct (m <=? k) eqn:Hle.
    + apply Nat.leb_le in Hle. intros [= <-]. by replace (m - k) with 0 by lia.
    + apply Nat.leb_gt in Hle.
      destruct (fill m (S k) rest) as [l'|e] eqn:Hl; [|done].
      intros [= <-]. replace (m - k) with (S (m - S k)) by lia. simpl.
      f_equal. by apply IH.
  - done.
Qed.

(** Without an identifier set [_iterate] yields every record of the source,
    up to the first one whose metadata or block cannot be built. *)
Lemma _iterate_from_all c prephased k src recs :
  mapM (decoded c prephased) src = Some recs →
  emitted (_iterate_from c prephased None k src) = recs ∧
  failure (_iterate_from c prephased None k src) = None.
Proof.
  revert k recs. induction src as [|v src IH]; intros k recs.
  - simpl. by intros [= <-].
  - change (mapM ?f (?x :: ?l)) with (y ← f x; k ← mapM f l; mret (y :: k)).
    destruct (decoded c prephased v) as [rec|] eqn:Hdec; simpl; [|done].
    destruct (mapM _ src) as [recs'|] eqn:Hrecs; simpl; [|done].
    intros [= <-]. rewrite (go_on_Some _ _ _ _ _ Hdec). simpl.
    by destruct (IH (S k) recs' eq_refl) as [-> ->].
Qed.

(** A record without an alternate allele stops the generator of
    [GenotypesRefAlt], when the blocks of the records can be built. *)
Lemma _iterate_from_no_alt prephased k src variant :
  Forall (λ v, ∃ block, genotype_data prephased v = Return block) src →
  variant ∈ src → ALT variant = [] →
  failure (_iterate_from GenotypesRefAlt_ prephased None k src) = Some IndexError.
Proof.
  intros Hall Hin Halt. revert k.
  induction Hall as [|v src [block Hblock] _ IH]; intros k.
  - by apply elem_of_nil in Hin.
  - cbn [_iterate_from]. unfold _variant_arr. destruct (ALT v) as [|alt0 alts] eqn:Hv.
    + done.
    + rewrite Hblock. simpl. apply IH.
      apply elem_of_cons in Hin as [->|Hin]; [congruence|done].
Qed.

(** What a generator of [Genotypes] has yielded when it stops, for whatever
    reason, are the records of the first matching variants of the source, in
    source order. *)
Lemma _iterate_from_prefix c prephased variants_ k src :
  ∃ n, mapM (decoded c prephased)
         (take n (List.filter (λ v, wanted variants_ (ID v)) src)) =
       Some (emitted (_iterate_from c prephased variants_ k src)).
Proof.
  revert k. induction src as [|v src IH]; intros k; cbn [_iterate_from].
  - by exists 0.
  - assert (wanted variants_ (ID v) = true →
            ∃ n, mapM (decoded c prephased)
                   (take n (List.filter (λ v, wanted variants_ (ID v)) (v :: src))) =
                 Some (emitted
                         match _variant_arr c v with
                         | Return variant_arr =>
                             match genotype_data prephased v with
                             | Return data =>
                                 Yielded (mk_Record data variant_arr)
                                   (_iterate_from c prephased variants_ (S k) src)
                             | Raise e => Failed e
                             end
                         | Raise e => Failed e
                         end)) as Hgo.
    { intros Hw. cbn [List.filter]. rewrite Hw.
      destruct (decoded c prephased v) as [rec|] eqn:Hdec.
      - rewrite (go_on_Some _ _ _ _ _ Hdec). cbn [emitted].
        destruct (IH (S k)) as [n Hn]. exists (S n). cbn [take].
        change (mapM ?f (?x :: ?l)) with (y ← f x; k ← mapM f l; mret (y :: k)).
        rewrite Hdec. simpl. by rewrite Hn.
      - destruct (go_on_None _ _ _ (_iterate_from c prephased variants_ (S k) src) Hdec)
          as [e ->]. by exists 0. }
    destruct variants_ as [vs|]; [|by apply Hgo].
    destruct (decide (ID v ∈ vs)) as [Hin|Hin].
    + rewrite bool_decide_eq_false_2 by (intros Hn; by apply Hn).
      apply Hgo. simpl. by apply bool_decide_eq_true_2.
    + rewrite bool_decide_eq_true_2 by done.
      destruct (size vs <=? k); simpl; [by exists 0|].
      rewrite (bool_decide_eq_false_2 _ Hin). apply IH.
Qed.

Lemma mapM_take {A B} (f : A → option B) (l : list A) (k : list B) (n : nat) :
  mapM f l = Some k → mapM f (take n l) = Some (take n k).
Proof.
  intros H%mapM_Some_1. apply mapM_Some_2. by apply Forall2_take.
Qed.

(** Whenever [read] returns on a diploid source, in either mode, the variant
    table and the tensor hold the records of the first [n] matching variants
    of the source, for some [n]; the sample list is the one of the file. *)
Lemma read_Return_inv vcf region variants_ max_variants g g' l :
  diploid vcf region →
  read vcf region variants_ max_variants g = (Return tt, g', l) →
  ∃ n recs,
    mapM (decoded (cls g) (_prephased g))
      (take n (List.filter (λ v, wanted variants_ (ID v)) (vcf_call vcf region))) =
      Some recs ∧
    (bound_of variants_ max_variants = None → recs ≠ []) ∧
    g' = set_data
           (mk_ndarray uint8
              [length (vcf_samples vcf); length recs; channels (_prephased g)]
              (transpose (length (vcf_samples vcf)) (rec_data <$> recs)))
           (set_variants (mk_recarray (names (variants g)) (rec_variants <$> recs))
              (set_samples (vcf_samples vcf) g)).
Proof.
  intros Hdip.
  destruct (_iterate_from_prefix (cls g) (_prephased g) variants_ 0 (vcf_call vcf region))
    as [n Hn].
  destruct (bound_of variants_ max_variants) as [m|] eqn:Hb.
  - rewrite (read_bounded_eq _ _ _ _ _ m Hdip Hb). cbv zeta.
    destruct (fill m 0 _) as [recs|e] eqn:Hfill; [|done].
    intros [= <- _]. apply fill_Return in Hfill. rewrite Nat.sub_0_r in Hfill.
    exists (Nat.min m n), recs. split_and!; [|done|done].
    rewrite <- take_take. rewrite Hfill. by apply mapM_take.
  - unfold bound_of in Hb. destruct variants_ as [vs|]; [done|]. subst max_variants.
    rewrite (read_unbounded_eq _ _ _ Hdip). cbv zeta. unfold _iterate.
    destruct (failure _); [done|].
    destruct (emitted _) as [|rec recs] eqn:Hrecs; [done|].
    intros [= <- _]. exists n, (rec :: recs). split_and!; [exact Hn|done|done].
Qed.

(** ** The checks of [load] on a freshly read tensor *)

Lemma checks_eq g a d0 d1 :
  data g = Some a → shape a = [d0; d1; 3] → nd_dtype a = uint8 → _prephased g = false →
  (check_missing false;; check_biallelic false;; check_phase) g =
    if any2 (missing_mask a) then
      first_offender MissingGenotype (nonzero (missing_mask a)) g
    else if any2 (multiallelic_mask a) then
      first_offender MultiallelicVariant (nonzero (multiallelic_mask a)) g
    else
      let b := astype_bool_array a in
      if any2 (unphased_mask b) then
        first_offender UnphasedVariant (nonzero (unphased_mask b)) (set_data b g)
      else (Return tt, set_data (first_two_channels b) g, []).
Proof.
  intros Hd Hs Hu Hp. unfold mbind at 1, M_bind at 1.
  rewrite (check_missing_eq _ _ _ _ _ _ Hd Hs).
  destruct (any2 (missing_mask a)).
  { by destruct (first_offender_raises MissingGenotype (nonzero (missing_mask a)) g)
      as [e ->]. }
  unfold mbind at 1, M_bind at 1.
  rewrite (check_biallelic_eq _ _ _ _ _ _ Hd Hs).
  destruct (decide (nd_dtype a = bool_)) as [Hb|_]; [congruence|].
  destruct (any2 (multiallelic_mask a)).
  { by destruct (first_offender_raises MultiallelicVariant
                   (nonzero (multiallelic_mask a)) g) as [e ->]. }
  simpl.
  rewrite (check_phase_eq (set_data (astype_bool_array a) g) (astype_bool_array a) d0 d1 3)
    by done.
  simpl. rewrite Hp. simpl.
  destruct (any2 (unphased_mask (astype_bool_array a))).
  - by destruct (first_offender_raises UnphasedVariant
                   (nonzero (unphased_mask (astype_bool_array a)))
                   (set_data (astype_bool_array a) g)) as [e ->].
  - done.
Qed.

(** A mask without a true entry. *)
Lemma any2_no_entry (m : list (list bool)) :
  (∀ i j, entry m i j ≠ Some true) → any2 m = false.
Proof.
  intros Hno. destruct (any2 m) eqn:Hany; [|done].
  destruct (nonzero_from_first m 0 Hany) as (i & j & rest & _ & [Hij _]).
  by destruct (Hno i j).
Qed.

Lemma cell_at_transpose_nil n i j : transpose n [] !! i ≫= (.!! j) = None.
Proof.
  unfold transpose. rewrite list_lookup_fmap.
  destruct (seq 0 n !! i); simpl; [|done]. by destruct j.
Qed.

(** ** What [read] stores, in either mode *)

(** Whenever [Genotypes.read], as run by [Genotypes] or [GenotypesRefAlt],
    returns on a file of diploid calls with at least one sample, with or
    without a bound, it has stored the first [n] variants of the source that
    pass the identifier filter, for some [n], in source order: row [j] of the
    variant table is the metadata of the [j]-th of them and column [j] of the
    tensor holds its calls, sample by sample; the sample list is the one of
    the file, the tensor holds 8-bit counts, the names of the table's columns
    stay, and the two indexes are left as they were, even though the samples
    and variants they were built from have been replaced. *)
Theorem read_stores_leading_variants vcf region variants_ max_variants g g' l :
  cls g ≠ GenotypesPLINK_ → diploid vcf region →
  read vcf region variants_ max_variants g = (Return tt, g', l) →
  ∃ n a',
    let stored :=
      take n (List.filter (λ v, wanted variants_ (ID v)) (vcf_call vcf region)) in
    samples g' = vcf_samples vcf ∧
    Forall2 (λ variant row, _variant_arr (cls g) variant = Return row)
      stored (rows (variants g')) ∧
    names (variants g') = names (variants g) ∧
    data g' = Some a' ∧ nd_dtype a' = uint8 ∧
    shape a' = [length (vcf_samples vcf); length stored; channels (_prephased g)] ∧
    (∀ i j variant,
       i < length (vcf_samples vcf) → stored !! j = Some variant →
       cell_at a' i j = Some (nth i (counts (_prephased g) variant) [])) ∧
    (bound_of variants_ max_variants = None → stored ≠ []) ∧
    _samp_idx g' = _samp_idx g ∧ _var_idx g' = _var_idx g ∧
    cls g' = cls g ∧ _prephased g' = _prephased g.
Proof.
  intros _ Hdip (n & recs & Hrecs & Hne & ->)%read_Return_inv; [|done].
  apply mapM_decoded_Forall2 in Hrecs.
  pose proof (Forall2_length _ _ _ Hrecs) as Hlen.
  exists n. eexists. cbv zeta. simpl.
  split_and!; [done| |done|reflexivity|done|by rewrite Hlen| | |done..].
  - apply Forall2_fmap_r. eapply Forall2_impl; [exact Hrecs|]. by intros v rec [? _].
  - intros i j variant Hi Hj. unfold cell_at. simpl.
    destruct (Forall2_lookup_l _ _ _ _ _ Hrecs Hj) as (rec & Hrec & _ & <-).
    apply lookup_transpose; [done|]. by rewrite list_lookup_fmap, Hrec.
  - intros Hb Hnil. apply (Hne Hb). rewrite Hnil in Hlen. by destruct recs.
Qed.

Lemma read_stores_leading_variants_witness :
  ∃ n a',
    let stored :=
      take n (List.filter (λ v, wanted (Some {[ "rs2" ]}) (ID v)) (vcf_call ex_vcf None)) in
    let g := __init__ GenotypesRefAlt_ in
    let g' := (read ex_vcf None (Some {[ "rs2" ]}) None g).1.2 in
    samples g' = vcf_samples ex_vcf ∧
    Forall2 (λ variant row, _variant_arr (cls g) variant = Return row)
      stored (rows (variants g')) ∧
    names (variants g') = names (variants g) ∧
    data g' = Some a' ∧ nd_dtype a' = uint8 ∧
    shape a' = [length (vcf_samples ex_vcf); length stored; channels (_prephased g)] ∧
    (∀ i j variant,
       i < length (vcf_samples ex_vcf) → stored !! j = Some variant →
       cell_at a' i j = Some (nth i (counts (_prephased g) variant) [])) ∧
    (bound_of (Some {[ "rs2" ]}) None = None → stored ≠ []) ∧
    _samp_idx g' = _samp_idx g ∧ _var_idx g' = _var_idx g ∧
    cls g' = cls g ∧ _prephased g' = _prephased g.
Proof.
  apply (read_stores_leading_variants ex_vcf None (Some {[ "rs2" ]}) None
           (__init__ GenotypesRefAlt_)
           (read ex_vcf None (Some {[ "rs2" ]}) None (__init__ GenotypesRefAlt_)).1.2
           (read ex_vcf None (Some {[ "rs2" ]}) None (__init__ GenotypesRefAlt_)).2).
  - discriminate.
  - apply ex_vcf_diploid.
  - vm_compute. reflexivity.
Defined.

(** ** Reading without a bound *)

(** Without an identifier set and without [max_variants], [Genotypes.read] of
    the base class on a file of diploid calls with at least one sample and at
    least one record returns and stores every record of the source, in source
    order, after warning about the ever-growing array. *)
Theorem read_unbounded_stores_all vcf region g :
  cls g = Genotypes_ → diploid vcf region → vcf_call vcf region ≠ [] →
  ∃ g' a' l,
    read vcf region None None g = (Return tt, g', WarnEverGrowingArray :: l) ∧
    samples g' = vcf_samples vcf ∧
    Forall2 (λ variant row, _variant_arr Genotypes_ variant = Return row)
      (vcf_call vcf region) (rows (variants g')) ∧
    data g' = Some a' ∧
    shape a' =
      [length (vcf_samples vcf); length (vcf_call vcf region); channels (_prephased g)] ∧
    (∀ i j variant,
       i < length (vcf_samples vcf) → vcf_call vcf region !! j = Some variant →
       cell_at a' i j = Some (nth i (counts (_prephased g) variant) [])).
Proof.
  intros Hcls Hdip Hne.
  destruct (mapM_decoded_readable Genotypes_ vcf region (_prephased g)
              (vcf_call vcf region)) as [recs Hrecs]; [by split_and!|done|].
  rewrite (read_unbounded_eq _ _ _ Hdip). cbv zeta. unfold _iterate. rewrite Hcls.
  destruct (_iterate_from_all Genotypes_ (_prephased g) 0 (vcf_call vcf region) _ Hrecs)
    as [-> ->].
  apply mapM_decoded_Forall2 in Hrecs.
  pose proof (Forall2_length _ _ _ Hrecs) as Hlen.
  destruct recs as [|rec recs]; [by destruct (vcf_call vcf region)|].
  eexists _, _, _. split; [reflexivity|]. cbn [samples variants data set_data set_variants
    set_samples rows shape].
  split_and!; [done| |reflexivity|by rewrite Hlen|].
  - apply Forall2_fmap_r. eapply Forall2_impl; [exact Hrecs|]. by intros v r [? _].
  - intros i j variant Hi Hj. unfold cell_at. cbn [cells].
    destruct (Forall2_lookup_l _ _ _ _ _ Hrecs Hj) as (r & Hr & _ & <-).
    apply lookup_transpose; [done|]. by rewrite list_lookup_fmap, Hr.
Qed.

Lemma read_unbounded_stores_all_witness :
  ∃ g' a' l,
    read ex_vcf None None None (__init__ Genotypes_) =
      (Return tt, g', WarnEverGrowingArray :: l) ∧
    samples g' = vcf_samples ex_vcf ∧
    Forall2 (λ variant row, _variant_arr Genotypes_ variant = Return row)
      (vcf_call ex_vcf None) (rows (variants g')) ∧
    data g' = Some a' ∧
    shape a' =
      [length (vcf_samples ex_vcf); length (vcf_call ex_vcf None);
       channels (_prephased (__init__ Genotypes_))] ∧
    (∀ i j variant,
       i < length (vcf_samples ex_vcf) → vcf_call ex_vcf None !! j = Some variant →
       cell_at a' i j =
         Some (nth i (counts (_prephased (__init__ Genotypes_)) variant) [])).
Proof.
  apply (read_unbounded_stores_all ex_vcf None (__init__ Genotypes_) eq_refl ex_vcf_diploid).
  simpl. discriminate.
Defined.

Lemma ex_vcf_monomorphic_diploid : diploid ex_vcf_monomorphic None.
Proof. split; [done|]. repeat constructor. Qed.

(** On a file of diploid calls, a record without an alternate allele (a
    monomorphic site) anywhere in the source makes the unbounded [read] of
    [GenotypesRefAlt] raise [IndexError] from [record.ALT[0]], with nothing
    stored but the sample list; the base class reads the same source in
    full. *)
Theorem read_refalt_needs_alternate_allele vcf region g variant :
  diploid vcf region → variant ∈ vcf_call vcf region → ALT variant = [] →
  (cls g = GenotypesRefAlt_ →
   read vcf region None None g =
     (Raise IndexError, set_samples (vcf_samples vcf) g,
      [WarnEverGrowingArray; InfoLoadingFrom (length (vcf_samples vcf))])) ∧
  (cls g = Genotypes_ →
   ∃ g' l, read vcf region None None g = (Return tt, g', l) ∧
           length (rows (variants g')) = length (vcf_call vcf region)).
Proof.
  intros Hdip Hin Halt. split; intros Hcls.
  - rewrite (read_unbounded_eq _ _ _ Hdip). cbv zeta. unfold _iterate. rewrite Hcls.
    rewrite (_iterate_from_no_alt _ _ _ variant); [done| |done|done].
    apply Forall_forall. intros v Hv.
    destruct (diploid_record _ _ (_prephased g) _ Hdip Hv) as [Hblock _]. by eexists.
  - destruct (mapM_decoded_readable Genotypes_ vcf region (_prephased g)
                (vcf_call vcf region)) as [recs Hrecs]; [by split_and!|done|].
    rewrite (read_unbounded_eq _ _ _ Hdip). cbv zeta. unfold _iterate. rewrite Hcls.
    destruct (_iterate_from_all Genotypes_ (_prephased g) 0 (vcf_call vcf region) _ Hrecs)
      as [-> ->].
    apply mapM_Some_1, Forall2_length in Hrecs.
    destruct recs as [|rec recs].
    { destruct (vcf_call vcf region); [by apply elem_of_nil in Hin|done]. }
    eexists _, _. split; [reflexivity|]. simpl. by rewrite length_fmap, Hrecs.
Qed.

Lemma read_refalt_needs_alternate_allele_witness :
  (cls (__init__ GenotypesRefAlt_) = GenotypesRefAlt_ →
   read ex_vcf_monomorphic None None None (__init__ GenotypesRefAlt_) =
     (Raise IndexError, set_samples (vcf_samples ex_vcf_monomorphic) (__init__ GenotypesRefAlt_),
      [WarnEverGrowingArray; InfoLoadingFrom (length (vcf_samples ex_vcf_monomorphic))])) ∧
  (cls (__init__ GenotypesRefAlt_) = Genotypes_ →
   ∃ g' l, read ex_vcf_monomorphic None None None (__init__ GenotypesRefAlt_) =
             (Return tt, g', l) ∧
           length (rows (variants g')) = length (vcf_call ex_vcf_monomorphic None)).
Proof.
  apply (read_refalt_needs_alternate_allele ex_vcf_monomorphic None
           (__init__ GenotypesRefAlt_) ex_monomorphic ex_vcf_monomorphic_diploid).
  - simpl. set_solver.
  - reflexivity.
Defined.

(** ** The early exit of [Genotypes._iterate] *)

Lemma filter_wanted_none (vs : gset string) (src : list Variant) :
  (∀ v, v ∈ src → ID v ∉ vs) →
  List.filter (λ v, wanted (Some vs) (ID v)) src = [].
Proof.
  induction src as [|v src IH]; intros Hout; simpl; [done|].
  rewrite bool_decide_eq_false_2 by (apply Hout; by left).
  apply IH. intros v' Hv'. apply Hout. by right.
Qed.

(** With [k] records yielded so far, all of distinct identifiers of the set,
    and a remaining source whose identifiers are distinct from one another and
    from those, the generator yields every remaining matching record: when it
    takes the early exit, the whole set has been seen. *)
Lemma _iterate_from_unique c prephased (vs seen : gset string) k src recs :
  NoDup (ID <$> src) → seen ⊆ vs → size seen = k →
  (∀ v, v ∈ src → ID v ∉ seen) →
  mapM (decoded c prephased) (List.filter (λ v, wanted (Some vs) (ID v)) src) = Some recs →
  emitted (_iterate_from c prephased (Some vs) k src) = recs.
Proof.
  revert seen k recs. induction src as [|v src IH]; intros seen k recs Hnd Hsub Hsize Hnew.
  - simpl. by intros [= <-].
  - rewrite fmap_cons in Hnd. apply NoDup_cons in Hnd as [Hv Hnd].
    cbn [_iterate_from List.filter].
    change (wanted (Some vs) (ID v)) with (bool_decide (ID v ∈ vs)).
    destruct (decide (ID v ∈ vs)) as [Hin|Hin].
    + rewrite (bool_decide_eq_true_2 _ Hin).
      rewrite bool_decide_eq_false_2 by (intros Hn; by apply Hn).
      change (mapM ?f (?x :: ?l)) with (y ← f x; k ← mapM f l; mret (y :: k)).
      destruct (decoded c prephased v) as [rec|] eqn:Hdec; simpl; [|done].
      destruct (mapM _ _) as [recs'|] eqn:Hrecs; simpl; [|done]. intros [= <-].
      rewrite (go_on_Some _ _ _ _ _ Hdec). simpl. f_equal.
      apply (IH ({[ ID v ]} ∪ seen)); [done| | | |done].
      * apply union_subseteq. split; [by apply singleton_subseteq_l|done].
      * rewrite size_union, size_singleton, Hsize; [done|].
        apply disjoint_singleton_l. apply Hnew. by left.
      * intros v' Hv'. rewrite not_elem_of_union, not_elem_of_singleton. split.
        -- intros Heq. apply Hv. rewrite <- Heq. by apply list_elem_of_fmap_2.
        -- apply Hnew. by right.
    + rewrite (bool_decide_eq_false_2 _ Hin). rewrite bool_decide_eq_true_2 by done.
      destruct (size vs <=? k) eqn:Hle.
      * apply Nat.leb_le in Hle. simpl.
        assert (size vs ≤ size seen) as Hge by lia.
        pose proof (set_subseteq_size_eq seen vs Hsub Hge) as Heq. subst seen.
        assert (List.filter (λ v0 : Variant, bool_decide (ID v0 ∈ vs)) src = []) as ->.
        { apply filter_wanted_none. intros v' Hv'. apply Hnew. by right. }
        by intros [= <-].
      * simpl. apply (IH seen); [done|done|done|].
        intros v' Hv'. apply Hnew. by right.
Qed.

(** On a readable source (a class that inherits [_iterate], diploid calls, an
    alternate allele where the class asks for one) and with an identifier
    set, what [Genotypes._iterate] yields is always an initial part of the
    records of the matching variants of the source, in source order; and when
    no identifier occurs twice in the source, it yields all of them: the early
    exit then loses no record. *)
Theorem _iterate_early_exit_keeps_unique_ids c prephased vcf region (vs : gset string) :
  readable c vcf region →
  ∃ recs,
    Forall2 (λ variant rec,
               _variant_arr c variant = Return (rec_variants rec) ∧
               rec_data rec = counts prephased variant)
      (List.filter (λ v, wanted (Some vs) (ID v)) (vcf_call vcf region)) recs ∧
    (∃ n, emitted (_iterate c prephased vcf region (Some vs)) = take n recs) ∧
    (NoDup (ID <$> vcf_call vcf region) →
     emitted (_iterate c prephased vcf region (Some vs)) = recs).
Proof.
  intros Hread.
  destruct (mapM_decoded_readable c vcf region prephased
              (List.filter (λ v, wanted (Some vs) (ID v)) (vcf_call vcf region)) Hread)
    as [recs Hrecs].
  { intros v Hv. apply list_elem_of_In, filter_In in Hv as [Hv _].
    by apply list_elem_of_In. }
  exists recs. unfold _iterate. split_and!.
  - by apply mapM_decoded_Forall2.
  - destruct (_iterate_from_prefix c prephased (Some vs) 0 (vcf_call vcf region))
      as [n Hn].
    exists n. rewrite (mapM_take _ _ _ n Hrecs) in Hn. by injection Hn.
  - intros Hnd. apply (_iterate_from_unique c prephased vs ∅); [done| |done| |done].
    + apply empty_subseteq.
    + intros v _. apply not_elem_of_empty.
Qed.

Lemma _iterate_early_exit_keeps_unique_ids_witness :
  ∃ recs,
    Forall2 (λ variant rec,
               _variant_arr GenotypesRefAlt_ variant = Return (rec_variants rec) ∧
               rec_data rec = counts false variant)
      (List.filter (λ v, wanted (Some {[ "rs1"; "rs3" ]}) (ID v)) (vcf_call ex_vcf None))
      recs ∧
    (∃ n, emitted (_iterate GenotypesRefAlt_ false ex_vcf None (Some {[ "rs1"; "rs3" ]})) =
          take n recs) ∧
    (NoDup (ID <$> vcf_call ex_vcf None) →
     emitted (_iterate GenotypesRefAlt_ false ex_vcf None (Some {[ "rs1"; "rs3" ]})) = recs).
Proof.
  apply (_iterate_early_exit_keeps_unique_ids GenotypesRefAlt_ false ex_vcf None
           {[ "rs1"; "rs3" ]}).
  apply ex_vcf_readable. discriminate.
Defined.

(** When an identifier comes back after the set has been exhausted, the later
    record is lost. *)
Example _iterate_early_exit_repeated_id :
  rec_variants <$> emitted (_iterate Genotypes_ false ex_vcf_repeat None (Some {[ "rs1" ]})) =
    [mk_row "rs1" "1" 100 0.75%float None] ∧
  length (List.filter (λ v, wanted (Some {[ "rs1" ]}) (ID v))
            (vcf_call ex_vcf_repeat None)) = 2.
Proof. vm_compute. done. Qed.

(** ** What [load] returns, and what it refuses *)

Lemma cell_at_transpose n (blocks : list (list (list Z))) i j cell :
  transpose n blocks !! i ≫= (.!! j) = Some cell ↔
  i < n ∧ ∃ block, blocks !! j = Some block ∧ cell = nth i block [].
Proof.
  unfold transpose. rewrite list_lookup_fmap. split.
  - destruct (seq 0 n !! i) as [s|] eqn:Hs; simpl; [|done].
    apply lookup_seq in Hs as [-> Hi]. rewrite list_lookup_fmap.
    destruct (blocks !! j) as [block|]; simpl; [|done].
    intros [= <-]. split; [done|]. by exists block.
  - intros (Hi & block & Hj & ->). rewrite lookup_seq_lt by done. simpl.
    by rewrite list_lookup_fmap, Hj.
Qed.

Lemma length_transpose n (blocks : list (list (list Z))) :
  length (transpose n blocks) = n.
Proof. unfold transpose. by rewrite length_map, length_seq. Qed.

Lemma Forall_transpose_length n (blocks : list (list (list Z))) :
  Forall (λ row, length row = length blocks) (transpose n blocks).
Proof.
  unfold transpose. apply Forall_forall. intros row Hrow.
  apply list_elem_of_fmap in Hrow as (s & -> & _). by rewrite length_map.
Qed.

Lemma counts_fits prephased variant i :
  Forall (λ x, 0 ≤ x < 256)%Z (nth i (counts prephased variant) []).
Proof.
  unfold counts.
  destruct (nth_in_or_default i
              (map (λ g, take (channels prephased) (map to_uint8 g)) (genotypes variant)) [])
    as [Hin|Heq]; [|rewrite Heq; constructor].
  apply in_map_iff in Hin as (g & <- & _). apply Forall_take, Forall_forall.
  intros x Hx. apply list_elem_of_fmap in Hx as (y & -> & _).
  unfold to_uint8. apply Z.mod_pos_bound. lia.
Qed.

(** The first offender of a mask that fits the instance is always found. *)
Lemma first_offender_mask mk (m : list (list bool)) g :
  any2 m = true → length m ≤ length (samples g) →
  Forall (λ row, length row ≤ length (rows (variants g))) m →
  ∃ vid chrom pos s,
    first_offender mk (nonzero m) g = (Raise (ValueError (mk vid chrom pos s)), g, []).
Proof.
  intros Hany Hlen Hrows.
  destruct (nonzero_from_first m 0 Hany) as (i & j & rest & Hnz & [Hij _]).
  unfold entry in Hij. destruct (m !! i) as [row|] eqn:Hrow; simpl in Hij; [|done].
  assert (i < length (samples g)) as Hi.
  { apply lookup_lt_Some in Hrow. lia. }
  assert (j < length (rows (variants g))) as Hj.
  { apply lookup_lt_Some in Hij.
    pose proof (Forall_lookup_1 _ _ _ _ Hrows Hrow) as Hle. simpl in Hle. lia. }
  destruct (lookup_lt_is_Some_2 _ _ Hi) as [s Hs].
  destruct (lookup_lt_is_Some_2 _ _ Hj) as [v Hv].
  exists (v_id v), (v_chrom v), (v_pos v), s.
  by apply (first_offender_eq _ _ i j rest).
Qed.

Lemma nth_map_astype_bool (cell : list Z) k :
  nth k (map astype_bool cell) 0%Z = astype_bool (nth k cell 0%Z).
Proof. change 0%Z with (astype_bool 0) at 1. apply map_nth. Qed.

Lemma astype_bool_id x : (x = 0 ∨ x = 1)%Z → astype_bool x = x.
Proof. by intros [-> | ->]. Qed.

Lemma unphased_bool_spec x0 x1 x2 :
  (x0 = 0 ∨ x0 = 1)%Z → (x1 = 0 ∨ x1 = 1)%Z →
  Z.land (Z.lxor (astype_bool x0) (astype_bool x1)) (invert bool_ (astype_bool x2)) = 0%Z ↔
  (x0 ≠ x1 → x2 ≠ 0%Z).
Proof.
  intros H0 H1. unfold invert. unfold astype_bool at 3.
  destruct (x2 =? 0)%Z eqn:E2; [apply Z.eqb_eq in E2|apply Z.eqb_neq in E2];
    destruct H0 as [-> | ->], H1 as [-> | ->]; simpl; split; try done;
    try (intros H; by destruct H).
Qed.

Lemma first_two_binary (cell : list Z) :
  Forall (λ x, 0 ≤ x < 256)%Z cell →
  existsb (λ x, (1 <? x)%Z) (take 2 cell) = false ↔
  Forall (λ x, x = 0 ∨ x = 1)%Z (take 2 cell).
Proof.
  intros Hfit. apply (Forall_take _ 2) in Hfit. induction Hfit as [|x l Hx _ IH]; simpl.
  - split; [constructor|done].
  - rewrite orb_false_iff, Forall_cons, IH, Z.ltb_ge. split; intros [? ?]; split; (done || lia).
Qed.

Lemma nth_take_binary (cell : list Z) k :
  k < 2 → Forall (λ x, x = 0 ∨ x = 1)%Z (take 2 cell) →
  (nth k cell 0 = 0 ∨ nth k cell 0 = 1)%Z.
Proof.
  intros Hk Hb. destruct (decide (k < length cell)) as [Hlt|Hge].
  - destruct (lookup_lt_is_Some_2 cell k Hlt) as [x Hx].
    rewrite (nth_lookup_Some _ _ _ _ Hx).
    apply (Forall_lookup_1 _ _ k x Hb). by rewrite lookup_take_lt.
  - left. apply nth_overflow. lia.
Qed.

(** What the three masks say about one cell of a count tensor. *)
Lemma valid_call_masks (cell : list Z) :
  Forall (λ x, 0 ≤ x < 256)%Z cell →
  valid_call cell ↔
  existsb (λ x, (1 <? x)%Z) (take 2 cell) = false ∧
  negb (unphased_cell bool_ (map astype_bool cell) =? 0)%Z = false.
Proof.
  intros Hfit. unfold valid_call, unphased_cell, bitand, bitxor.
  rewrite (first_two_binary _ Hfit), !nth_map_astype_bool, negb_false_iff, Z.eqb_eq.
  split; intros [Hb H]; (split; [done|]);
    pose proof (nth_take_binary cell 0 ltac:(lia) Hb) as H0;
    pose proof (nth_take_binary cell 1 ltac:(lia) Hb) as H1;
    by apply unphased_bool_spec.
Qed.

Lemma missing_is_multiallelic (cell : list Z) :
  existsb (λ x, (x =? uint8_max)%Z) (take 2 cell) = true →
  existsb (λ x, (1 <? x)%Z) (take 2 cell) = true.
Proof.
  rewrite !existsb_exists. intros (x & Hin & Hx). exists x. split; [done|].
  apply Z.eqb_eq in Hx. subst x. done.
Qed.

Lemma cell_at_astype_bool a i j :
  cell_at (astype_bool_array a) i j = map astype_bool <$> cell_at a i j.
Proof.
  unfold cell_at, astype_bool_array. simpl. rewrite list_lookup_fmap.
  destruct (cells a !! i) as [row|]; simpl; [|done]. by rewrite list_lookup_fmap.
Qed.

(** The outcome of the three checks of [load] on a tensor of counts with
    three channels, cell by cell. *)
Lemma checks_cases g a d0 d1 :
  data g = Some a → shape a = [d0; d1; 3] → nd_dtype a = uint8 → _prephased g = false →
  length (cells a) ≤ length (samples g) →
  Forall (λ row, length row ≤ length (rows (variants g))) (cells a) →
  (∀ i j cell, cell_at a i j = Some cell → Forall (λ x, 0 ≤ x < 256)%Z cell) →
  ((∀ i j cell, cell_at a i j = Some cell → valid_call cell) ∧
   (check_missing false;; check_biallelic false;; check_phase) g =
     (Return tt, set_data (first_two_channels (astype_bool_array a)) g, [])) ∨
  ((∃ i j cell, cell_at a i j = Some cell ∧ ¬ valid_call cell) ∧
   ∃ mk vid chrom pos s g',
     (check_missing false;; check_biallelic false;; check_phase) g =
       (Raise (ValueError (mk vid chrom pos s)), g', []) ∧
     (mk = MissingGenotype ∨ mk = MultiallelicVariant ∨ mk = UnphasedVariant) ∧
     ((∃ i j, missing_at a i j) ↔ mk = MissingGenotype)).
Proof.
  intros Hd Hs Hu Hp Hlen Hrows Hfit. rewrite (checks_eq _ _ _ _ Hd Hs Hu Hp). cbv zeta.
  assert (∀ (f : list Z → bool),
            length (map (map f) (cells a)) ≤ length (samples g) ∧
            Forall (λ row : list bool, length row ≤ length (rows (variants g)))
              (map (map f) (cells a))) as Hdims.
  { intros f. rewrite length_map. split; [done|].
    apply Forall_fmap. eapply Forall_impl; [exact Hrows|].
    intros row Hrow. simpl. by rewrite length_map. }
  assert (∀ i j, entry (multiallelic_mask a) i j = Some true →
                 ∃ cell, cell_at a i j = Some cell ∧ ¬ valid_call cell) as Hmulti.
  { intros i j. unfold multiallelic_mask. rewrite entry_map. fold (cell_at a i j).
    destruct (cell_at a i j) as [cell|] eqn:Hcell; simpl; [|done].
    intros [= Hex]. exists cell. split; [done|].
    rewrite (valid_call_masks _ (Hfit _ _ _ Hcell)). intros [Hno _]. congruence. }
  destruct (any2 (missing_mask a)) eqn:Hmiss.
  { right. destruct (nonzero_from_first _ 0 Hmiss) as (i & j & _ & _ & [Hij _]).
    split.
    - assert (entry (multiallelic_mask a) i j = Some true) as Hm.
      { revert Hij. unfold missing_mask, multiallelic_mask.
        rewrite !entry_map. destruct (cells a !! i ≫= (.!! j)) as [cell|]; simpl; [|done].
        intros [= H]. by rewrite (missing_is_multiallelic _ H). }
      destruct (Hmulti i j Hm) as (cell & ? & ?). by exists i, j, cell.
    - destruct (Hdims (λ cell, existsb (λ x, (x =? uint8_max)%Z) (take 2 cell)))
        as [Hl Hr].
      destruct (first_offender_mask MissingGenotype (missing_mask a) g Hmiss Hl Hr)
        as (vid & chrom & pos & s & Hfo).
      exists MissingGenotype, vid, chrom, pos, s, g. split_and!; [done|by left|].
      split; [done|]. intros _. exists i, j. by apply missing_at_entry. }
  assert (¬ ∃ i j, missing_at a i j) as Hnomiss.
  { intros (i & j & Hij%missing_at_entry). by apply (any2_false _ i j) in Hmiss. }
  destruct (any2 (multiallelic_mask a)) eqn:Hmul.
  { right. destruct (nonzero_from_first _ 0 Hmul) as (i & j & _ & _ & [Hij _]).
    split; [destruct (Hmulti i j Hij) as (cell & ? & ?); by exists i, j, cell|].
    destruct (Hdims (λ cell, existsb (λ x, (1 <? x)%Z) (take 2 cell))) as [Hl Hr].
    destruct (first_offender_mask MultiallelicVariant (multiallelic_mask a) g Hmul Hl Hr)
      as (vid & chrom & pos & s & Hfo).
    exists MultiallelicVariant, vid, chrom, pos, s, g.
    split_and!; [done|right; by left|]. split; [done|].
    intros H; apply (f_equal (λ f, f EmptyString EmptyString 0%Z EmptyString)) in H;
      discriminate. }
  assert (∀ i j cell, cell_at a i j = Some cell →
            existsb (λ x, (1 <? x)%Z) (take 2 cell) = false) as Hbin.
  { intros i j cell Hcell. pose proof (any2_false _ i j Hmul) as Hno.
    unfold multiallelic_mask in Hno. rewrite entry_map in Hno. fold (cell_at a i j) in Hno.
    rewrite Hcell in Hno. simpl in Hno. destruct (existsb _ _); [by destruct Hno|done]. }
  assert (∀ i j, entry (unphased_mask (astype_bool_array a)) i j =
                 (λ cell, negb (unphased_cell bool_ (map astype_bool cell) =? 0)%Z)
                   <$> cell_at a i j) as Hentry.
  { intros i j. unfold unphased_mask. rewrite entry_map.
    fold (cell_at (astype_bool_array a) i j). rewrite cell_at_astype_bool.
    by destruct (cell_at a i j). }
  destruct (any2 (unphased_mask (astype_bool_array a))) eqn:Hunph.
  - right. destruct (nonzero_from_first _ 0 Hunph) as (i & j & _ & _ & [Hij _]). split.
    + rewrite Hentry in Hij. destruct (cell_at a i j) as [cell|] eqn:Hcell; [|done].
      exists i, j, cell. split; [done|].
      rewrite (valid_call_masks _ (Hfit _ _ _ Hcell)). intros [_ Hno].
      simpl in Hij. congruence.
    + assert (length (unphased_mask (astype_bool_array a)) ≤ length (samples g) ∧
              Forall (λ row : list bool, length row ≤ length (rows (variants g)))
                (unphased_mask (astype_bool_array a))) as [Hl Hr].
      { unfold unphased_mask, astype_bool_array. simpl. rewrite !length_map.
        split; [done|]. apply Forall_fmap, Forall_fmap.
        eapply Forall_impl; [exact Hrows|]. intros row Hrow. simpl.
        by rewrite !length_map. }
      destruct (first_offender_mask UnphasedVariant _
                  (set_data (astype_bool_array a) g) Hunph Hl Hr)
        as (vid & chrom & pos & s & Hfo).
      exists UnphasedVariant, vid, chrom, pos, s, (set_data (astype_bool_array a) g).
      split_and!; [done|right; by right|]. split; [done|].
    intros H; apply (f_equal (λ f, f EmptyString EmptyString 0%Z EmptyString)) in H;
      discriminate.
  - left. split; [|done]. intros i j cell Hcell.
    rewrite (valid_call_masks _ (Hfit _ _ _ Hcell)). split; [by eapply Hbin|].
    pose proof (any2_false _ i j Hunph) as Hno. rewrite Hentry, Hcell in Hno. simpl in Hno.
    destruct (negb _); [by destruct Hno|done].
Qed.

(** The instance [read] leaves satisfies the side conditions of
    [checks_cases]. *)
Lemma read_result_fits (vs : list string) (nms : list string) (recs : list Record_)
    c prephased (stored : list Variant) g0 :
  Forall2 (λ variant rec,
             _variant_arr c variant = Return (rec_variants rec) ∧
             rec_data rec = counts prephased variant) stored recs →
  let a := mk_ndarray uint8 [length vs; length recs; 3]
             (transpose (length vs) (rec_data <$> recs)) in
  let g := set_data a
             (set_variants (mk_recarray nms (rec_variants <$> recs))
                (set_samples vs g0)) in
  length (cells a) ≤ length (samples g) ∧
  Forall (λ row, length row ≤ length (rows (variants g))) (cells a) ∧
  (∀ i j cell, cell_at a i j = Some cell → Forall (λ x, 0 ≤ x < 256)%Z cell) ∧
  (∀ i j cell, cell_at a i j = Some cell ↔
     i < length vs ∧ ∃ variant, stored !! j = Some variant ∧
                                cell = nth i (counts prephased variant) []).
Proof.
  intros Hrecs a g. simpl.
  assert (∀ i j cell, cell_at a i j = Some cell ↔
            i < length vs ∧ ∃ variant, stored !! j = Some variant ∧
                                       cell = nth i (counts prephased variant) [])
    as Hcell.
  { intros i j cell. unfold cell_at. simpl. rewrite cell_at_transpose.
    rewrite list_lookup_fmap. split.
    - intros (Hi & block & Hj & ->). split; [done|].
      destruct (recs !! j) as [rec|] eqn:Hrec; simpl in Hj; [|done]. injection Hj as <-.
      destruct (Forall2_lookup_r _ _ _ _ _ Hrecs Hrec) as (variant & Hv & _ & ->).
      by exists variant.
    - intros (Hi & variant & Hv & ->). split; [done|].
      destruct (Forall2_lookup_l _ _ _ _ _ Hrecs Hv) as (rec & -> & _ & <-).
      by eexists. }
  split_and!; [by rewrite length_transpose| | |done].
  - eapply Forall_impl; [apply Forall_transpose_length|]. intros row ->.
    by rewrite !length_fmap.
  - intros i j cell (_ & variant & _ & ->)%Hcell. apply counts_fits.
Qed.

(** Whenever [load] of [Genotypes] or [GenotypesRefAlt] returns on a file of
    diploid calls with at least one sample, the instance holds the first [n]
    matching variants of the source, for some [n]: its class, samples and
    variant rows are those of the file, it is not marked as pre-phased, its
    tensor is boolean with two channels and aligned with samples and variants,
    every call of a stored variant was a valid call in the file (alleles 0 or
    1, heterozygous calls phased), and the tensor holds its two alleles
    unchanged. *)
Theorem load_returns_validated c vcf region variants_ g l :
  c ≠ GenotypesPLINK_ → diploid vcf region →
  load c vcf region variants_ = (Return g, l) →
  ∃ n a,
    let stored :=
      take n (List.filter (λ v, wanted variants_ (ID v)) (vcf_call vcf region)) in
    cls g = c ∧ samples g = vcf_samples vcf ∧ _prephased g = false ∧
    _samp_idx g = None ∧ _var_idx g = None ∧
    Forall2 (λ variant row, _variant_arr c variant = Return row)
      stored (rows (variants g)) ∧
    data g = Some a ∧ nd_dtype a = bool_ ∧
    shape a = [length (vcf_samples vcf); length stored; 2] ∧
    ∀ i j variant,
      i < length (vcf_samples vcf) → stored !! j = Some variant →
      valid_call (nth i (counts false variant) []) ∧
      cell_at a i j = Some (take 2 (nth i (counts false variant) [])).
Proof.
  intros _ Hdip (g1 & l1 & l2 & Hread & Hchecks)%load_Return_inv.
  apply read_Return_inv in Hread as (n & recs & Hrecs & _ & ->); [|done].
  apply mapM_decoded_Forall2 in Hrecs. simpl in Hrecs.
  pose proof (Forall2_length _ _ _ Hrecs) as Hlen.
  destruct (read_result_fits (vcf_samples vcf) (names (variants (__init__ c))) recs c false _
              (__init__ c) Hrecs) as (Hl & Hr & Hfit & Hcell).
  match type of Hchecks with
  | _ ?g1 = _ =>
      destruct (checks_cases g1
                  (mk_ndarray uint8 [length (vcf_samples vcf); length recs; 3]
                     (transpose (length (vcf_samples vcf)) (rec_data <$> recs)))
                  (length (vcf_samples vcf)) (length recs)
                  eq_refl eq_refl eq_refl eq_refl Hl Hr Hfit)
        as [[Hvalid Hrun]|[_ (mk & vid & chrom & pos & s & g' & Hrun & _)]]
  end; simpl in Hchecks, Hrun; rewrite Hrun in Hchecks; [|done].
  injection Hchecks as <- _.
  exists n. eexists. cbv zeta. simpl.
  split_and!; [done..| |reflexivity|done|by rewrite Hlen|].
  - apply Forall2_fmap_r. eapply Forall2_impl; [exact Hrecs|]. by intros v rec [? _].
  - intros i j variant Hi Hj.
    assert (cell_at
              (mk_ndarray uint8 [length (vcf_samples vcf); length recs; 3]
                 (transpose (length (vcf_samples vcf)) (rec_data <$> recs))) i j =
            Some (nth i (counts false variant) [])) as Hc.
    { apply Hcell. split; [done|]. by exists variant. }
    pose proof (Hvalid _ _ _ Hc) as Hv. split; [done|].
    rewrite (cell_at_first_two_channels _ (length (vcf_samples vcf)) (length recs) 3)
      by done.
    rewrite cell_at_astype_bool, Hc. simpl. f_equal.
    destruct Hv as [Hb _]. clear -Hb. revert Hb.
    generalize (nth i (counts false variant) []). intros cell Hb.
    change (take 2 (astype_bool <$> cell) = take 2 cell).
    rewrite <- fmap_take. induction Hb as [|x xs Hx _ IH]; [done|].
    rewrite fmap_cons. by rewrite (astype_bool_id x Hx), IH.
Qed.

Lemma load_returns_validated_witness :
  ∃ n a,
    let stored :=
      take n (List.filter (λ v, wanted None (ID v)) (vcf_call ex_vcf None)) in
    cls ex_loaded = Genotypes_ ∧ samples ex_loaded = vcf_samples ex_vcf ∧
    _prephased ex_loaded = false ∧
    _samp_idx ex_loaded = None ∧ _var_idx ex_loaded = None ∧
    Forall2 (λ variant row, _variant_arr Genotypes_ variant = Return row)
      stored (rows (variants ex_loaded)) ∧
    data ex_loaded = Some a ∧ nd_dtype a = bool_ ∧
    shape a = [length (vcf_samples ex_vcf); length stored; 2] ∧
    ∀ i j variant,
      i < length (vcf_samples ex_vcf) → stored !! j = Some variant →
      valid_call (nth i (counts false variant) []) ∧
      cell_at a i j = Some (take 2 (nth i (counts false variant) [])).
Proof.
  apply (load_returns_validated Genotypes_ ex_vcf None None ex_loaded
           [WarnEverGrowingArray; InfoLoadingFrom 2; InfoCopying 3;
            InfoTransposing [3; 2; 3]]).
  - discriminate.
  - apply ex_vcf_diploid.
  - vm_compute. reflexivity.
Defined.

(** Conversely, for [Genotypes] and [GenotypesRefAlt] on a file of diploid
    calls with at least one sample: once [read] has returned, a single stored
    call that is not a valid call makes [load] raise a [ValueError] that names
    a variant and a sample; it is the error about a missing genotype exactly
    when some stored call holds the missing sentinel 255, which takes
    precedence over the two other errors. *)
Theorem load_rejects_invalid_call c vcf region variants_ g1 l1 a i j cell :
  c ≠ GenotypesPLINK_ → diploid vcf region →
  read vcf region variants_ None (__init__ c) = (Return tt, g1, l1) →
  data g1 = Some a → cell_at a i j = Some cell → ¬ valid_call cell →
  ∃ mk vid chrom pos s l,
    load c vcf region variants_ = (Raise (ValueError (mk vid chrom pos s)), l) ∧
    (mk = MissingGenotype ∨ mk = MultiallelicVariant ∨ mk = UnphasedVariant) ∧
    ((∃ i' j', missing_at a i' j') ↔ mk = MissingGenotype).
Proof.
  intros _ Hdip Hread Hd Hcell Hbad. pose proof Hread as Hread'.
  apply read_Return_inv in Hread' as (n & recs & Hrecs & _ & ->); [|done].
  apply mapM_decoded_Forall2 in Hrecs. simpl in Hrecs, Hd. injection Hd as <-.
  destruct (read_result_fits (vcf_samples vcf) (names (variants (__init__ c))) recs c false _
              (__init__ c) Hrecs) as (Hl & Hr & Hfit & _).
  match type of Hread with
  | _ = (_, ?g1, _) =>
      destruct (checks_cases g1
                  (mk_ndarray uint8 [length (vcf_samples vcf); length recs; 3]
                     (transpose (length (vcf_samples vcf)) (rec_data <$> recs)))
                  (length (vcf_samples vcf)) (length recs)
                  eq_refl eq_refl eq_refl eq_refl Hl Hr Hfit)
        as [[Hvalid _]|[_ (mk & vid & chrom & pos & s & g' & Hrun & Hmk & Hmiss)]]
  end.
  { destruct Hbad. by eapply Hvalid. }
  exists mk, vid, chrom, pos, s, (l1 ++ []). split_and!; [|done..].
  unfold load. cbv zeta. unfold mbind at 1, M_bind at 1. rewrite Hread.
  cbv beta iota. by rewrite Hrun.
Qed.

Lemma load_rejects_invalid_call_witness :
  ∃ mk vid chrom pos s l,
    load Genotypes_ ex_vcf_missing None None =
      (Raise (ValueError (mk vid chrom pos s)), l) ∧
    (mk = MissingGenotype ∨ mk = MultiallelicVariant ∨ mk = UnphasedVariant) ∧
    ((∃ i' j', missing_at
                 (mk_ndarray uint8 [2; 2; 3]
                    [[[1; 1; 1]; [0; 0; 1]]; [[255; 1; 1]; [1; 0; 1]]]%Z) i' j') ↔
     mk = MissingGenotype).
Proof.
  eapply (load_rejects_invalid_call Genotypes_ ex_vcf_missing None None _ _ _ 1 0
            [255; 1; 1]%Z).
  - discriminate.
  - split; [done|]. repeat constructor.
  - vm_compute. reflexivity.
  - reflexivity.
  - reflexivity.
  - intros [Hb _]. apply Forall_cons in Hb as [[?|?] _]; discriminate.
Defined.

(** ** Loading when no record matches *)

Lemma _iterate_from_none c prephased variants_ m j k src :
  List.filter (λ v, wanted variants_ (ID v)) src = [] →
  emitted (_iterate_from c prephased variants_ k src) = [] ∧
  fill m j (_iterate_from c prephased variants_ k src) = Return [].
Proof.
  revert k. induction src as [|v src IH]; intros k; cbn [_iterate_from List.filter]; [done|].
  destruct (wanted variants_ (ID v)) eqn:Hw; [done|]. intros Hnil.
  destruct variants_ as [vs|]; [|done]. simpl in Hw.
  apply bool_decide_eq_false in Hw. rewrite bool_decide_eq_true_2 by done.
  destruct (size vs <=? k); simpl; [done|by apply IH].
Qed.

Lemma transpose_nil n : transpose n [] = replicate n [].
Proof.
  unfold transpose. simpl. generalize 0. induction n as [|n IH]; intros s; simpl; [done|].
  by rewrite IH.
Qed.

Lemma any2_replicate_nil n : any2 (replicate n []) = false.
Proof. unfold any2. induction n as [|n IH]; simpl; [done|by rewrite IH]. Qed.

(** When no record of the source passes the identifier filter, the two modes
    of [read] part ways inside [load] of [Genotypes] and [GenotypesRefAlt]: without an identifier set the empty
    list of blocks becomes a one-dimensional array, which cannot be
    transposed, and [load] raises a [ValueError]; with an identifier set the
    preallocated arrays are cut down to length zero, and [load] returns an
    instance with the samples of the file, no variant, and an empty boolean
    tensor of two channels, after warning that nothing could be loaded. *)
Theorem load_without_matching_record c vcf region variants_ :
  c ≠ GenotypesPLINK_ →
  List.filter (λ v, wanted variants_ (ID v)) (vcf_call vcf region) = [] →
  let n := length (vcf_samples vcf) in
  match variants_ with
  | None =>
      load c vcf region None =
        (Raise (ValueError AxesDontMatch),
         [WarnEverGrowingArray; InfoLoadingFrom n; InfoCopying 0; WarnFailedToLoad;
          InfoTransposing [0]])
  | Some vs =>
      load c vcf region (Some vs) =
        (Return
           (mk_Genotypes c (vcf_samples vcf) (mk_recarray (init_names c) [])
              (Some (mk_ndarray bool_ [n; 0; 2] (replicate n []))) false None None),
         [InfoLoadingFrom n] ++
         (if 0 <? size vs then [InfoRemovingPreallocated (size vs)] else []) ++
         [WarnFailedToLoad; InfoTransposing [0; n; 3]])
  end.
Proof.
  intros _ Hnil n. destruct variants_ as [vs|].
  - unfold load. cbv zeta. unfold mbind at 1, M_bind at 1.
    destruct (_iterate_from_none c false (Some vs) (size vs) 0 0 _ Hnil) as [Hemit Hfill].
    rewrite (read_bounded_fits vcf region (Some vs) None (__init__ c) (size vs));
      [|unfold _iterate; simpl; rewrite Hemit; constructor|done].
    cbv zeta. unfold _iterate. simpl in Hfill |- *.
    rewrite Hfill. cbn [length fmap list_fmap].
    rewrite transpose_nil.
    match goal with
    | |- context [(check_missing false;; check_biallelic false;; check_phase) ?g1] =>
        rewrite (checks_eq g1 (mk_ndarray uint8 [n; 0; 3] (replicate n [])) n 0
                   eq_refl eq_refl eq_refl eq_refl)
    end.
    cbv zeta.
    assert (∀ f : list Z → bool, map (map f) (replicate n []) = replicate n []) as Hmap.
    { intros f. clear. induction n as [|n IH]; simpl; [done|by rewrite IH]. }
    assert (map (map (map astype_bool)) (replicate n ([] : list (list Z))) = replicate n [])
      as Hbool.
    { clear. induction n as [|n IH]; simpl; [done|by rewrite IH]. }
    assert (map (map (take 2)) (replicate n ([] : list (list Z))) = replicate n [])
      as Htake.
    { clear. induction n as [|n IH]; simpl; [done|by rewrite IH]. }
    unfold missing_mask, multiallelic_mask, unphased_mask, astype_bool_array,
      first_two_channels. cbn [cells shape nd_dtype].
    rewrite Hbool, !Hmap, Htake, any2_replicate_nil.
    rewrite Nat.sub_0_r, app_nil_r, bool_decide_eq_true_2 by apply list_elem_of_here.
    by destruct (0 <? size vs).
  - assert (vcf_call vcf region = []) as Hsrc.
    { by destruct (vcf_call vcf region). }
    unfold load. cbv zeta. unfold mbind at 1, M_bind at 1.
    by rewrite (read_unbounded_nothing _ _ _ Hsrc).
Qed.

Lemma load_without_matching_record_witness :
  load Genotypes_ ex_vcf None (Some {[ "rs7" ]}) =
    (Return
       (mk_Genotypes Genotypes_ (vcf_samples ex_vcf) (mk_recarray (init_names Genotypes_) [])
          (Some (mk_ndarray bool_ [length (vcf_samples ex_vcf); 0; 2]
                   (replicate (length (vcf_samples ex_vcf)) []))) false None None),
     [InfoLoadingFrom (length (vcf_samples ex_vcf))] ++
     (if 0 <? size ({[ "rs7" ]} : gset string)
      then [InfoRemovingPreallocated (size ({[ "rs7" ]} : gset string))] else []) ++
     [WarnFailedToLoad; InfoTransposing [0; length (vcf_samples ex_vcf); 3]]).
Proof.
  apply (load_without_matching_record Genotypes_ ex_vcf None (Some {[ "rs7" ]})).
  - discriminate.
  - vm_compute. reflexivity.
Defined.

Example load_of_empty_file :
  load Genotypes_ ex_vcf_empty None None =
    (Raise (ValueError AxesDontMatch),
     [WarnEverGrowingArray; InfoLoadingFrom 2; InfoCopying 0; WarnFailedToLoad;
      InfoTransposing [0]]).
Proof. vm_compute. reflexivity. Qed.

(** ** The biallelic check, variant by variant *)

Lemma multiallelic_at_entry a i j :
  multiallelic_at a i j ↔ entry (multiallelic_mask a) i j = Some true.
Proof.
  unfold multiallelic_at, multiallelic_mask. rewrite entry_map. fold (cell_at a i j).
  destruct (cell_at a i j) as [cell|]; simpl.
  - split.
    + intros (? & [= <-] & Hex). f_equal. apply existsb_exists.
      apply Exists_exists in Hex as (x & Hin & Hx). exists x.
      split; [by apply list_elem_of_In|by apply Z.ltb_lt].
    + intros [= Hex]. exists cell. split; [done|].
      apply existsb_exists in Hex as (x & Hin & Hx). apply Exists_exists. exists x.
      split; [by apply list_elem_of_In|by apply Z.ltb_lt].
  - split; [by intros (? & ? & _)|done].
Qed.

(** The columns [np.nonzero] reports are the columns with a true entry. *)
Lemma elem_of_nonzero_cols_iff (m : list (list bool)) i0 j :
  j ∈ (nonzero_from i0 m).*2 ↔ ∃ i, entry m i j = Some true.
Proof.
  split; [apply elem_of_nonzero_cols|].
  revert i0. induction m as [|row m IH]; intros i0 [i Hi]; [by destruct i|].
  simpl. rewrite fmap_app, elem_of_app. destruct i as [|i].
  - left. unfold entry in Hi. simpl in Hi.
    apply list_elem_of_fmap. exists (i0, j). split; [done|].
    apply list_elem_of_fmap. exists j. split; [done|].
    apply elem_of_true_positions. by exists j.
  - right. apply IH. by exists i.
Qed.

Lemma multiallelic_column_iff a j :
  multiallelic_column a j = true ↔ ∃ i, multiallelic_at a i j.
Proof.
  unfold multiallelic_column. rewrite existsb_exists. split.
  - intros (row & Hin & Hrow). apply list_elem_of_In, list_elem_of_lookup in Hin as [i Hi].
    exists i. apply multiallelic_at_entry. unfold multiallelic_mask. rewrite entry_map, Hi.
    simpl. destruct (row !! j) as [cell|]; simpl in *; [by rewrite Hrow|done].
  - intros [i Hi]. apply multiallelic_at_entry in Hi. unfold multiallelic_mask in Hi.
    rewrite entry_map in Hi. destruct (cells a !! i) as [row|] eqn:Hrow; simpl in Hi; [|done].
    exists row. split; [by eapply list_elem_of_In, list_elem_of_lookup_2|].
    destruct (row !! j) as [cell|]; simpl in *; [by injection Hi|done].
Qed.

Lemma delete_from_positions {A} (l : list A) i idx :
  delete_from i idx l =
  (List.filter (λ p : nat * A, negb (bool_decide (p.1 ∈ idx))) (zip (seq i (length l)) l)).*2.
Proof.
  revert i. induction l as [|x l IH]; intros i; simpl; [done|].
  case_bool_decide; simpl; by rewrite IH.
Qed.

Lemma filter_ext_positions {A} (f g : nat → bool) (l : list A) i :
  (∀ j, f j = g j) →
  List.filter (λ p : nat * A, f p.1) (zip (seq i (length l)) l) =
  List.filter (λ p : nat * A, g p.1) (zip (seq i (length l)) l).
Proof. intros Hfg. apply List.filter_ext. intros p. apply Hfg. Qed.

Lemma at_positions_all {A} (keep : nat → bool) (l : list A) :
  (∀ j, keep j = true) → at_positions keep l = l.
Proof.
  intros Hall. unfold at_positions.
  rewrite (filter_ext_positions keep (λ _, true) l 0 Hall).
  rewrite filter_all; [by rewrite snd_zip by (rewrite length_seq; lia)|].
  by apply Forall_forall.
Qed.

(** The columns the discard mode deletes are the multiallelic ones. *)
Lemma delete_multiallelic {A} a (l : list A) :
  delete l (nonzero (multiallelic_mask a)).*2 =
  at_positions (λ j, negb (multiallelic_column a j)) l.
Proof.
  unfold delete, at_positions. rewrite delete_from_positions. f_equal.
  apply List.filter_ext. intros [j x]. simpl. f_equal.
  apply eq_true_iff_eq. rewrite bool_decide_eq_true, multiallelic_column_iff.
  unfold nonzero. rewrite elem_of_nonzero_cols_iff.
  split; intros [i Hi]; exists i; by apply multiallelic_at_entry.
Qed.

(** On an instance whose tensor of counts is a proper array aligned with
    samples and variants, [check_biallelic]
    without discarding raises a [ValueError] naming the variant and the sample
    of the first (sample, variant) pair, sample by sample, one of whose two
    alleles is above 1, and leaves the instance as it was; with discarding it
    never raises and removes exactly the variants at which some sample is
    multiallelic, from the tensor and the variant table alike, keeps samples
    and sample index, resets the variant index when it removed something,
    converts what is left to booleans, and warns when no variant is left.
    The count it logs is the number of multiallelic genotypes, not of
    variants. *)
Theorem check_biallelic_by_variant g a :
  aligned g → data g = Some a → nd_dtype a = uint8 →
  ((∃ i j, multiallelic_at a i j) →
   ∃ i j v s,
     first_pair (multiallelic_at a) i j ∧
     rows (variants g) !! j = Some v ∧ samples g !! i = Some s ∧
     check_biallelic false g =
       (Raise (ValueError (MultiallelicVariant (v_id v) (v_chrom v) (v_pos v) s)), g, [])) ∧
  ((∀ i j, ¬ multiallelic_at a i j) →
   check_biallelic false g = (Return tt, set_data (astype_bool_array a) g, [])) ∧
  (∃ g' a' l,
     let keep := λ j, negb (multiallelic_column a j) in
     check_biallelic true g = (Return tt, g', l) ∧
     data g' = Some a' ∧ nd_dtype a' = bool_ ∧
     cells a' = map (λ row, map (map astype_bool) (at_positions keep row)) (cells a) ∧
     rows (variants g') = at_positions keep (rows (variants g)) ∧
     names (variants g') = names (variants g) ∧
     samples g' = samples g ∧ _samp_idx g' = _samp_idx g ∧
     ((∃ i j, multiallelic_at a i j) →
      _var_idx g' = None ∧
      head l = Some (InfoIgnoringMultiallelic (length (nonzero (multiallelic_mask a))))) ∧
     ((∀ i j, ¬ multiallelic_at a i j) → _var_idx g' = _var_idx g) ∧
     (rows (variants g') = [] → last l = Some WarnAllVariantsDiscarded) ∧
     aligned g').
Proof.
  intros Hal Hd Hu. pose proof (aligned_forget g Hal) as Hwf.
  destruct (wf_inv _ Hwf) as (a0 & d0 & d1 & d2 & Hd0 & Hs & Hl & Hc & Hin & H0 & H1 & Hcv).
  simpl in Hd0, H0, H1. rewrite Hd in Hd0. injection Hd0 as <-.
  assert (nd_dtype a ≠ bool_) as Hnb by (rewrite Hu; discriminate).
  assert (any2 (multiallelic_mask a) = false → ∀ i j, ¬ multiallelic_at a i j) as Hnone.
  { intros Hany i j Hij%multiallelic_at_entry. by apply (any2_false _ i j) in Hany. }
  split_and!.
  - intros (i & j & Hij). apply multiallelic_at_entry, any2_true in Hij as Hany.
    destruct (nonzero_from_first _ 0 Hany) as (i1 & j1 & rest & Hnz & Hfirst).
    apply (first_pair_iff _ (multiallelic_at a)) in Hfirst;
      [|intros; symmetry; apply multiallelic_at_entry].
    destruct Hfirst as [(cell & Hcell & Hm) Hmin].
    destruct (cell_at_in_range _ _ _ _ _ Hwf Hd Hcell) as (v & s & Hv & Hsamp).
    simpl in Hv, Hsamp.
    exists i1, j1, v, s. split_and!; [split; [by exists cell|done]|done..|].
    rewrite (check_biallelic_eq _ _ _ _ _ _ Hd Hs), Hany.
    destruct (decide (nd_dtype a = bool_)); [done|].
    by apply (first_offender_eq _ _ i1 j1 rest).
  - intros Hno. rewrite (check_biallelic_eq _ _ _ _ _ _ Hd Hs).
    destruct (decide (nd_dtype a = bool_)); [done|].
    destruct (any2 (multiallelic_mask a)) eqn:Hany; [|done].
    destruct (nonzero_from_first _ 0 Hany) as (i & j & _ & _ & [Hij _]).
    by apply multiallelic_at_entry, Hno in Hij.
  - rewrite (check_biallelic_eq _ _ _ _ _ _ Hd Hs).
    destruct (decide (nd_dtype a = bool_)); [done|].
    destruct (any2 (multiallelic_mask a)) eqn:Hany.
    + eexists _, _, _. cbv zeta. split; [reflexivity|]. simpl.
      assert (∃ i j, multiallelic_at a i j) as Hsome.
      { destruct (nonzero_from_first _ 0 Hany) as (i & j & _ & _ & [Hij _]).
        exists i, j. by apply multiallelic_at_entry. }
      split_and!; [done|done| |by apply delete_multiallelic|done..| | | |].
      * unfold delete_axis1. rewrite Hs. simpl. rewrite <- list_fmap_compose.
        apply list_fmap_ext. intros _ row _. simpl. by rewrite delete_multiallelic.
      * intros _. split; [done|]. by rewrite !length_fmap.
      * intros Hno. destruct Hsome as (i & j & Hij). by destruct (Hno i j).
      * intros Hnil. unfold dim, delete_axis1. rewrite Hs. simpl.
        assert (length (delete (seq 0 d1) (nonzero (multiallelic_mask a)).*2) = 0) as ->;
          [|done].
        apply (f_equal length) in Hnil. unfold delete in *.
        rewrite (delete_from_length_eq (seq 0 d1) (rows (variants g)));
          [exact Hnil|by rewrite length_seq].
      * apply (aligned_ext
                 (set_data (astype_bool_array
                              (delete_axis1 a (nonzero (multiallelic_mask a)).*2))
                    (discard_variants a (nonzero (multiallelic_mask a)).*2
                       (forget_indexes g)))); [done..|].
        by apply wf_aligned, wf_discard_variants.
    + pose proof (Hnone eq_refl) as Hno.
      assert (∀ j, negb (multiallelic_column a j) = true) as Hkeep.
      { intros j. apply negb_true_iff. destruct (multiallelic_column a j) eqn:Hj; [|done].
        apply multiallelic_column_iff in Hj as [i Hi]. by destruct (Hno i j). }
      eexists _, _, _. cbv zeta. split; [reflexivity|]. simpl.
      split_and!; [done|done| |by rewrite at_positions_all|done..| |done| |].
      * apply list_fmap_ext. intros _ row _. simpl. by rewrite at_positions_all.
      * intros (i & j & Hij). by destruct (Hno i j).
      * intros Hnil. rewrite H1, Hnil. done.
      * apply (aligned_ext (set_data (astype_bool_array a) (forget_indexes g))); [done..|].
        apply wf_aligned, (wf_set_data _ a); [done|done| |apply in_range_astype_bool
                                             |done|done].
        apply regular_astype_bool. destruct Hal as (? & ? & ? & _). by simplify_eq.
Qed.

Lemma ex_three_aligned : aligned ex_three.
Proof.
  exists ex_two_multi. split_and!; [done| |unfold in_range; simpl; solve_forall|done|done].
  eexists _, _, _. split_and!; [reflexivity|reflexivity|simpl; repeat constructor].
Qed.

Lemma check_biallelic_by_variant_witness :
  ((∃ i j, multiallelic_at ex_two_multi i j) →
   ∃ i j v s,
     first_pair (multiallelic_at ex_two_multi) i j ∧
     rows (variants ex_three) !! j = Some v ∧ samples ex_three !! i = Some s ∧
     check_biallelic false ex_three =
       (Raise (ValueError (MultiallelicVariant (v_id v) (v_chrom v) (v_pos v) s)),
        ex_three, [])) ∧
  ((∀ i j, ¬ multiallelic_at ex_two_multi i j) →
   check_biallelic false ex_three =
     (Return tt, set_data (astype_bool_array ex_two_multi) ex_three, [])) ∧
  (∃ g' a' l,
     let keep := λ j, negb (multiallelic_column ex_two_multi j) in
     check_biallelic true ex_three = (Return tt, g', l) ∧
     data g' = Some a' ∧ nd_dtype a' = bool_ ∧
     cells a' =
       map (λ row, map (map astype_bool) (at_positions keep row)) (cells ex_two_multi) ∧
     rows (variants g') = at_positions keep (rows (variants ex_three)) ∧
     names (variants g') = names (variants ex_three) ∧
     samples g' = samples ex_three ∧ _samp_idx g' = _samp_idx ex_three ∧
     ((∃ i j, multiallelic_at ex_two_multi i j) →
      _var_idx g' = None ∧
      head l =
        Some (InfoIgnoringMultiallelic (length (nonzero (multiallelic_mask ex_two_multi))))) ∧
     ((∀ i j, ¬ multiallelic_at ex_two_multi i j) → _var_idx g' = _var_idx ex_three) ∧
     (rows (variants g') = [] → last l = Some WarnAllVariantsDiscarded) ∧
     aligned g').
Proof.
  apply (check_biallelic_by_variant ex_three ex_two_multi ex_three_aligned); reflexivity.
Defined.

(** Both samples are multiallelic at the second variant: one variant is
    removed, and the log counts two. *)
Example check_biallelic_counts_genotypes :
  ∃ g', check_biallelic true ex_three = (Return tt, g', [InfoIgnoringMultiallelic 2]) ∧
        v_id <$> rows (variants g') = ["rs1"; "rs3"] ∧
        data g' =
          Some (mk_ndarray bool_ [2; 2; 3]
                  [[[0; 1; 1]; [0; 0; 1]]; [[1; 1; 1]; [1; 0; 1]]]%Z).
Proof. eexists. split; [vm_compute; reflexivity|done]. Qed.
